(** * AgentLog: a shallow embedding of the event pipeline

    The development follows the C++ sources of the library
    (include/agentlog/*.h, src/*.cpp).  Each class becomes a module holding a
    record for its data members and one function per member function; member
    functions that mutate the object return the new object next to their
    result.

    Conventions of the embedding:
    - [double] is read as a real number (finite arithmetic, no NaN and no
      infinity); a division whose divisor the caller controls is written out
      the way IEEE arithmetic evaluates it when the divisor is zero;
    - [uint64_t] and [size_t] counters are integers in [Z] with the
      wrap-around modulo 2^64 written out ([wrap64]); container sizes are
      natural numbers;
    - [timestamp_t] is the number of nanoseconds since the epoch and
      [duration_t] a number of nanoseconds, both in [Z];
    - [std::map] is a key-ordered association list, [std::unordered_map] a
      [gmap], [std::vector] and [std::deque] are lists;
    - every read of [std::chrono::system_clock::now()] is an explicit
      argument of the function that performs it;
    - an exception is a value of [exn]; a call that may throw returns an
      [outcome]. *)

From Stdlib Require Import Reals Lra Lia ZArith Ascii String.
From stdpp Require Import base gmap strings list sorting pretty.

Local Open Scope Z_scope.

(** ** Machine arithmetic and the pieces of the C++ library the code uses *)

Definition wrap64 (x : Z) : Z := x mod 2 ^ 64.

(** Conversion of an unsigned 64-bit value to [int64_t] (two's complement). *)
Definition to_int64 (x : Z) : Z :=
  let y := wrap64 x in if decide (y < 2 ^ 63) then y else y - 2 ^ 64.

(** Comparisons of doubles. *)
Definition dle (x y : R) : bool := if Rle_dec x y then true else false.
Definition dlt (x y : R) : bool := if Rlt_dec x y then true else false.

(** [std::max(a, b)] returns [b] when [a < b] and [a] otherwise;
    [std::min(a, b)] returns [b] when [b < a] and [a] otherwise. *)
Definition std_max (a b : R) : R := if dlt a b then b else a.
Definition std_min (a b : R) : R := if dlt b a then b else a.

(** Exceptions: those derived from [std::exception] carry their [what()]
    text; anything else a callable may throw is [OtherException]. *)
Inductive exn : Type :=
  | StdException (what : string)
  | OtherException.

Inductive outcome (A : Type) : Type :=
  | Ok (a : A)
  | Throw (e : exn).
Arguments Ok {A} a.
Arguments Throw {A} e.

(** Facilities of the C++ standard library whose results the sources only
    pass along: the text [operator<<] prints for a double, the search of
    [std::regex_search] (subject, then pattern) and the text of
    [std::put_time(std::localtime(&t), "%Y-%m-%d %H:%M:%S")]. *)
Class StdLib := {
  show_double : R → string;
  regex_search : string → string → bool;
  put_time : Z → string
}.

(** [operator<<] on an unsigned integer and on a signed one. *)
Definition show_nat (n : nat) : string := pretty (N.of_nat n).
Definition show_Z (z : Z) : string := pretty z.

(** [os << std::setw(6) << std::setfill('0') << id] *)
Fixpoint pad_left (n : nat) (s : string) : string :=
  match n with
  | O => s
  | S k => String "0"%char (pad_left k s)
  end.
Definition setw6 (s : string) : string :=
  pad_left (6 - String.length s) s.

(** [while (!ts.empty() && ts.front() < cutoff) ts.pop_front();] *)
Fixpoint drop_old (cutoff : Z) (ts : list Z) : list Z :=
  match ts with
  | front :: rest => if decide (front < cutoff) then drop_old cutoff rest else ts
  | [] => []
  end.

Definition nl : string := String (ascii_of_nat 10) EmptyString.

(** ** common.h *)

Module Severity.
Inductive t : Type := TRACE | DEBUG | INFO | WARNING | ERROR | CRITICAL | ALERT.

#[global] Instance eq_dec : EqDecision t.
Proof. solve_decision. Defined.

(** The enumerators' values, which [operator>=] compares. *)
Definition value (s : t) : Z :=
  match s with
  | TRACE => 0 | DEBUG => 1 | INFO => 2 | WARNING => 3
  | ERROR => 4 | CRITICAL => 5 | ALERT => 6
  end.

Definition severity_to_string (s : t) : string :=
  match s with
  | TRACE => "TRACE" | DEBUG => "DEBUG" | INFO => "INFO"
  | WARNING => "WARNING" | ERROR => "ERROR" | CRITICAL => "CRITICAL"
  | ALERT => "ALERT"
  end.
End Severity.

Module StackFrame.
Record t : Type := mk {
  function : string;
  file : string;
  line : Z;
  module : string
}.
End StackFrame.

(** ** event.h, event.cpp *)

Module LogEvent.
Record t : Type := mk {
  event_type_ : string;
  timestamp_ : Z;
  severity_ : Severity.t;
  message_ : string;
  entities_ : list (string * string);
  metrics_ : list (string * R);
  context_ : list (string * string);
  tags_ : list string;
  stack_trace_ : list StackFrame.t;
  service_name_ : string;
  service_instance_ : string;
  trace_id_ : string;
  span_id_ : string;
  anomaly_score_ : R;
  predicted_labels_ : list string;
  incident_id_ : option string;
  event_id_ : Z
}.

(** [LogEvent& anomaly_score(double score)] *)
Definition anomaly_score (e : t) (score : R) : t :=
  mk (event_type_ e) (timestamp_ e) (severity_ e) (message_ e) (entities_ e)
     (metrics_ e) (context_ e) (tags_ e) (stack_trace_ e) (service_name_ e)
     (service_instance_ e) (trace_id_ e) (span_id_ e) score
     (predicted_labels_ e) (incident_id_ e) (event_id_ e).

(** [LogEvent& service_name(std::string name)] *)
Definition service_name (e : t) (name : string) : t :=
  mk (event_type_ e) (timestamp_ e) (severity_ e) (message_ e) (entities_ e)
     (metrics_ e) (context_ e) (tags_ e) (stack_trace_ e) name
     (service_instance_ e) (trace_id_ e) (span_id_ e) (anomaly_score_ e)
     (predicted_labels_ e) (incident_id_ e) (event_id_ e).

(** [LogEvent& trace_id(std::string id)] *)
Definition trace_id (e : t) (id : string) : t :=
  mk (event_type_ e) (timestamp_ e) (severity_ e) (message_ e) (entities_ e)
     (metrics_ e) (context_ e) (tags_ e) (stack_trace_ e) (service_name_ e)
     (service_instance_ e) id (span_id_ e) (anomaly_score_ e)
     (predicted_labels_ e) (incident_id_ e) (event_id_ e).

(** [bool is_anomalous(double threshold = 0.7) const] *)
Definition is_anomalous_at (threshold : R) (e : t) : bool :=
  dle threshold (anomaly_score_ e).
Definition is_anomalous (e : t) : bool := is_anomalous_at 0.7 e.

(** The body of the loops that print a map's pairs separated by [sep]. *)
Fixpoint join_pairs {A : Type} (sep : string) (show : string → A → string)
    (first : bool) (l : list (string * A)) : string :=
  match l with
  | [] => EmptyString
  | (key, value) :: rest =>
      (if first then EmptyString else sep) +:+ show key value
      +:+ join_pairs sep show false rest
  end.

Definition dquote : string := String (ascii_of_nat 34) EmptyString.
Definition quoted (s : string) : string := dquote +:+ s +:+ dquote.

Section Printing.
Context `{StdLib}.

Definition to_json (e : t) : string :=
  "{"
  +:+ quoted "event_id" +:+ ":" +:+ show_Z (event_id_ e) +:+ ","
  +:+ quoted "event_type" +:+ ":" +:+ quoted (event_type_ e) +:+ ","
  +:+ quoted "timestamp" +:+ ":"
      +:+ show_Z (Z.quot (timestamp_ e) 1000000) +:+ ","
  +:+ quoted "severity" +:+ ":"
      +:+ quoted (Severity.severity_to_string (severity_ e)) +:+ ","
  +:+ (if decide (message_ e = EmptyString) then EmptyString
       else quoted "message" +:+ ":" +:+ quoted (message_ e) +:+ ",")
  +:+ (if decide (service_name_ e = EmptyString) then EmptyString
       else quoted "service" +:+ ":" +:+ quoted (service_name_ e) +:+ ",")
  +:+ (if decide (trace_id_ e = EmptyString) then EmptyString
       else quoted "trace_id" +:+ ":" +:+ quoted (trace_id_ e) +:+ ",")
  +:+ (match entities_ e with
       | [] => EmptyString
       | _ => quoted "entities" +:+ ":{"
              +:+ join_pairs "," (λ k v, quoted k +:+ ":" +:+ quoted v)
                    true (entities_ e)
              +:+ "},"
       end)
  +:+ (match metrics_ e with
       | [] => EmptyString
       | _ => quoted "metrics" +:+ ":{"
              +:+ join_pairs "," (λ k v, quoted k +:+ ":" +:+ show_double v)
                    true (metrics_ e)
              +:+ "},"
       end)
  +:+ (match context_ e with
       | [] => EmptyString
       | _ => quoted "context" +:+ ":{"
              +:+ join_pairs "," (λ k v, quoted k +:+ ":" +:+ quoted v)
                    true (context_ e)
              +:+ "},"
       end)
  +:+ quoted "anomaly_score" +:+ ":" +:+ show_double (anomaly_score_ e)
  +:+ (match incident_id_ e with
       | Some id => "," +:+ quoted "incident_id" +:+ ":" +:+ quoted id
       | None => EmptyString
       end)
  +:+ "}".

Definition to_string (e : t) : string :=
  put_time (Z.quot (timestamp_ e) 1000000000)
  +:+ " [" +:+ Severity.severity_to_string (severity_ e) +:+ "]"
  +:+ (if decide (service_name_ e = EmptyString) then EmptyString
       else " [" +:+ service_name_ e
            +:+ (if decide (service_instance_ e = EmptyString) then EmptyString
                 else ":" +:+ service_instance_ e)
            +:+ "]")
  +:+ " " +:+ event_type_ e
  +:+ (if decide (message_ e = EmptyString) then EmptyString else " - " +:+ message_ e)
  +:+ (match entities_ e with
       | [] => EmptyString
       | _ => " {" +:+ join_pairs ", " (λ k v, k +:+ "=" +:+ v)
                         true (entities_ e) +:+ "}"
       end)
  +:+ (match metrics_ e with
       | [] => EmptyString
       | _ => " [" +:+ join_pairs ", " (λ k v, k +:+ "=" +:+ show_double v)
                         true (metrics_ e) +:+ "]"
       end)
  +:+ (if is_anomalous e
       then " ⚠️ ANOMALY(" +:+ show_double (anomaly_score_ e) +:+ ")"
       else EmptyString).
End Printing.
End LogEvent.

(** ** correlation_engine.h: the correlation record *)

Module Correlation.
Record t : Type := mk {
  event_ids : list Z;
  correlation_type : string;
  confidence : R;
  reason : string;
  first_event_time : Z;
  last_event_time : Z;
  metadata : gmap string string
}.
End Correlation.

(** ** incident_manager.h, incident_manager.cpp *)

Module IncidentSeverity.
Inductive t : Type := LOW | MEDIUM | HIGH | CRITICAL.

#[global] Instance eq_dec : EqDecision t.
Proof. solve_decision. Defined.

Definition incident_severity_to_string (s : t) : string :=
  match s with
  | LOW => "LOW" | MEDIUM => "MEDIUM" | HIGH => "HIGH" | CRITICAL => "CRITICAL"
  end.
End IncidentSeverity.

Module IncidentStatus.
Inductive t : Type :=
  OPEN | INVESTIGATING | IDENTIFIED | MONITORING | RESOLVED | CLOSED.

#[global] Instance eq_dec : EqDecision t.
Proof. solve_decision. Defined.
End IncidentStatus.

Module Incident.
Record t : Type := mk {
  incident_id : string;
  title : string;
  description : string;
  severity : IncidentSeverity.t;
  status : IncidentStatus.t;
  created_at : Z;
  resolved_at : option Z;
  event_ids : list Z;
  root_cause : option string;
  root_cause_event_id : option Z;
  anomaly_score : R;
  affected_services_count : nat;
  affected_users_count : nat;
  labels : gmap string string;
  tags : list string;
  jira_ticket_id : option string;
  pagerduty_incident_id : option string
}.

(** [incident.status = s] *)
Definition set_status (s : IncidentStatus.t) (i : t) : t :=
  mk (incident_id i) (title i) (description i) (severity i) s (created_at i)
     (resolved_at i) (event_ids i) (root_cause i) (root_cause_event_id i)
     (anomaly_score i) (affected_services_count i) (affected_users_count i)
     (labels i) (tags i) (jira_ticket_id i) (pagerduty_incident_id i).

(** The three assignments that resolve an incident:
    [status = RESOLVED; resolved_at = now; root_cause = cause]. *)
Definition set_resolved (now : Z) (cause : string) (i : t) : t :=
  mk (incident_id i) (title i) (description i) (severity i)
     IncidentStatus.RESOLVED (created_at i) (Some now) (event_ids i)
     (Some cause) (root_cause_event_id i) (anomaly_score i)
     (affected_services_count i) (affected_users_count i) (labels i)
     (tags i) (jira_ticket_id i) (pagerduty_incident_id i).
End Incident.

(** ** incident_manager.cpp: the two file-local text helpers

    A [std::string] is a sequence of bytes, here a [string] whose characters
    are the bytes.  Whether plain [char] is signed is left to the platform
    and is a parameter; [int] has 32 bits. *)

(** The value of a [char] converted to [int]. *)
Definition char_value (char_is_signed : bool) (c : ascii) : Z :=
  let n := Z.of_N (N_of_ascii c) in
  if char_is_signed && bool_decide (128 ≤ n) then n - 256 else n.

Definition hex_digit (d : Z) : ascii :=
  default "0"%char (String.get (Z.to_nat d) "0123456789abcdef").

(** The digits of a non-negative number in base 16, at most [S fuel] of
    them. *)
Fixpoint hex_digits (fuel : nat) (n : Z) : string :=
  match fuel with
  | O => String (hex_digit (n `mod` 16)) EmptyString
  | S fuel' =>
      (if decide (n < 16) then EmptyString else hex_digits fuel' (n `div` 16))
      +:+ String (hex_digit (n `mod` 16)) EmptyString
  end.

(** [os << std::hex << std::setw(2) << std::setfill('0') << n] for an
    [int]: the number is printed as the [unsigned int] of the same bits,
    which has at most eight digits. *)
Definition show_hex (n : Z) : string :=
  let digits := hex_digits 7 (n `mod` 2 ^ 32) in
  pad_left (2 - String.length digits) digits.

Definition backslash : string := String (ascii_of_nat 92) EmptyString.

(** The body of the loop of [json_escape]: what is written for one
    character. *)
Definition json_escape_char (char_is_signed : bool) (c : ascii) : string :=
  let code := Z.of_N (N_of_ascii c) in
  if decide (code = 34) then backslash +:+ String (ascii_of_nat 34) EmptyString
  else if decide (code = 92) then backslash +:+ backslash
  else if decide (code = 8) then backslash +:+ "b"
  else if decide (code = 12) then backslash +:+ "f"
  else if decide (code = 10) then backslash +:+ "n"
  else if decide (code = 13) then backslash +:+ "r"
  else if decide (code = 9) then backslash +:+ "t"
  else if decide (char_value char_is_signed c < 32)
       then backslash +:+ "u00" +:+ show_hex (char_value char_is_signed c)
       else String c EmptyString.

Fixpoint json_escape (char_is_signed : bool) (input : string) : string :=
  match input with
  | EmptyString => EmptyString
  | String c rest =>
      json_escape_char char_is_signed c +:+ json_escape char_is_signed rest
  end.

(** Arithmetic of [int]: a result that does not fit is reduced modulo 2^32
    to the signed range (two's complement). *)
Definition to_int32 (x : Z) : Z :=
  let y := x `mod` 2 ^ 32 in if decide (y < 2 ^ 31) then y else y - 2 ^ 32.

Definition base64_chars : string :=
  "ABCDEFGHIJKLMNOPQRSTUVWXYZabcdefghijklmnopqrstuvwxyz0123456789+/".

(** [base64_chars[i]] *)
Definition base64_char (i : Z) : ascii :=
  default "A"%char (String.get (Z.to_nat i) base64_chars).

Module Base64.
(** The local variables of [base64_encode]. *)
Record state : Type := mk {
  output : list ascii;
  val : Z;
  valb : Z
}.

(** [while (valb >= 0) { output.push_back(...); valb -= 6; }], with the
    number of turns that are left. *)
Fixpoint drain (turns : nat) (s : state) : state :=
  match turns with
  | O => s
  | S turns' =>
      if decide (0 ≤ valb s)
      then drain turns'
             (mk (output s
                  ++ [base64_char (Z.land (Z.shiftr (val s) (valb s)) 63)])
                 (val s) (valb s - 6))
      else s
  end.

(** The body of the loop over the bytes of the input.  The inner loop is
    entered with [valb] and takes one turn for every multiple of 6 from
    [valb] down to 0. *)
Definition step (s : state) (c : ascii) : state :=
  let val' := to_int32 (to_int32 (Z.shiftl (val s) 8) + Z.of_N (N_of_ascii c)) in
  let valb' := valb s + 8 in
  drain (Z.to_nat (valb' `div` 6 + 1)) (mk (output s) val' valb').

(** [while (output.size() % 4) output.push_back('=');], which takes at most
    three turns. *)
Fixpoint pad (turns : nat) (output : list ascii) : list ascii :=
  match turns with
  | O => output
  | S turns' =>
      if decide (length output `mod` 4 = 0)%nat then output
      else pad turns' (output ++ ["="%char])
  end.
End Base64.

Definition base64_encode (input : string) : string :=
  let s :=
    foldl Base64.step (Base64.mk [] 0 (-6)) (list_ascii_of_string input) in
  let output :=
    if decide (-6 < Base64.valb s)
    then Base64.output s
         ++ [base64_char
               (Z.land (Z.shiftr (to_int32 (Z.shiftl (Base64.val s) 8))
                          (Base64.valb s + 8)) 63)]
    else Base64.output s in
  string_of_list_ascii (Base64.pad 3 output).

(** The interface [IncidentIntegration]; an implementation talks to an
    external tracker, of which only the result of each call is kept. *)
Module IncidentIntegration.
Record t : Type := mk {
  create_incident : Incident.t → outcome string;
  update_incident : string → Incident.t → outcome unit;
  resolve_incident : string → string → outcome unit;
  name : string
}.
End IncidentIntegration.

(** [std::function<void(const T&)>]: a listener returns or throws. *)
Definition Callback (T : Type) : Type := T → outcome unit.

(** [for (const auto& callback : callbacks) callback(x);] — the number of
    listeners that were called, and how the loop ended. *)
Fixpoint invoke_all {T : Type} (callbacks : list (Callback T)) (x : T)
    : nat * outcome unit :=
  match callbacks with
  | [] => (O, Ok tt)
  | callback :: rest =>
      match callback x with
      | Ok _ => let '(n, r) := invoke_all rest x in (S n, r)
      | Throw e => (1%nat, Throw e)
      end
  end.

Module IncidentManager.
Record Config : Type := mkConfig {
  anomaly_threshold : R;
  pattern_match_threshold : nat;
  correlated_events_threshold : nat;
  enable_auto_resolution : bool;
  resolution_timeout : Z;
  enable_deduplication : bool;
  deduplication_window : Z;
  critical_threshold : R;
  high_threshold : R;
  medium_threshold : R
}.

Definition minutes (n : Z) : Z := n * 60 * 1000000000.

(** The default member initialisers of [IncidentManagerConfig]. *)
Definition default_config : Config :=
  mkConfig 0.75 1 3 true (minutes 15) true (minutes 5) 0.95 0.85 0.75.

Record Stats : Type := mkStats {
  total_created : Z;
  currently_open : Z;
  resolved : Z;
  deduplicated : Z
}.

Record t : Type := mk {
  config_ : Config;
  next_incident_id_ : Z;
  incidents_ : gmap string Incident.t;
  on_created_callbacks_ : list (Callback Incident.t);
  on_resolved_callbacks_ : list (Callback Incident.t);
  integrations_ : list IncidentIntegration.t;
  stats_ : Stats
}.

(** [IncidentManager(Config config = Config())] *)
Definition create (config : Config) : t :=
  mk config 1 ∅ [] [] [] (mkStats 0 0 0 0).

Definition with_incidents (m : t) (incidents : gmap string Incident.t)
    (stats : Stats) : t :=
  mk (config_ m) (next_incident_id_ m) incidents (on_created_callbacks_ m)
     (on_resolved_callbacks_ m) (integrations_ m) stats.

Definition with_next_id (m : t) (next : Z) : t :=
  mk (config_ m) next (incidents_ m) (on_created_callbacks_ m)
     (on_resolved_callbacks_ m) (integrations_ m) (stats_ m).

Definition calculate_severity (m : t) (anomaly_score : R)
    (pattern_matches correlated_events : nat) : IncidentSeverity.t :=
  if dle (critical_threshold (config_ m)) anomaly_score
  then IncidentSeverity.CRITICAL
  else if dle (high_threshold (config_ m)) anomaly_score
          || bool_decide (2 ≤ pattern_matches)%nat
  then IncidentSeverity.HIGH
  else if dle (medium_threshold (config_ m)) anomaly_score
          || bool_decide (5 ≤ correlated_events)%nat
  then IncidentSeverity.MEDIUM
  else IncidentSeverity.LOW.

(** [next_incident_id_.fetch_add(1)] and the formatting of the old value. *)
Definition generate_incident_id (m : t) : string * t :=
  let id := next_incident_id_ m in
  ("INC-" +:+ setw6 (show_Z id), with_next_id m (wrap64 (id + 1))).

(** The test [find_duplicate] applies to each stored incident. *)
Definition duplicates (m : t) (incident existing : Incident.t) : bool :=
  let cutoff :=
    Incident.created_at incident - deduplication_window (config_ m) in
  if decide (Incident.created_at existing < cutoff) then false
  else if bool_decide (Incident.status existing = IncidentStatus.RESOLVED)
          || bool_decide (Incident.status existing = IncidentStatus.CLOSED)
  then false
  else if bool_decide (Incident.title existing = Incident.title incident)
          && bool_decide
               (Incident.severity existing = Incident.severity incident)
  then true
  else
    let existing_set : gset Z := list_to_set (Incident.event_ids existing) in
    let overlap :=
      length (filter (λ id, id ∈ existing_set) (Incident.event_ids incident)) in
    bool_decide (length (Incident.event_ids incident) / 2 < overlap)%nat.

Definition find_duplicate (m : t) (incident : Incident.t) : option string :=
  fst <$> List.find (λ entry, duplicates m incident entry.2)
                    (map_to_list (incidents_ m)).

(** The loop over [integrations_] at creation: an exception derived from
    [std::exception] is caught and the loop goes on; any other one leaves
    the function. *)
Fixpoint notify_created (integrations : list IncidentIntegration.t)
    (incident : Incident.t) : outcome unit :=
  match integrations with
  | [] => Ok tt
  | integration :: rest =>
      match IncidentIntegration.create_incident integration incident with
      | Ok _ | Throw (StdException _) => notify_created rest incident
      | Throw OtherException => Throw OtherException
      end
  end.

(** The test at the top of [evaluate_event]. *)
Definition should_create (m : t) (event : LogEvent.t)
    (correlations : list Correlation.t) (matched_patterns : list string)
    : bool :=
  dle (anomaly_threshold (config_ m)) (LogEvent.anomaly_score_ event)
  || bool_decide (pattern_match_threshold (config_ m) ≤ length matched_patterns)%nat
  || bool_decide (correlated_events_threshold (config_ m) ≤ length correlations)%nat.

Section Describe.
Context `{StdLib}.

(** The text assembled in [desc_ss]. *)
Definition describe (event : LogEvent.t) (correlations : list Correlation.t)
    (matched_patterns : list string) : string :=
  "Incident created from event: " +:+ LogEvent.event_type_ event +:+ nl
  +:+ "Anomaly score: " +:+ show_double (LogEvent.anomaly_score_ event) +:+ nl
  +:+ (match matched_patterns with
       | [] => EmptyString
       | _ => nl +:+ "Matched patterns:" +:+ nl
              +:+ String.concat EmptyString
                    (map (λ pattern, "  - " +:+ pattern +:+ nl) matched_patterns)
       end)
  +:+ (match correlations with
       | [] => EmptyString
       | _ => nl +:+ "Correlated events: " +:+ show_nat (length correlations)
              +:+ nl
              +:+ String.concat EmptyString
                    (map (λ corr, "  - " +:+ Correlation.reason corr
                                  +:+ " (confidence: "
                                  +:+ show_double (Correlation.confidence corr)
                                  +:+ ")" +:+ nl) correlations)
       end)
  +:+ (if decide (LogEvent.message_ event = EmptyString) then EmptyString
       else nl +:+ "Message: " +:+ LogEvent.message_ event +:+ nl)
  +:+ (match LogEvent.entities_ event with
       | [] => EmptyString
       | _ => nl +:+ "Entities:" +:+ nl
              +:+ String.concat EmptyString
                    (map (λ kv, "  " +:+ kv.1 +:+ ": " +:+ kv.2 +:+ nl)
                         (LogEvent.entities_ event))
       end)
  +:+ (match LogEvent.metrics_ event with
       | [] => EmptyString
       | _ => nl +:+ "Metrics:" +:+ nl
              +:+ String.concat EmptyString
                    (map (λ kv, "  " +:+ kv.1 +:+ ": " +:+ show_double kv.2 +:+ nl)
                         (LogEvent.metrics_ event))
       end).

(** The incident [evaluate_event] assembles before it looks for a
    duplicate.  [affected_users_count] is never assigned by the source;
    it is read as 0 here and nothing depends on it. *)
Definition build_incident (now : Z) (m : t) (id : string)
    (event : LogEvent.t) (correlations : list Correlation.t)
    (matched_patterns : list string) : Incident.t :=
  let severity :=
    calculate_severity m (LogEvent.anomaly_score_ event)
      (length matched_patterns) (length correlations) in
  Incident.mk
    id
    (match matched_patterns with
     | front :: _ => "Pattern detected: " +:+ front
     | [] => "Anomaly in " +:+ LogEvent.event_type_ event
     end)
    (describe event correlations matched_patterns)
    severity
    IncidentStatus.OPEN
    now
    None
    (LogEvent.event_id_ event
       :: concat (map Correlation.event_ids correlations))
    None
    None
    (LogEvent.anomaly_score_ event)
    (if decide (LogEvent.service_name_ event = EmptyString) then 0 else 1)%nat
    0%nat
    (let l1 : gmap string string :=
       <["event_type" := LogEvent.event_type_ event]>
         (<["severity" := IncidentSeverity.incident_severity_to_string severity]> ∅) in
     if decide (LogEvent.service_name_ event = EmptyString) then l1
     else <["service" := LogEvent.service_name_ event]> l1)
    ((if dle 0.9 (LogEvent.anomaly_score_ event)
      then ["critical-anomaly"] else [])
       ++ map (λ pattern, "pattern:" +:+ pattern) matched_patterns)
    None
    None.

(** [store] is the tail shared by [evaluate_event] and
    [create_incident]: insert, count, notify the integrations, then the
    listeners. *)
Definition store (m : t) (incident : Incident.t) : t * outcome unit :=
  let stats := stats_ m in
  let m1 :=
    with_incidents m
      (<[Incident.incident_id incident := incident]> (incidents_ m))
      (mkStats (wrap64 (total_created stats + 1))
               (wrap64 (currently_open stats + 1))
               (resolved stats) (deduplicated stats)) in
  match notify_created (integrations_ m1) incident with
  | Throw e => (m1, Throw e)
  | Ok _ => (m1, (invoke_all (on_created_callbacks_ m1) incident).2)
  end.

Definition evaluate_event (now : Z) (m : t) (event : LogEvent.t)
    (correlations : list Correlation.t) (matched_patterns : list string)
    : t * outcome (option Incident.t) :=
  if negb (should_create m event correlations matched_patterns)
  then (m, Ok None)
  else
    let '(id, m1) := generate_incident_id m in
    let incident :=
      build_incident now m1 id event correlations matched_patterns in
    if enable_deduplication (config_ m1)
       && bool_decide (is_Some (find_duplicate m1 incident))
    then
      let stats := stats_ m1 in
      (with_incidents m1 (incidents_ m1)
         (mkStats (total_created stats) (currently_open stats)
                  (resolved stats) (wrap64 (deduplicated stats + 1))),
       Ok None)
    else
      match store m1 incident with
      | (m2, Ok _) => (m2, Ok (Some incident))
      | (m2, Throw e) => (m2, Throw e)
      end.
End Describe.

Definition create_incident (now : Z) (m : t) (title description : string)
    (severity : IncidentSeverity.t) (event_ids : list Z)
    : t * outcome Incident.t :=
  let '(id, m1) := generate_incident_id m in
  let incident :=
    Incident.mk id title description severity IncidentStatus.OPEN now None
      event_ids None None 0 0%nat 0%nat ∅ [] None None in
  match store m1 incident with
  | (m2, Ok _) => (m2, Ok incident)
  | (m2, Throw e) => (m2, Throw e)
  end.

Definition update_status (m : t) (incident_id : string)
    (new_status : IncidentStatus.t) : t :=
  match incidents_ m !! incident_id with
  | Some incident =>
      with_incidents m
        (<[incident_id := Incident.set_status new_status incident]> (incidents_ m))
        (stats_ m)
  | None => m
  end.

(** The body of the [try] block run for one integration when an incident
    is resolved. *)
Definition resolve_calls (integration : IncidentIntegration.t)
    (incident : Incident.t) (incident_id resolution : string) : outcome unit :=
  let call external_id :=
    IncidentIntegration.resolve_incident integration external_id resolution in
  match (match Incident.jira_ticket_id incident with
         | Some ticket => call ticket
         | None => Ok tt
         end) with
  | Throw e => Throw e
  | Ok _ =>
      match (match Incident.pagerduty_incident_id incident with
             | Some pd => call pd
             | None => Ok tt
             end) with
      | Throw e => Throw e
      | Ok _ => call ("SLACK-" +:+ incident_id)
      end
  end.

Fixpoint notify_resolved (integrations : list IncidentIntegration.t)
    (incident : Incident.t) (incident_id resolution : string) : outcome unit :=
  match integrations with
  | [] => Ok tt
  | integration :: rest =>
      match resolve_calls integration incident incident_id resolution with
      | Ok _ | Throw (StdException _) =>
          notify_resolved rest incident incident_id resolution
      | Throw OtherException => Throw OtherException
      end
  end.

Definition resolve_incident (now : Z) (m : t) (incident_id resolution : string)
    : t * outcome unit :=
  match incidents_ m !! incident_id with
  | Some incident =>
      let resolved_incident := Incident.set_resolved now resolution incident in
      let stats := stats_ m in
      let m1 :=
        with_incidents m (<[incident_id := resolved_incident]> (incidents_ m))
          (mkStats (total_created stats) (wrap64 (currently_open stats - 1))
                   (wrap64 (resolved stats + 1)) (deduplicated stats)) in
      match notify_resolved (integrations_ m1) resolved_incident
              incident_id resolution with
      | Throw e => (m1, Throw e)
      | Ok _ => (m1, (invoke_all (on_resolved_callbacks_ m1) resolved_incident).2)
      end
  | None => (m, Ok tt)
  end.

Definition get_incident (m : t) (incident_id : string) : option Incident.t :=
  incidents_ m !! incident_id.

Definition get_all_incidents (m : t) : list Incident.t :=
  (map_to_list (incidents_ m)).*2.

Definition get_open_incidents (m : t) : list Incident.t :=
  List.filter
    (λ incident,
       bool_decide (Incident.status incident = IncidentStatus.OPEN)
       || bool_decide (Incident.status incident = IncidentStatus.INVESTIGATING))
    (get_all_incidents m).

(** The test of the loop in [auto_resolve_stale_incidents]. *)
Definition stale (cutoff : Z) (incident : Incident.t) : bool :=
  (bool_decide (Incident.status incident = IncidentStatus.OPEN)
   || bool_decide (Incident.status incident = IncidentStatus.INVESTIGATING))
  && bool_decide (Incident.created_at incident < cutoff).

(** [now] is the clock read that gives the cutoff; [now_at id] is the one
    taken when the incident [id] is marked resolved.  Every entry is
    visited once and independently of the others, and each stale one moves
    the two counters by one. *)
Definition auto_resolve_stale_incidents (now : Z) (now_at : string → Z)
    (m : t) : t :=
  if negb (enable_auto_resolution (config_ m)) then m
  else
    let cutoff := now - resolution_timeout (config_ m) in
    let n := Z.of_nat (length (List.filter (stale cutoff) (get_all_incidents m))) in
    let stats := stats_ m in
    with_incidents m
      (map_imap
         (λ id incident,
            Some (if stale cutoff incident
                  then Incident.set_resolved (now_at id)
                         "Auto-resolved: no further activity" incident
                  else incident))
         (incidents_ m))
      (mkStats (total_created stats) (wrap64 (currently_open stats - n))
               (wrap64 (resolved stats + n)) (deduplicated stats)).

Definition register_integration (m : t) (integration : IncidentIntegration.t)
    : t :=
  mk (config_ m) (next_incident_id_ m) (incidents_ m) (on_created_callbacks_ m)
     (on_resolved_callbacks_ m) (integrations_ m ++ [integration]) (stats_ m).

Definition on_incident_created (m : t) (callback : Callback Incident.t) : t :=
  mk (config_ m) (next_incident_id_ m) (incidents_ m)
     (on_created_callbacks_ m ++ [callback]) (on_resolved_callbacks_ m)
     (integrations_ m) (stats_ m).

Definition on_incident_resolved (m : t) (callback : Callback Incident.t) : t :=
  mk (config_ m) (next_incident_id_ m) (incidents_ m) (on_created_callbacks_ m)
     (on_resolved_callbacks_ m ++ [callback]) (integrations_ m) (stats_ m).

Definition get_stats (m : t) : Stats := stats_ m.
End IncidentManager.

(** ** anomaly_detector.h, anomaly_detector.cpp *)

Module ZScoreDetector.
Record Stats : Type := mkStats {
  mean : R;
  m2 : R;
  count : Z
}.

(** A value-initialised [Stats], which [metric_stats_[name]] inserts. *)
Definition fresh : Stats := mkStats 0 0 0.

Definition stddev (s : Stats) : R :=
  if decide (1 < count s) then sqrt (m2 s / IZR (count s - 1)) else 0%R.

Record t : Type := mk {
  metric_stats_ : gmap string Stats;
  threshold_ : R
}.

(** [ZScoreDetector(double threshold = 3.0)] *)
Definition create (threshold : R) : t := mk ∅ threshold.

(** [std::tanh(zscore / threshold_)] for a [zscore] that is not negative.
    With a zero threshold the quotient is +inf, whose tanh is 1, or for
    0/0 a NaN, which [std::max] leaves out just as it does a 0. *)
Definition normalize (zscore threshold : R) : R :=
  if Req_dec_T threshold 0 then (if dlt 0 zscore then 1%R else 0%R)
  else tanh (zscore / threshold).

(** The loop of [score]; a [return 1.0] ends it early. *)
Fixpoint score_loop (d : t) (metrics : list (string * R)) (max_zscore : R)
    : R :=
  match metrics with
  | [] => max_zscore
  | (metric_name, value) :: rest =>
      match metric_stats_ d !! metric_name with
      | None => score_loop d rest max_zscore
      | Some stats =>
          if decide (count stats < 30) then score_loop d rest max_zscore
          else if dlt (stddev stats) 1e-6 then
            if dlt 1e-6 (Rabs (value - mean stats)) then 1%R
            else score_loop d rest max_zscore
          else
            let zscore := (Rabs (value - mean stats) / stddev stats)%R in
            let normalized := normalize zscore (threshold_ d) in
            score_loop d rest (std_max max_zscore normalized)
      end
  end.

Definition score (d : t) (event : LogEvent.t) : R :=
  match LogEvent.metrics_ event with
  | [] => 0%R
  | metrics => score_loop d metrics 0
  end.

(** One step of Welford's algorithm, as [train] writes it. *)
Definition update (stats : Stats) (value : R) : Stats :=
  let count' := wrap64 (count stats + 1) in
  let delta := (value - mean stats)%R in
  let mean' := (mean stats + delta / IZR count')%R in
  let delta2 := (value - mean')%R in
  mkStats mean' (m2 stats + delta * delta2)%R count'.

Definition train (d : t) (event : LogEvent.t) : t :=
  foldl
    (λ d' '(metric_name, value),
       let stats := default fresh (metric_stats_ d' !! metric_name) in
       mk (<[metric_name := update stats value]> (metric_stats_ d'))
          (threshold_ d'))
    d (LogEvent.metrics_ event).
End ZScoreDetector.

Module MovingAverageDetector.
Record History : Type := mkHistory {
  values : list R;
  sum : R
}.

Definition fresh : History := mkHistory [] 0.

Record t : Type := mk {
  metric_history_ : gmap string History;
  window_size_ : nat;
  threshold_ : R
}.

(** [MovingAverageDetector(size_t window_size = 100, double threshold = 2.5)] *)
Definition create (window_size : nat) (threshold : R) : t :=
  mk ∅ window_size threshold.

(** [mad += std::abs(v - avg)] over the window. *)
Definition abs_dev_sum (avg : R) (values : list R) : R :=
  foldl (λ mad v, (mad + Rabs (v - avg))%R) 0%R values.

(** [std::tanh(std::abs(value - avg) / (threshold_ * mad))]; a zero
    divisor is read as for the Z-score. *)
Definition deviation_score (dist threshold mad : R) : R :=
  if Req_dec_T (threshold * mad) 0 then (if dlt 0 dist then 1%R else 0%R)
  else tanh (dist / (threshold * mad)).

Fixpoint score_loop (d : t) (metrics : list (string * R)) (max_deviation : R)
    : R :=
  match metrics with
  | [] => max_deviation
  | (metric_name, value) :: rest =>
      match metric_history_ d !! metric_name with
      | None => score_loop d rest max_deviation
      | Some history =>
          if decide (length (values history) < 10)%nat
          then score_loop d rest max_deviation
          else
            let size := INR (length (values history)) in
            let avg := (sum history / size)%R in
            let mad := (abs_dev_sum avg (values history) / size)%R in
            if dlt mad 1e-6 then
              if dlt 1e-6 (Rabs (value - avg)) then 1%R
              else score_loop d rest max_deviation
            else
              score_loop d rest
                (std_max max_deviation
                   (deviation_score (Rabs (value - avg)) (threshold_ d) mad))
      end
  end.

Definition score (d : t) (event : LogEvent.t) : R :=
  match LogEvent.metrics_ event with
  | [] => 0%R
  | metrics => score_loop d metrics 0
  end.

Definition push (window_size : nat) (history : History) (value : R) : History :=
  let values' := values history ++ [value] in
  let sum' := (sum history + value)%R in
  if decide (window_size < length values')%nat then
    match values' with
    | front :: rest => mkHistory rest (sum' - front)
    | [] => mkHistory values' sum'
    end
  else mkHistory values' sum'.

Definition train (d : t) (event : LogEvent.t) : t :=
  foldl
    (λ d' '(metric_name, value),
       let history := default fresh (metric_history_ d' !! metric_name) in
       mk (<[metric_name := push (window_size_ d') history value]>
             (metric_history_ d'))
          (window_size_ d') (threshold_ d'))
    d (LogEvent.metrics_ event).
End MovingAverageDetector.

Module RateDetector.
Record RateStats : Type := mkRateStats {
  timestamps : list Z;
  baseline_rate : R
}.

Definition fresh : RateStats := mkRateStats [] 0.

Record t : Type := mk {
  event_rates_ : gmap string RateStats;
  window_duration_ : Z
}.

Definition seconds (n : Z) : Z := n * 1000000000.

(** [RateDetector(std::chrono::seconds window = std::chrono::seconds(60))] *)
Definition create (window : Z) : t := mk ∅ (seconds window).

(** [std::chrono::duration<double>(window_duration_).count()] *)
Definition window_seconds (d : t) : R := (IZR (window_duration_ d) / 1e9)%R.

(** [score] looks the event type up with [operator[]] and drops the old
    timestamps, so it returns the detector as well.  With a window of
    length zero every rate is +inf or NaN: the baseline becomes +inf at
    the first training, every comparison of the ratio fails and the score
    is 0. *)
Definition score (d : t) (event : LogEvent.t) : R * t :=
  let event_type := LogEvent.event_type_ event in
  let rate_stats := default fresh (event_rates_ d !! event_type) in
  match timestamps rate_stats with
  | [] => (0%R, mk (<[event_type := rate_stats]> (event_rates_ d))
                   (window_duration_ d))
  | _ =>
      let cutoff := LogEvent.timestamp_ event - window_duration_ d in
      let kept := drop_old cutoff (timestamps rate_stats) in
      let d' :=
        mk (<[event_type := mkRateStats kept (baseline_rate rate_stats)]>
              (event_rates_ d))
           (window_duration_ d) in
      if decide (window_duration_ d = 0) then (0%R, d')
      else
        let current_rate := (INR (length kept) / window_seconds d)%R in
        if dlt (baseline_rate rate_stats) 0.1 then (0%R, d')
        else
          let ratio := (current_rate / baseline_rate rate_stats)%R in
          if dlt 2 ratio then (std_min 1 ((ratio - 2) / 3), d')
          else if dlt ratio 0.5 then (std_min 1 ((0.5 - ratio) / 0.5), d')
          else (0%R, d')
  end.

(** With a window of length zero the baseline is +inf from the first
    training on; the model keeps the stored number, which [score] then
    never reads. *)
Definition train (d : t) (event : LogEvent.t) : t :=
  let event_type := LogEvent.event_type_ event in
  let rate_stats := default fresh (event_rates_ d !! event_type) in
  let ts := timestamps rate_stats ++ [LogEvent.timestamp_ event] in
  let cutoff := LogEvent.timestamp_ event - window_duration_ d in
  let count := length (List.filter (λ x, bool_decide (cutoff ≤ x)) ts) in
  let current_rate := (INR count / window_seconds d)%R in
  let baseline :=
    if decide (window_duration_ d = 0) then baseline_rate rate_stats
    else if dlt (baseline_rate rate_stats) 0.1 then current_rate
    else (0.9 * baseline_rate rate_stats + 0.1 * current_rate)%R in
  mk (<[event_type := mkRateStats ts baseline]> (event_rates_ d))
     (window_duration_ d).
End RateDetector.

Module CombineMethod.
Inductive t : Type := MAX | AVERAGE | WEIGHTED | VOTING.
End CombineMethod.

(** The switch of [EnsembleDetector::score], on the children's scores and
    weights. *)
Module EnsembleDetector.
(** [*std::max_element(scores.begin(), scores.end())] on a non-empty
    vector: the first of the largest elements. *)
Fixpoint max_element (first : R) (rest : list R) : R :=
  match rest with
  | [] => first
  | s :: rest' => max_element (if dlt first s then s else first) rest'
  end.

Definition sum_scores (scores : list R) : R :=
  foldl (λ sum s, (sum + s)%R) 0%R scores.

Definition combine (method : CombineMethod.t) (scored : list (R * R)) : R :=
  let scores := scored.*1 in
  match method with
  | CombineMethod.MAX =>
      match scores with
      | first :: rest => max_element first rest
      | [] => 0%R
      end
  | CombineMethod.AVERAGE => (sum_scores scores / INR (length scores))%R
  | CombineMethod.WEIGHTED =>
      let sum := foldl (λ sum sw, (sum + sw.1 * sw.2)%R) 0%R scored in
      let weight_sum := foldl (λ sum sw, (sum + sw.2)%R) 0%R scored in
      if dlt 0 weight_sum then (sum / weight_sum)%R else 0%R
  | CombineMethod.VOTING =>
      let votes := length (List.filter (λ s, dle 0.5 s) scores) in
      (INR votes / INR (length scores))%R
  end.
End EnsembleDetector.

(** The class hierarchy under [AnomalyDetector]: the three detectors and the
    ensemble, which holds its children with their weights.  Every child is
    owned by one ensemble, as in [DetectorFactory::create_default]. *)
Module AnomalyDetector.
#[warnings="-register-all"]
Inductive t : Type :=
  | ZScore (d : ZScoreDetector.t)
  | MovingAverage (d : MovingAverageDetector.t)
  | Rate (d : RateDetector.t)
  | Ensemble (method_ : CombineMethod.t) (detectors_ : list (t * R)).

(** [score], dispatched on the dynamic type; the rate detector changes
    when it scores, so the detector is returned too. *)
Fixpoint score (d : t) (event : LogEvent.t) : R * t :=
  match d with
  | ZScore z => (ZScoreDetector.score z event, d)
  | MovingAverage m => (MovingAverageDetector.score m event, d)
  | Rate r => let '(s, r') := RateDetector.score r event in (s, Rate r')
  | Ensemble method detectors =>
      match detectors with
      | [] => (0%R, d)
      | _ =>
          let scored :=
            (fix go (l : list (t * R)) : list (R * t * R) :=
               match l with
               | [] => []
               | (child, weight) :: rest =>
                   let '(s, child') := score child event in
                   (s, child', weight) :: go rest
               end) detectors in
          (EnsembleDetector.combine method (map (λ x, (x.1.1, x.2)) scored),
           Ensemble method (map (λ x, (x.1.2, x.2)) scored))
      end
  end.

Fixpoint train (d : t) (event : LogEvent.t) : t :=
  match d with
  | ZScore z => ZScore (ZScoreDetector.train z event)
  | MovingAverage m => MovingAverage (MovingAverageDetector.train m event)
  | Rate r => Rate (RateDetector.train r event)
  | Ensemble method detectors =>
      Ensemble method
        ((fix go (l : list (t * R)) : list (t * R) :=
            match l with
            | [] => []
            | (child, weight) :: rest => (train child event, weight) :: go rest
            end) detectors)
  end.
End AnomalyDetector.

Module DetectorFactory.
Definition create_z_score (threshold : R) : AnomalyDetector.t :=
  AnomalyDetector.ZScore (ZScoreDetector.create threshold).
(** [std::make_shared<MovingAverageDetector>(window)] leaves the threshold
    at its default, 2.5. *)
Definition create_moving_average (window : nat) : AnomalyDetector.t :=
  AnomalyDetector.MovingAverage (MovingAverageDetector.create window 2.5).
Definition create_rate (window : Z) : AnomalyDetector.t :=
  AnomalyDetector.Rate (RateDetector.create window).
Definition create_default : AnomalyDetector.t :=
  AnomalyDetector.Ensemble CombineMethod.MAX
    [(create_z_score 3, 1%R);
     (create_moving_average 100, 1%R);
     (create_rate 60, 0.8%R)].
Definition create_ensemble : AnomalyDetector.t := create_default.
End DetectorFactory.

(** ** pattern_engine.h, pattern_engine.cpp *)

(** [map.find(key) != map.end()] and the value found, on a [std::map]. *)
Definition has_key {A : Type} (key : string) (l : list (string * A)) : bool :=
  bool_decide (key ∈ l.*1).
Fixpoint find_key {A : Type} (key : string) (l : list (string * A)) : option A :=
  match l with
  | [] => None
  | (k, v) :: rest => if decide (k = key) then Some v else find_key key rest
  end.

#[global] Instance Rle_decision (x y : R) : Decision (x <= y)%R := Rle_dec x y.

Module SequentialPattern.
Record Step : Type := mkStep {
  event_type : string;
  required_entities : list string;
  entity_matcher : option string;
  max_time_since_prev : Z
}.

(** [Step(std::string type, duration_t max_time = std::chrono::seconds(60))] *)
Definition step (type : string) (max_time : Z) : Step :=
  mkStep type [] None max_time.

Record t : Type := mk {
  name_ : string;
  steps_ : list Step;
  match_count_ : Z
}.

Definition create (name : string) (steps : list Step) : t := mk name steps 0.

Definition matched (p : t) : t :=
  mk (name_ p) (steps_ p) (wrap64 (match_count_ p + 1)).

Section Matching.
Context `{StdLib}.

Definition matches_step (event : LogEvent.t) (s : Step) : bool :=
  if negb (bool_decide (LogEvent.event_type_ event = event_type s)) then false
  else if negb (forallb (λ required, has_key required (LogEvent.entities_ event))
                        (required_entities s))
  then false
  else
    match entity_matcher s with
    | Some pattern =>
        existsb (λ kv, regex_search kv.2 pattern) (LogEvent.entities_ event)
    | None => true
    end.

(** The loop of [match] that walks the context backwards.  It returns
    the value of [current_step] when the loop is left; 0 stands for the
    [return 1.0] inside the loop.  [steps_[current_step - 1]] is always
    in range there. *)
Fixpoint walk (steps : list Step) (context_rev : list LogEvent.t)
    (current_step : nat) (current_time : Z) : nat :=
  match context_rev with
  | [] => current_step
  | it :: rest =>
      if decide (current_step = 0)%nat then current_step
      else
        match steps !! (current_step - 1)%nat with
        | None => current_step
        | Some prev_step =>
            let time_diff := current_time - LogEvent.timestamp_ it in
            if decide (max_time_since_prev prev_step < time_diff)
            then current_step
            else if matches_step it prev_step then
              if decide (current_step - 1 = 0)%nat then 0%nat
              else walk steps rest (current_step - 1)%nat
                     (LogEvent.timestamp_ it)
            else walk steps rest current_step current_time
        end
  end.

Definition match_ (p : t) (event : LogEvent.t) (context : list LogEvent.t)
    : R * t :=
  match last (steps_ p) with
  | None => (0%R, p)
  | Some last_step =>
      if negb (matches_step event last_step) then (0%R, p)
      else if decide (length (steps_ p) = 1)%nat then (1%R, matched p)
      else
        let current_step :=
          walk (steps_ p) (rev context) (length (steps_ p) - 1)%nat
               (LogEvent.timestamp_ event) in
        if decide (current_step = 0)%nat then (1%R, matched p)
        else
          let progress :=
            (1 - INR current_step / INR (length (steps_ p)))%R in
          ((progress * 0.5)%R, p)
  end.
End Matching.

(** Sequential patterns don't need training. *)
Definition train (p : t) (event : LogEvent.t) : t := p.

Fixpoint join_steps (first : bool) (steps : list Step) : string :=
  match steps with
  | [] => EmptyString
  | s :: rest =>
      (if first then EmptyString else " â†’ ") +:+ event_type s
      +:+ join_steps false rest
  end.

Definition description (p : t) : string :=
  "Sequential pattern: " +:+ join_steps true (steps_ p)
  +:+ " (matched " +:+ show_Z (match_count_ p) +:+ " times)".
End SequentialPattern.

Module FrequencyType.
Inductive t : Type := BURST | REPEATED | ABSENCE.
End FrequencyType.

Module FrequencyPattern.
Record t : Type := mk {
  name_ : string;
  event_type_ : string;
  type_ : FrequencyType.t;
  threshold_ : nat;
  window_ : Z;
  event_times_ : list Z;
  entity_times_ : gmap string (list Z)
}.

Definition create (name event_type : string) (type : FrequencyType.t)
    (threshold : nat) (window : Z) : t :=
  mk name event_type type threshold window [] ∅.

Definition with_times (p : t) (event_times : list Z)
    (entity_times : gmap string (list Z)) : t :=
  mk (name_ p) (event_type_ p) (type_ p) (threshold_ p) (window_ p)
     event_times entity_times.

(** The loop of the [REPEATED] case: each entity value's deque is looked
    up with [operator[]] and pruned; the first one that holds at least
    [threshold_] times ends the loop. *)
Fixpoint repeated (threshold : nat) (cutoff : Z)
    (entities : list (string * string)) (entity_times : gmap string (list Z))
    : R * gmap string (list Z) :=
  match entities with
  | [] => (0%R, entity_times)
  | (entity_key, entity_value) :: rest =>
      let times := drop_old cutoff (default [] (entity_times !! entity_value)) in
      let entity_times' := <[entity_value := times]> entity_times in
      if decide (threshold ≤ length times)%nat then (1%R, entity_times')
      else repeated threshold cutoff rest entity_times'
  end.

(** [std::min(1.0, 0.7 + excess * 0.3)]; with [threshold_] zero the excess
    is +inf and the minimum 1. *)
Definition burst_score (count threshold : nat) : R :=
  if decide (threshold = 0)%nat then 1%R
  else
    let excess := (INR (count - threshold + 1) / INR threshold)%R in
    std_min 1 (0.7 + excess * 0.3).

Definition match_ (p : t) (event : LogEvent.t) (context : list LogEvent.t)
    : R * t :=
  if negb (bool_decide (LogEvent.event_type_ event = event_type_ p))
  then (0%R, p)
  else
    let now := LogEvent.timestamp_ event in
    let cutoff := now - window_ p in
    let event_times := drop_old cutoff (event_times_ p) in
    let count := length event_times in
    match type_ p with
    | FrequencyType.BURST =>
        (if decide (threshold_ p ≤ count)%nat
         then burst_score count (threshold_ p) else 0%R,
         with_times p event_times (entity_times_ p))
    | FrequencyType.REPEATED =>
        let '(s, entity_times) :=
          repeated (threshold_ p) cutoff (LogEvent.entities_ event)
                   (entity_times_ p) in
        (s, with_times p event_times entity_times)
    | FrequencyType.ABSENCE =>
        (0%R, with_times p event_times (entity_times_ p))
    end.

Definition train (p : t) (event : LogEvent.t) : t :=
  if negb (bool_decide (LogEvent.event_type_ event = event_type_ p)) then p
  else
    with_times p
      (event_times_ p ++ [LogEvent.timestamp_ event])
      (foldl
         (λ entity_times kv,
            <[kv.2 := default [] (entity_times !! kv.2)
                      ++ [LogEvent.timestamp_ event]]> entity_times)
         (entity_times_ p) (LogEvent.entities_ event)).

Definition description (p : t) : string :=
  "Frequency pattern: " +:+ event_type_ p
  +:+ match type_ p with
      | FrequencyType.BURST =>
          " (burst detection, threshold=" +:+ show_nat (threshold_ p) +:+ ")"
      | FrequencyType.REPEATED =>
          " (repeated entity, threshold=" +:+ show_nat (threshold_ p) +:+ ")"
      | FrequencyType.ABSENCE => " (absence detection)"
      end.
End FrequencyPattern.

Module RegexPattern.
Record t : Type := mk {
  name_ : string;
  pattern_ : string;
  field_ : string
}.

Section Matching.
Context `{StdLib}.

Definition match_ (p : t) (event : LogEvent.t) (context : list LogEvent.t)
    : R :=
  let search value := if regex_search value (pattern_ p) then 1%R else 0%R in
  if decide (field_ p = "message") then search (LogEvent.message_ event)
  else if decide (field_ p = "event_type")
  then search (LogEvent.event_type_ event)
  else
    match find_key (field_ p) (LogEvent.entities_ event) with
    | Some value => search value
    | None => 0%R
    end.
End Matching.

Definition description (p : t) : string :=
  "Regex pattern: " +:+ pattern_ p +:+ " in field '" +:+ field_ p +:+ "'".
End RegexPattern.

(** The class hierarchy under [PatternMatcher]. *)
Module PatternMatcher.
Inductive t : Type :=
  | Sequential (p : SequentialPattern.t)
  | Frequency (p : FrequencyPattern.t)
  | Regex (p : RegexPattern.t).

Definition name (p : t) : string :=
  match p with
  | Sequential s => SequentialPattern.name_ s
  | Frequency f => FrequencyPattern.name_ f
  | Regex r => RegexPattern.name_ r
  end.

Definition description (p : t) : string :=
  match p with
  | Sequential s => SequentialPattern.description s
  | Frequency f => FrequencyPattern.description f
  | Regex r => RegexPattern.description r
  end.

Definition train (p : t) (event : LogEvent.t) : t :=
  match p with
  | Sequential s => Sequential (SequentialPattern.train s event)
  | Frequency f => Frequency (FrequencyPattern.train f event)
  | Regex r => Regex r
  end.

Section Matching.
Context `{StdLib}.

Definition match_ (p : t) (event : LogEvent.t) (context : list LogEvent.t)
    : R * t :=
  match p with
  | Sequential s =>
      let '(x, s') := SequentialPattern.match_ s event context in
      (x, Sequential s')
  | Frequency f =>
      let '(x, f') := FrequencyPattern.match_ f event context in
      (x, Frequency f')
  | Regex r => (RegexPattern.match_ r event context, p)
  end.
End Matching.
End PatternMatcher.

Module PatternEngine.
(** [pattern] is the matcher the shared pointer refers to, as it is when
    the match is recorded. *)
Record PatternMatch : Type := mkMatch {
  pattern : PatternMatcher.t;
  score : R;
  description : string
}.

Record t : Type := mk {
  patterns_ : list PatternMatcher.t
}.

Definition create : t := mk [].

Definition register_pattern (e : t) (p : PatternMatcher.t) : t :=
  mk (patterns_ e ++ [p]).

(** The comparison handed to [std::sort] is [a.score > b.score]; the
    order it leaves is the non-strict one below.  [std::sort] does not say
    how it orders matches of equal score: the model sorts by merging. *)
Definition by_score (a b : PatternMatch) : Prop := (score b <= score a)%R.

#[global] Instance by_score_dec (a b : PatternMatch) : Decision (by_score a b) :=
  Rle_dec (score b) (score a).

Section Matching.
Context `{StdLib}.

(** The loop of [match_patterns] over [patterns_]. *)
Fixpoint collect (patterns : list PatternMatcher.t) (event : LogEvent.t)
    (context : list LogEvent.t)
    : list PatternMatch * list PatternMatcher.t :=
  match patterns with
  | [] => ([], [])
  | p :: rest =>
      let '(s, p') := PatternMatcher.match_ p event context in
      let '(matches, rest') := collect rest event context in
      ((if dlt 0.5 s
        then [mkMatch p' s (PatternMatcher.description p')] else [])
         ++ matches,
       p' :: rest')
  end.

Definition match_patterns (e : t) (event : LogEvent.t)
    (context : list LogEvent.t) : list PatternMatch * t :=
  let '(matches, patterns) := collect (patterns_ e) event context in
  (merge_sort by_score matches, mk patterns).
End Matching.

Definition train_all (e : t) (event : LogEvent.t) : t :=
  mk (map (λ p, PatternMatcher.train p event) (patterns_ e)).

Definition patterns (e : t) : list PatternMatcher.t := patterns_ e.
End PatternEngine.

Module PatternFactory.
Definition seconds (n : Z) : Z := n * 1000000000.
Definition minutes (n : Z) : Z := n * 60 * 1000000000.

Definition cascading_failure : PatternMatcher.t :=
  PatternMatcher.Sequential
    (SequentialPattern.create "cascading_failure"
       [SequentialPattern.step "database.slow" (seconds 10);
        SequentialPattern.step "api.timeout" (seconds 5);
        SequentialPattern.step "user.error" (seconds 3)]).

Definition auth_failure_pattern : PatternMatcher.t :=
  PatternMatcher.Frequency
    (FrequencyPattern.create "auth_failure_burst" "auth.failed"
       FrequencyType.REPEATED 5 (seconds 60)).

Definition retry_storm : PatternMatcher.t :=
  PatternMatcher.Frequency
    (FrequencyPattern.create "retry_storm" "api.retry"
       FrequencyType.BURST 10 (seconds 30)).

Definition memory_leak_pattern : PatternMatcher.t :=
  PatternMatcher.Sequential
    (SequentialPattern.create "memory_leak"
       [SequentialPattern.step "memory.high" (minutes 5);
        SequentialPattern.step "gc.frequent" (minutes 2);
        SequentialPattern.step "oom.warning" (minutes 1)]).

Definition exception_pattern : PatternMatcher.t :=
  PatternMatcher.Regex
    (RegexPattern.mk "exception_detected"
       "Exception|Error|Traceback|at \w+\.\w+\(" "message").
End PatternFactory.

Definition register_builtin_patterns (e : PatternEngine.t) : PatternEngine.t :=
  foldl PatternEngine.register_pattern e
    [PatternFactory.cascading_failure; PatternFactory.auth_failure_pattern;
     PatternFactory.retry_storm; PatternFactory.exception_pattern].

(** ** correlation_engine.h, correlation_engine.cpp *)

Module EventCorrelator.
Record EventRecord : Type := mkRecord {
  event : LogEvent.t;
  correlation_indices : list nat
}.

Record t : Type := mk {
  events_ : gmap Z EventRecord;
  correlations_ : list Correlation.t;
  trace_id_index_ : gmap string (list Z);
  entity_index_ : gmap string (list Z);
  service_index_ : gmap string (list Z)
}.

Definition create : t := mk ∅ [] ∅ ∅ ∅.

Definition correlate_by_trace_id (c : t) (event : LogEvent.t)
    : option Correlation.t :=
  if decide (LogEvent.trace_id_ event = EmptyString) then None
  else
    match trace_id_index_ c !! LogEvent.trace_id_ event with
    | None | Some [] => None
    | Some ids =>
        Some (Correlation.mk
                (ids ++ [LogEvent.event_id_ event])
                "trace_id" 1
                ("Events share trace ID: " +:+ LogEvent.trace_id_ event)
                (LogEvent.timestamp_ event) (LogEvent.timestamp_ event)
                {["trace_id" := LogEvent.trace_id_ event]})
    end.

(** The two nested loops that fill [related_events]. *)
Definition related_events (c : t) (event : LogEvent.t) : gset Z :=
  foldl
    (λ (related : gset Z) (kv : string * string),
       match entity_index_ c !! kv.2 with
       | Some ids =>
           foldl (λ (related' : gset Z) (id : Z),
                    if decide (id = LogEvent.event_id_ event) then related'
                    else {[id]} ∪ related')
                 related ids
       | None => related
       end)
    ∅ (LogEvent.entities_ event).

Definition correlate_by_entities (c : t) (event : LogEvent.t)
    : option Correlation.t :=
  let related := related_events c event in
  if decide (elements related = []) then None
  else
    Some (Correlation.mk
            (elements related ++ [LogEvent.event_id_ event])
            "entity" 0.8 "Events share common entities"
            (LogEvent.timestamp_ event) (LogEvent.timestamp_ event) ∅).

Definition minute : Z := 60 * 1000000000.

Definition correlate_by_service (c : t) (ev : LogEvent.t)
    : option Correlation.t :=
  if decide (LogEvent.service_name_ ev = EmptyString) then None
  else
    match service_index_ c !! LogEvent.service_name_ ev with
    | None | Some [] => None
    | Some ids =>
        let cutoff := LogEvent.timestamp_ ev - minute in
        let recent_events :=
          List.filter
            (λ id, match events_ c !! id with
                   | Some record =>
                       bool_decide (cutoff ≤ LogEvent.timestamp_ (event record))
                   | None => false
                   end) ids in
        match recent_events with
        | [] => None
        | _ =>
            Some (Correlation.mk
                    (recent_events ++ [LogEvent.event_id_ ev])
                    "service" 0.6
                    ("Events from same service: " +:+ LogEvent.service_name_ ev)
                    (LogEvent.timestamp_ ev) (LogEvent.timestamp_ ev)
                    {["service" := LogEvent.service_name_ ev]})
        end
    end.

(** [duration_cast<seconds>(abs(a - b))] truncates to whole seconds. *)
Definition whole_seconds_apart (a b : Z) : Z :=
  Z.quot (Z.abs (a - b)) 1000000000.

Definition correlate_by_time (c : t) (ev : LogEvent.t) : option Correlation.t :=
  let nearby_events :=
    (List.filter
       (λ entry : Z * EventRecord,
          bool_decide (whole_seconds_apart (LogEvent.timestamp_ ev)
                         (LogEvent.timestamp_ (event entry.2)) ≤ 5)
          && negb (bool_decide (entry.1 = LogEvent.event_id_ ev)))
       (map_to_list (events_ c))).*1 in
  if decide (length nearby_events < 2)%nat then None
  else
    Some (Correlation.mk
            (nearby_events ++ [LogEvent.event_id_ ev])
            "temporal" 0.4 "Events occurred within 5 seconds"
            (LogEvent.timestamp_ ev) (LogEvent.timestamp_ ev) ∅).

Definition push_index (index : gmap string (list Z)) (key : string) (id : Z)
    : gmap string (list Z) :=
  <[key := default [] (index !! key) ++ [id]]> index.

Definition correlate (c : t) (ev : LogEvent.t) : list Correlation.t * t :=
  let found_correlations :=
    option_list (correlate_by_trace_id c ev)
    ++ option_list (correlate_by_entities c ev)
    ++ option_list (correlate_by_service c ev)
    ++ option_list (correlate_by_time c ev) in
  let id := LogEvent.event_id_ ev in
  (found_correlations,
   mk (<[id := mkRecord ev []]> (events_ c))
      (correlations_ c ++ found_correlations)
      (if decide (LogEvent.trace_id_ ev = EmptyString) then trace_id_index_ c
       else push_index (trace_id_index_ c) (LogEvent.trace_id_ ev) id)
      (foldl (λ index kv, push_index index kv.2 id)
             (entity_index_ c) (LogEvent.entities_ ev))
      (if decide (LogEvent.service_name_ ev = EmptyString) then service_index_ c
       else push_index (service_index_ c) (LogEvent.service_name_ ev) id)).

Definition get_correlations_for_event (c : t) (event_id : Z)
    : list Correlation.t :=
  List.filter (λ corr, bool_decide (event_id ∈ Correlation.event_ids corr))
              (correlations_ c).

Definition get_active_correlations (c : t) : list Correlation.t :=
  correlations_ c.

(** One turn of the loop of [cleanup] that rebuilds the indices. *)
Definition reindex (c : t) (entry : Z * EventRecord) : t :=
  let id := entry.1 in
  let ev := event entry.2 in
  mk (events_ c) (correlations_ c)
     (if decide (LogEvent.trace_id_ ev = EmptyString) then trace_id_index_ c
      else push_index (trace_id_index_ c) (LogEvent.trace_id_ ev) id)
     (foldl (λ index kv, push_index index kv.2 id)
            (entity_index_ c) (LogEvent.entities_ ev))
     (if decide (LogEvent.service_name_ ev = EmptyString) then service_index_ c
      else push_index (service_index_ c) (LogEvent.service_name_ ev) id).

(** [cleanup(max_age)]; [now] is the clock read.  Events and correlations
    older than the cutoff go, and the indices are rebuilt from the events
    that remain, in the order in which the map hands them out. *)
Definition cleanup (now max_age : Z) (c : t) : t :=
  let cutoff := now - max_age in
  let events :=
    filter (λ entry : Z * EventRecord,
              ¬ LogEvent.timestamp_ (event entry.2) < cutoff) (events_ c) in
  let correlations :=
    List.filter
      (λ corr, negb (bool_decide (Correlation.last_event_time corr < cutoff)))
      (correlations_ c) in
  foldl reindex (mk events correlations ∅ ∅ ∅) (map_to_list events).

(** [cleanup()] with its default argument, [std::chrono::hours(1)]. *)
Definition hour : Z := 3600 * 1000000000.
End EventCorrelator.

Module CausalityType.
Inductive t : Type := CAUSES | PREVENTS | ENABLES | PRECEDES.

#[global] Instance eq_dec : EqDecision t.
Proof. solve_decision. Defined.
End CausalityType.

Module CausalityAnalyzer.
Record CausalRelationship : Type := mkRel {
  cause_event_type : string;
  effect_event_type : string;
  type : CausalityType.t;
  strength : R;
  typical_delay : Z;
  observed_count : Z
}.

(** [relationships_[pair]] inserts a value-initialised relationship when
    the pair is not there yet: every member is zero. *)
Definition fresh : CausalRelationship :=
  mkRel EmptyString EmptyString CausalityType.CAUSES 0 0 0.

Record t : Type := mk {
  relationships_ : gmap (string * string) CausalRelationship
}.

Definition create : t := mk ∅.

Definition seconds (n : Z) : Z := n * 1000000000.

(** [(rel.typical_delay * (rel.observed_count - 1) + delay) /
    rel.observed_count]: the product of a signed 64-bit duration and a
    [uint64_t] is an unsigned 64-bit duration, so the sum and the quotient
    are unsigned too; the assignment converts the result back to
    [int64_t].  [count] is the count after the increment. *)
Definition running_mean (typical_delay count delay : Z) : Z :=
  to_int64
    (wrap64 (wrap64 (wrap64 typical_delay * wrap64 (count - 1)) + wrap64 delay)
     `div` count).

(** The body of the loop of [learn] for a prior event inside the window. *)
Definition observe (rel : CausalRelationship) (prev_event event : LogEvent.t)
    : CausalRelationship :=
  let delay := LogEvent.timestamp_ event - LogEvent.timestamp_ prev_event in
  let rel1 :=
    if decide (observed_count rel = 0)
    then mkRel (LogEvent.event_type_ prev_event) (LogEvent.event_type_ event)
               CausalityType.PRECEDES 0.1 delay (observed_count rel)
    else rel in
  let count := wrap64 (observed_count rel1 + 1) in
  mkRel (cause_event_type rel1) (effect_event_type rel1) (type rel1)
        (std_min 1 (strength rel1 + 0.05))
        (running_mean (typical_delay rel1) count delay)
        count.

Definition learn (a : t) (event : LogEvent.t) (context : list LogEvent.t) : t :=
  let cutoff := LogEvent.timestamp_ event - seconds 60 in
  foldl
    (λ a' prev_event,
       if decide (LogEvent.timestamp_ prev_event < cutoff) then a'
       else
         let pair :=
           (LogEvent.event_type_ prev_event, LogEvent.event_type_ event) in
         let rel := default fresh (relationships_ a' !! pair) in
         mk (<[pair := observe rel prev_event event]> (relationships_ a')))
    a context.

Definition analyze (a : t) (event : LogEvent.t) (context : list LogEvent.t)
    : list CausalRelationship :=
  omap (λ prev_event,
          relationships_ a
            !! (LogEvent.event_type_ prev_event, LogEvent.event_type_ event))
       context.

Definition get_known_relationships (a : t) : list CausalRelationship :=
  (map_to_list (relationships_ a)).*2.

Definition register_relationship (a : t) (rel : CausalRelationship) : t :=
  mk (<[(cause_event_type rel, effect_event_type rel) := rel]>
        (relationships_ a)).
End CausalityAnalyzer.

Module RootCauseAnalyzer.
Record Evidence : Type := mkEvidence {
  type : string;
  description : string;
  weight : R
}.

Record RootCause : Type := mkRootCause {
  root_event_id : Z;
  root_event_type : string;
  affected_event_ids : list Z;
  confidence : R;
  explanation : string;
  evidence : list Evidence
}.

(** [root_event_type] is never assigned and stays empty. *)
Definition find_root_cause (correlation : Correlation.t) : option RootCause :=
  match Correlation.event_ids correlation with
  | [] => None
  | front :: _ =>
      Some (mkRootCause front EmptyString (Correlation.event_ids correlation)
              (Correlation.confidence correlation * 0.7)
              "Earliest event in correlation chain"
              [mkEvidence "temporal" "First event in time sequence" 0.6;
               mkEvidence "correlation" (Correlation.reason correlation)
                 (Correlation.confidence correlation)])
  end.

(** [*std::max_element(first, last, comp)] with [comp(a, b)] given by
    [a.confidence < b.confidence]: the first of the correlations of
    greatest confidence. *)
Fixpoint max_element (largest : Correlation.t) (rest : list Correlation.t)
    : Correlation.t :=
  match rest with
  | [] => largest
  | next :: rest' =>
      max_element
        (if dlt (Correlation.confidence largest) (Correlation.confidence next)
         then next else largest) rest'
  end.

(** The analyzer reads the correlator it shares with the engine; the
    context is not used. *)
Definition find_root_cause_for_event (correlator : EventCorrelator.t)
    (event_id : Z) (context : list LogEvent.t) : option RootCause :=
  match EventCorrelator.get_correlations_for_event correlator event_id with
  | [] => None
  | first :: rest => find_root_cause (max_element first rest)
  end.
End RootCauseAnalyzer.

Module CorrelationEngine.
Record t : Type := mk {
  correlator_ : EventCorrelator.t;
  causality_ : CausalityAnalyzer.t
}.

Definition create : t := mk EventCorrelator.create CausalityAnalyzer.create.

(** [process] drops what [correlate] and [analyze] return. *)
Definition process (e : t) (event : LogEvent.t) (context : list LogEvent.t)
    : t :=
  mk (EventCorrelator.correlate (correlator_ e) event).2
     (CausalityAnalyzer.learn (causality_ e) event context).

Definition milliseconds (n : Z) : Z := n * 1000000.

Definition register_builtin_relationships (e : t) : t :=
  mk (correlator_ e)
     (foldl CausalityAnalyzer.register_relationship (causality_ e)
        [CausalityAnalyzer.mkRel "database.slow" "api.timeout"
           CausalityType.CAUSES 0.9 (milliseconds 500) 100;
         CausalityAnalyzer.mkRel "api.timeout" "user.error"
           CausalityType.CAUSES 0.8 (milliseconds 100) 100;
         CausalityAnalyzer.mkRel "circuit_breaker.open" "api.call"
           CausalityType.PREVENTS 1 (milliseconds 0) 100]).
End CorrelationEngine.

(** ** logger.h, logger.cpp *)

Module EventQueue.
Record t : Type := mk {
  queue_ : list LogEvent.t;
  max_size_ : nat;
  shutdown_ : bool
}.

Definition create (max_size : nat) : t := mk [] max_size false.

(** [push] takes the lock, looks at the size and returns at once. *)
Definition push (q : t) (event : LogEvent.t) : bool * t :=
  if decide (max_size_ q ≤ length (queue_ q))%nat then (false, q)
  else (true, mk (queue_ q ++ [event]) (max_size_ q) (shutdown_ q)).

(** [pop] once its wait is over: a worker is woken when the queue is not
    empty or when the queue is shut down. *)
Definition pop (q : t) : option LogEvent.t * t :=
  match queue_ q with
  | front :: rest => (Some front, mk rest (max_size_ q) (shutdown_ q))
  | [] => (None, q)
  end.

Definition shutdown (q : t) : t := mk (queue_ q) (max_size_ q) true.

Definition size (q : t) : nat := length (queue_ q).
End EventQueue.

Module Logger.
Record JiraConfig : Type := mkJira {
  jira_url : string;
  jira_username : string;
  jira_api_token : string;
  jira_project_key : string;
  jira_enabled : bool
}.

Record PagerDutyConfig : Type := mkPagerDuty {
  pagerduty_integration_key : string;
  pagerduty_api_token : string;
  pagerduty_enabled : bool
}.

Record SlackConfig : Type := mkSlack {
  slack_webhook_url : string;
  slack_channel : string;
  slack_enabled : bool
}.

Record Config : Type := mkConfig {
  service_name : string;
  environment : string;
  service_instance : string;
  sampling_rate : R;
  sample_anomalies_always : bool;
  async_queue_size : nat;
  worker_threads : nat;
  enable_anomaly_detection : bool;
  enable_pattern_matching : bool;
  enable_correlation : bool;
  enable_prediction : bool;
  enable_auto_incidents : bool;
  incident_anomaly_threshold : R;
  incident_pattern_threshold : nat;
  incident_correlation_threshold : nat;
  storage_path : string;
  max_storage_mb : nat;
  log_file_path : string;
  log_to_console : bool;
  jira : JiraConfig;
  pagerduty : PagerDutyConfig;
  slack : SlackConfig
}.

(** The default member initialisers of [Config]. *)
Definition default_config : Config :=
  mkConfig EmptyString "production" EmptyString 1 true (Z.to_nat 8192) 2
    true true true false false 0.8 1 3 "./agentlog_data" (Z.to_nat 1024) EmptyString true
    (mkJira EmptyString EmptyString EmptyString EmptyString false)
    (mkPagerDuty EmptyString EmptyString false)
    (mkSlack EmptyString EmptyString false).

Record Stats : Type := mkStats {
  events_total : Z;
  events_dropped : Z;
  anomalies_detected : Z;
  patterns_matched : Z;
  correlations_found : Z;
  incidents_created : Z
}.

(** The data members of [Logger], with the file-level [g_event_queue].
    [log_file_] holds the lines written to the file when it is open, and
    [console_] the lines written to [std::cout] by [process_event]. *)
Record t : Type := mk {
  config_ : Config;
  initialized_ : bool;
  shutdown_requested_ : bool;
  log_file_ : option (list string);
  console_ : list string;
  event_callbacks_ : list (Callback LogEvent.t);
  anomaly_callbacks_ : list (Callback LogEvent.t);
  stats_ : Stats;
  anomaly_detector_ : option AnomalyDetector.t;
  pattern_engine_ : option PatternEngine.t;
  correlation_engine_ : option CorrelationEngine.t;
  incident_manager_ : option IncidentManager.t;
  event_history_ : list LogEvent.t;
  max_history_size_ : nat;
  g_event_queue : option EventQueue.t
}.

(** The logger before [init]. *)
Definition create : t :=
  mk default_config false false None [] [] []
     (mkStats 0 0 0 0 0 0) None None None None [] (Z.to_nat 1000) None.

Definition with_stats (l : t) (stats : Stats) : t :=
  mk (config_ l) (initialized_ l) (shutdown_requested_ l) (log_file_ l)
     (console_ l) (event_callbacks_ l) (anomaly_callbacks_ l) stats
     (anomaly_detector_ l) (pattern_engine_ l) (correlation_engine_ l)
     (incident_manager_ l) (event_history_ l) (max_history_size_ l)
     (g_event_queue l).

Definition with_queue (l : t) (q : option EventQueue.t) : t :=
  mk (config_ l) (initialized_ l) (shutdown_requested_ l) (log_file_ l)
     (console_ l) (event_callbacks_ l) (anomaly_callbacks_ l) (stats_ l)
     (anomaly_detector_ l) (pattern_engine_ l) (correlation_engine_ l)
     (incident_manager_ l) (event_history_ l) (max_history_size_ l) q.

Definition with_detector (l : t) (d : option AnomalyDetector.t) : t :=
  mk (config_ l) (initialized_ l) (shutdown_requested_ l) (log_file_ l)
     (console_ l) (event_callbacks_ l) (anomaly_callbacks_ l) (stats_ l)
     d (pattern_engine_ l) (correlation_engine_ l)
     (incident_manager_ l) (event_history_ l) (max_history_size_ l)
     (g_event_queue l).

Definition with_patterns (l : t) (e : option PatternEngine.t) : t :=
  mk (config_ l) (initialized_ l) (shutdown_requested_ l) (log_file_ l)
     (console_ l) (event_callbacks_ l) (anomaly_callbacks_ l) (stats_ l)
     (anomaly_detector_ l) e (correlation_engine_ l)
     (incident_manager_ l) (event_history_ l) (max_history_size_ l)
     (g_event_queue l).

Definition with_correlation (l : t) (e : option CorrelationEngine.t) : t :=
  mk (config_ l) (initialized_ l) (shutdown_requested_ l) (log_file_ l)
     (console_ l) (event_callbacks_ l) (anomaly_callbacks_ l) (stats_ l)
     (anomaly_detector_ l) (pattern_engine_ l) e
     (incident_manager_ l) (event_history_ l) (max_history_size_ l)
     (g_event_queue l).

Definition with_incidents (l : t) (m : option IncidentManager.t) : t :=
  mk (config_ l) (initialized_ l) (shutdown_requested_ l) (log_file_ l)
     (console_ l) (event_callbacks_ l) (anomaly_callbacks_ l) (stats_ l)
     (anomaly_detector_ l) (pattern_engine_ l) (correlation_engine_ l)
     m (event_history_ l) (max_history_size_ l) (g_event_queue l).

Definition with_history (l : t) (history : list LogEvent.t) : t :=
  mk (config_ l) (initialized_ l) (shutdown_requested_ l) (log_file_ l)
     (console_ l) (event_callbacks_ l) (anomaly_callbacks_ l) (stats_ l)
     (anomaly_detector_ l) (pattern_engine_ l) (correlation_engine_ l)
     (incident_manager_ l) history (max_history_size_ l) (g_event_queue l).

Definition with_output (l : t) (log_file : option (list string))
    (console : list string) : t :=
  mk (config_ l) (initialized_ l) (shutdown_requested_ l) log_file
     console (event_callbacks_ l) (anomaly_callbacks_ l) (stats_ l)
     (anomaly_detector_ l) (pattern_engine_ l) (correlation_engine_ l)
     (incident_manager_ l) (event_history_ l) (max_history_size_ l)
     (g_event_queue l).

Definition on_event (l : t) (callback : Callback LogEvent.t) : t :=
  mk (config_ l) (initialized_ l) (shutdown_requested_ l) (log_file_ l)
     (console_ l) (event_callbacks_ l ++ [callback]) (anomaly_callbacks_ l)
     (stats_ l) (anomaly_detector_ l) (pattern_engine_ l)
     (correlation_engine_ l) (incident_manager_ l) (event_history_ l)
     (max_history_size_ l) (g_event_queue l).

Definition on_anomaly (l : t) (callback : Callback LogEvent.t) : t :=
  mk (config_ l) (initialized_ l) (shutdown_requested_ l) (log_file_ l)
     (console_ l) (event_callbacks_ l) (anomaly_callbacks_ l ++ [callback])
     (stats_ l) (anomaly_detector_ l) (pattern_engine_ l)
     (correlation_engine_ l) (incident_manager_ l) (event_history_ l)
     (max_history_size_ l) (g_event_queue l).

Definition get_stats (l : t) : Stats := stats_ l.

(** The incident manager [init] builds.  [jira_i], [pagerduty_i] and
    [slack_i] are the three integration objects it may register; the
    listener it adds prints the incident and returns. *)
Definition init_incident_manager (config : Config)
    (jira_i pagerduty_i slack_i : IncidentIntegration.t) : IncidentManager.t :=
  let d := IncidentManager.default_config in
  let incident_config :=
    IncidentManager.mkConfig
      (incident_anomaly_threshold config)
      (incident_pattern_threshold config)
      (incident_correlation_threshold config)
      (IncidentManager.enable_auto_resolution d)
      (IncidentManager.resolution_timeout d)
      (IncidentManager.enable_deduplication d)
      (IncidentManager.deduplication_window d)
      (IncidentManager.critical_threshold d)
      (IncidentManager.high_threshold d)
      (IncidentManager.medium_threshold d) in
  let m0 := IncidentManager.create incident_config in
  let m1 :=
    if jira_enabled (jira config)
       && negb (bool_decide (jira_url (jira config) = EmptyString))
    then IncidentManager.register_integration m0 jira_i else m0 in
  let m2 :=
    if pagerduty_enabled (pagerduty config)
       && negb (bool_decide
                  (pagerduty_integration_key (pagerduty config) = EmptyString))
    then IncidentManager.register_integration m1 pagerduty_i else m1 in
  let m3 :=
    if slack_enabled (slack config)
       && negb (bool_decide (slack_webhook_url (slack config) = EmptyString))
    then IncidentManager.register_integration m2 slack_i else m2 in
  IncidentManager.on_incident_created m3 (λ _, Ok tt).

(** [init]; [file_opens] tells whether the log file could be opened.  The
    worker threads it starts are the callers of [process_event]. *)
Definition init (l : t) (config : Config) (file_opens : bool)
    (jira_i pagerduty_i slack_i : IncidentIntegration.t) : t :=
  if initialized_ l then l
  else
    mk config true false
       (if negb (bool_decide (log_file_path config = EmptyString)) && file_opens
        then Some [] else log_file_ l)
       (console_ l) (event_callbacks_ l) (anomaly_callbacks_ l) (stats_ l)
       (if enable_anomaly_detection config
        then Some DetectorFactory.create_default else anomaly_detector_ l)
       (if enable_pattern_matching config
        then Some (register_builtin_patterns PatternEngine.create)
        else pattern_engine_ l)
       (if enable_correlation config
        then Some (CorrelationEngine.register_builtin_relationships
                     CorrelationEngine.create)
        else correlation_engine_ l)
       (if enable_auto_incidents config
        then Some (init_incident_manager config jira_i pagerduty_i slack_i)
        else incident_manager_ l)
       (event_history_ l) (max_history_size_ l)
       (Some (EventQueue.create (async_queue_size config))).

(** [should_sample]; [draw] is the number [dis(gen)] returns, which is
    read only when the sampling rate is below 1. *)
Definition should_sample (l : t) (event : LogEvent.t) (draw : R) : bool :=
  if sample_anomalies_always (config_ l)
     && (LogEvent.is_anomalous event
         || bool_decide (Severity.value Severity.ERROR
                         ≤ Severity.value (LogEvent.severity_ event)))
  then true
  else if dle 1 (sampling_rate (config_ l)) then true
  else dlt draw (sampling_rate (config_ l)).

Definition emit (l : t) (event : LogEvent.t) (draw : R) : t :=
  if negb (initialized_ l) then l
  else if negb (should_sample l event draw) then l
  else
    let stats := stats_ l in
    let l1 :=
      with_stats l
        (mkStats (wrap64 (events_total stats + 1)) (events_dropped stats)
                 (anomalies_detected stats) (patterns_matched stats)
                 (correlations_found stats) (incidents_created stats)) in
    match g_event_queue l1 with
    | None => l1
    | Some q =>
        let '(pushed, q') := EventQueue.push q event in
        let l2 := with_queue l1 (Some q') in
        if pushed then l2
        else
          let stats := stats_ l2 in
          with_stats l2
            (mkStats (events_total stats) (wrap64 (events_dropped stats + 1))
                     (anomalies_detected stats) (patterns_matched stats)
                     (correlations_found stats) (incidents_created stats))
    end.

Section Pipeline.
Context `{StdLib}.

(** Apply anomaly detection: the processed copy of the event, and how
    the anomaly listeners ended. *)
Definition anomaly_stage (l : t) (event : LogEvent.t)
    : t * LogEvent.t * outcome unit :=
  match anomaly_detector_ l, LogEvent.metrics_ event with
  | Some detector, _ :: _ =>
      let '(score, detector1) := AnomalyDetector.score detector event in
      let processed_event := LogEvent.anomaly_score event score in
      let detector2 := AnomalyDetector.train detector1 processed_event in
      let l1 := with_detector l (Some detector2) in
      if dle 0.7 score then
        let stats := stats_ l1 in
        let l2 :=
          with_stats l1
            (mkStats (events_total stats) (events_dropped stats)
                     (wrap64 (anomalies_detected stats + 1))
                     (patterns_matched stats) (correlations_found stats)
                     (incidents_created stats)) in
        (l2, processed_event,
         (invoke_all (anomaly_callbacks_ l2) processed_event).2)
      else (l1, processed_event, Ok tt)
  | _, _ => (l, event, Ok tt)
  end.

(** Pattern matching: the names of the matched patterns. *)
Definition pattern_stage (l : t) (processed_event : LogEvent.t)
    : t * list string :=
  match pattern_engine_ l with
  | Some engine =>
      let '(matches, engine1) :=
        PatternEngine.match_patterns engine processed_event
          (event_history_ l) in
      let stats := stats_ l in
      let l1 :=
        match matches with
        | [] => l
        | _ =>
            with_stats l
              (mkStats (events_total stats) (events_dropped stats)
                       (anomalies_detected stats)
                       (wrap64 (patterns_matched stats
                                + Z.of_nat (length matches)))
                       (correlations_found stats) (incidents_created stats))
        end in
      (with_patterns l1
         (Some (PatternEngine.train_all engine1 processed_event)),
       map (λ m, PatternMatcher.name (PatternEngine.pattern m)) matches)
  | None => (l, [])
  end.

(** Correlation analysis: [process] correlates and learns, then the
    worker correlates the event once more. *)
Definition correlation_stage (l : t) (processed_event : LogEvent.t)
    : t * list Correlation.t :=
  match correlation_engine_ l with
  | Some engine =>
      let engine1 :=
        CorrelationEngine.process engine processed_event (event_history_ l) in
      let '(correlations, correlator2) :=
        EventCorrelator.correlate (CorrelationEngine.correlator_ engine1)
          processed_event in
      let stats := stats_ l in
      let l1 :=
        match correlations with
        | [] => l
        | _ =>
            with_stats l
              (mkStats (events_total stats) (events_dropped stats)
                       (anomalies_detected stats) (patterns_matched stats)
                       (wrap64 (correlations_found stats
                                + Z.of_nat (length correlations)))
                       (incidents_created stats))
        end in
      (with_correlation l1
         (Some (CorrelationEngine.mk correlator2
                  (CorrelationEngine.causality_ engine1))),
       correlations)
  | None => (l, [])
  end.

(** Incident management. *)
Definition incident_stage (now : Z) (l : t) (processed_event : LogEvent.t)
    (correlations : list Correlation.t) (matched_patterns : list string)
    : t * outcome unit :=
  match incident_manager_ l with
  | Some manager =>
      let '(manager1, r) :=
        IncidentManager.evaluate_event now manager processed_event
          correlations matched_patterns in
      let l1 := with_incidents l (Some manager1) in
      match r with
      | Throw e => (l1, Throw e)
      | Ok None => (l1, Ok tt)
      | Ok (Some _) =>
          let stats := stats_ l1 in
          (with_stats l1
             (mkStats (events_total stats) (events_dropped stats)
                      (anomalies_detected stats) (patterns_matched stats)
                      (correlations_found stats)
                      (wrap64 (incidents_created stats + 1))),
           Ok tt)
      end
  | None => (l, Ok tt)
  end.

(** Add to event history. *)
Definition history_stage (l : t) (processed_event : LogEvent.t) : t :=
  let history := event_history_ l ++ [processed_event] in
  with_history l
    (if decide (max_history_size_ l < length history)%nat
     then tail history else history).

(** Write to file if configured, print to console if enabled. *)
Definition sink_stage (l : t) (processed_event : LogEvent.t)
    (matched_patterns : list string) : t :=
  let log_file :=
    match log_file_ l with
    | Some lines =>
        Some (lines
              ++ [match matched_patterns with
                  | front :: _ => "[PATTERN:" +:+ front +:+ "] "
                  | [] => EmptyString
                  end +:+ LogEvent.to_string processed_event])
    | None => None
    end in
  let console :=
    if log_to_console (config_ l) then
      console_ l
      ++ match matched_patterns with
         | front :: _ => ["🔍 PATTERN: " +:+ front +:+ " - "]
         | [] => []
         end
      ++ (if LogEvent.is_anomalous processed_event
          then ["🔴 " +:+ LogEvent.to_string processed_event]
          else if bool_decide (Severity.value Severity.WARNING
                               ≤ Severity.value
                                   (LogEvent.severity_ processed_event))
          then ["🟡 " +:+ LogEvent.to_string processed_event]
          else [])
    else console_ l in
  with_output l log_file console.

(** [process_event], stage after stage.  An exception that leaves a
    listener leaves [process_event] at that point. *)
Definition process_event (now : Z) (l : t) (event : LogEvent.t)
    : t * outcome unit :=
  let '(l1, processed_event, r1) := anomaly_stage l event in
  match r1 with
  | Throw e => (l1, Throw e)
  | Ok _ =>
      let '(l2, matched_patterns) := pattern_stage l1 processed_event in
      let '(l3, correlations) := correlation_stage l2 processed_event in
      let '(l4, r4) :=
        incident_stage now l3 processed_event correlations matched_patterns in
      match r4 with
      | Throw e => (l4, Throw e)
      | Ok _ =>
          let l5 := history_stage l4 processed_event in
          match (invoke_all (event_callbacks_ l5) processed_event).2 with
          | Throw e => (l5, Throw e)
          | Ok _ =>
              (sink_stage l5 processed_event matched_patterns, Ok tt)
          end
      end
  end.

(** One turn of the loop of [async_worker]: take the event at the front
    of the queue, if there is one, and process it. *)
Definition worker_step (now : Z) (l : t) : t * outcome unit :=
  match g_event_queue l with
  | Some q =>
      match EventQueue.pop q with
      | (Some event, q') => process_event now (with_queue l (Some q')) event
      | (None, _) => (l, Ok tt)
      end
  | None => (l, Ok tt)
  end.
End Pipeline.
End Logger.

(** * Runs and inputs the statements refer to *)

(** A burst of emissions, each with the draw of its sampling decision. *)
Definition emit_all (l : Logger.t) (emissions : list (LogEvent.t * R)) : Logger.t :=
  foldl (λ l' er, Logger.emit l' er.1 er.2) l emissions.

Module Sample.
(** A stand-in for the C++ library: the text printed for a double, and a
    regular-expression search that finds nothing. *)
#[local] Instance stdlib : StdLib := {|
  show_double := λ _, "0";
  regex_search := λ _ _, false;
  put_time := λ _, "1970-01-01 00:00:00"
|}.

(** An integration that is switched off. *)
Definition integration : IncidentIntegration.t :=
IncidentIntegration.mk (λ _, Ok "DISABLED") (λ _ _, Ok tt) (λ _ _, Ok tt)
  "none".

(** [LogEvent(event_type)] with the given id and time. *)
Definition event (event_type : string) (id timestamp : Z) : LogEvent.t :=
LogEvent.mk event_type timestamp Severity.INFO EmptyString [] [] [] [] []
  EmptyString EmptyString EmptyString EmptyString 0 [] None id.

(** Scenario "queue backpressure": a queue of four and no worker. *)
Definition burst_config : Logger.Config :=
let d := Logger.default_config in
Logger.mkConfig "svc" (Logger.environment d) (Logger.service_instance d)
  (Logger.sampling_rate d) (Logger.sample_anomalies_always d) 4 0
  (Logger.enable_anomaly_detection d) (Logger.enable_pattern_matching d)
  (Logger.enable_correlation d) (Logger.enable_prediction d)
  (Logger.enable_auto_incidents d) (Logger.incident_anomaly_threshold d)
  (Logger.incident_pattern_threshold d)
  (Logger.incident_correlation_threshold d) (Logger.storage_path d)
  (Logger.max_storage_mb d) (Logger.log_file_path d)
  (Logger.log_to_console d) (Logger.jira d) (Logger.pagerduty d)
  (Logger.slack d).

Definition burst_logger : Logger.t :=
Logger.init Logger.create burst_config false integration integration
  integration.

Definition burst : list (LogEvent.t * R) :=
map (λ i, (event "log.message" i (1000 * i), 0%R)) [0; 1; 2; 3; 4; 5; 6; 7; 8; 9].
End Sample.

(** What [find_duplicate] tests on a stored incident, in words of the two
    incidents alone. *)
Definition similar_incidents (window : Z) (incident existing : Incident.t) : Prop :=
  Incident.created_at incident - window ≤ Incident.created_at existing
  ∧ Incident.status existing ≠ IncidentStatus.RESOLVED
  ∧ Incident.status existing ≠ IncidentStatus.CLOSED
  ∧ ((Incident.title existing = Incident.title incident
      ∧ Incident.severity existing = Incident.severity incident)
     ∨ (length (Incident.event_ids incident)
        < 2 * length (filter (λ id, id ∈ Incident.event_ids existing)
                             (Incident.event_ids incident)))%nat).

Module Dedup.
(** Scenario "dedup window": two events that match the same pattern are
    evaluated one second apart by a manager with the default configuration. *)
Definition patterns : list string := ["cascading_failure"].
Definition manager0 : IncidentManager.t :=
  IncidentManager.create IncidentManager.default_config.
Definition first_event : LogEvent.t := Sample.event "user.error" 7 1000000000.
Definition second_event : LogEvent.t := Sample.event "user.error" 8 2000000000.
Definition manager1 : IncidentManager.t :=
  (IncidentManager.evaluate_event (H := Sample.stdlib) 1000000000 manager0
     first_event [] patterns).1.
End Dedup.

(** The invariant the incident record is meant to keep: [resolved_at] is set
    exactly when the status is RESOLVED, and is not before [created_at]. *)
Definition resolved_consistent (i : Incident.t) : Prop :=
  (is_Some (Incident.resolved_at i) ↔ Incident.status i = IncidentStatus.RESOLVED)
  ∧ ∀ at_, Incident.resolved_at i = Some at_ → Incident.created_at i ≤ at_.

Definition all_resolved_consistent (m : IncidentManager.t) : Prop :=
  ∀ (id : string) (i : Incident.t),
    IncidentManager.incidents_ m !! id = Some i → resolved_consistent i.

Module Lifecycle.
(** An incident created by hand and then moved to RESOLVED with
    [update_status]. *)
Definition manager0 : IncidentManager.t :=
  IncidentManager.create IncidentManager.default_config.
Definition manager1 : IncidentManager.t :=
  (IncidentManager.create_incident 1000000000 manager0 "disk full"
     "/var is at 100%" IncidentSeverity.HIGH [42]).1.
Definition manager2 : IncidentManager.t :=
  IncidentManager.update_status manager1 "INC-000001" IncidentStatus.RESOLVED.
End Lifecycle.

Module Listeners.
(** Two listeners: the first one throws, the second one returns. *)
Definition failing : Callback LogEvent.t :=
  λ _, Throw (StdException "listener failed").
Definition fine : Callback LogEvent.t := λ _, Ok tt.
Definition callbacks : list (Callback LogEvent.t) := [failing; fine].
Definition event : LogEvent.t := Sample.event "user.login" 1 1000000000.
End Listeners.

Module ListenerRun.
(** A logger whose only parts are the two listeners of [Listeners]. *)
Definition logger : Logger.t :=
  Logger.on_event (Logger.on_event Logger.create Listeners.failing)
    Listeners.fine.
End ListenerRun.

(** An event that carries the single metric [name] with the value [value]. *)
Definition observation (name : string) (value : R) (id timestamp : Z)
    : LogEvent.t :=
  LogEvent.mk "metric.observed" timestamp Severity.INFO EmptyString []
    [(name, value)] [("metric_name", name)] [] [] EmptyString EmptyString
    EmptyString EmptyString 0 [] None id.

(** A Z-score detector trained with the events of a list, in order. *)
Definition zscore_trained (threshold : R) (events : list LogEvent.t)
    : ZScoreDetector.t :=
  foldl ZScoreDetector.train (ZScoreDetector.create threshold) events.

Module Constant.
(** A latency that was always 50, observed once and observed thirty times. *)
Definition once : list LogEvent.t := [observation "latency_ms" 50 0 0].
Definition thirty : list LogEvent.t :=
  replicate 30 (observation "latency_ms" 50 0 0).
Definition probe : LogEvent.t := observation "latency_ms" (50 + 1) 1 1000.
End Constant.

Module Causality.
(** [api.timeout] seen one second after [database.slow] by an analyzer that
    knows no relationship yet. *)
Definition cause : LogEvent.t := Sample.event "database.slow" 1 1000000000.
Definition effect : LogEvent.t := Sample.event "api.timeout" 2 2000000000.
Definition learned : CausalityAnalyzer.t :=
  CausalityAnalyzer.learn CausalityAnalyzer.create effect [cause].
End Causality.

Module Json.
(** Two events that differ in their entities only: the first has one entity
    whose value holds quotation marks, the second has two plain entities. *)
Definition quote_in_value : string :=
  "v" +:+ LogEvent.dquote +:+ "," +:+ LogEvent.dquote +:+ "x"
  +:+ LogEvent.dquote +:+ ":" +:+ LogEvent.dquote +:+ "y".
Definition with_entities (entities : list (string * string)) : LogEvent.t :=
  LogEvent.mk "user.login" 1700000000123456789 Severity.INFO EmptyString
    entities [] [] [] [] EmptyString EmptyString EmptyString EmptyString 0 []
    None 7.
Definition one_entity : LogEvent.t := with_entities [("k", quote_in_value)].
Definition two_entities : LogEvent.t := with_entities [("k", "v"); ("x", "y")].

(** The members [to_json] writes for an event, in the order it writes them:
    each key with the text of its value. *)
Definition fields `{StdLib} (e : LogEvent.t) : list (string * string) :=
  let pairs (l : list (string * string)) :=
    "{" +:+ LogEvent.join_pairs ","
              (λ k v, LogEvent.quoted k +:+ ":" +:+ LogEvent.quoted v) true l
    +:+ "}" in
  [("event_id", show_Z (LogEvent.event_id_ e));
   ("event_type", LogEvent.quoted (LogEvent.event_type_ e));
   ("timestamp", show_Z (Z.quot (LogEvent.timestamp_ e) 1000000));
   ("severity",
    LogEvent.quoted (Severity.severity_to_string (LogEvent.severity_ e)))]
  ++ (if decide (LogEvent.message_ e = EmptyString) then []
      else [("message", LogEvent.quoted (LogEvent.message_ e))])
  ++ (if decide (LogEvent.service_name_ e = EmptyString) then []
      else [("service", LogEvent.quoted (LogEvent.service_name_ e))])
  ++ (if decide (LogEvent.trace_id_ e = EmptyString) then []
      else [("trace_id", LogEvent.quoted (LogEvent.trace_id_ e))])
  ++ (match LogEvent.entities_ e with
      | [] => []
      | _ => [("entities", pairs (LogEvent.entities_ e))]
      end)
  ++ (match LogEvent.metrics_ e with
      | [] => []
      | _ => [("metrics",
               "{" +:+ LogEvent.join_pairs ","
                         (λ k v, LogEvent.quoted k +:+ ":" +:+ show_double v)
                         true (LogEvent.metrics_ e) +:+ "}")]
      end)
  ++ (match LogEvent.context_ e with
      | [] => []
      | _ => [("context", pairs (LogEvent.context_ e))]
      end)
  ++ [("anomaly_score", show_double (LogEvent.anomaly_score_ e))]
  ++ (match LogEvent.incident_id_ e with
      | Some id => [("incident_id", LogEvent.quoted id)]
      | None => []
      end).

(** The keys of the serialisation, all of them, in order. *)
Definition key_order : list string :=
  ["event_id"; "event_type"; "timestamp"; "severity"; "message"; "service";
   "trace_id"; "entities"; "metrics"; "context"; "anomaly_score";
   "incident_id"].

(** A JSON object with the given members, without white space. *)
Fixpoint members (first : bool) (l : list (string * string)) : string :=
  match l with
  | [] => EmptyString
  | (key, text) :: rest =>
      (if first then EmptyString else ",") +:+ LogEvent.quoted key +:+ ":"
      +:+ text +:+ members false rest
  end.
Definition object (l : list (string * string)) : string :=
  "{" +:+ members true l +:+ "}".
End Json.

(** A score in the unit interval. *)
Definition in_unit (x : R) : Prop := (0 <= x <= 1)%R.

(** An ensemble is well weighted when the weights of every WEIGHTED
    ensemble in it are not negative. *)
Fixpoint well_weighted (d : AnomalyDetector.t) : Prop :=
  match d with
  | AnomalyDetector.Ensemble method detectors =>
      (fix all (l : list (AnomalyDetector.t * R)) : Prop :=
         match l with
         | [] => True
         | (child, weight) :: rest =>
             well_weighted child
             ∧ (method = CombineMethod.WEIGHTED → 0 <= weight)%R
             ∧ all rest
         end) detectors
  | _ => True
  end.

Module Weighted.
(** A WEIGHTED ensemble of two Z-score detectors with the weights -1 and 2:
    the first was trained thirty times with a latency of 50, the second was
    never trained. *)
Definition ensemble : AnomalyDetector.t :=
  AnomalyDetector.Ensemble CombineMethod.WEIGHTED
    [(AnomalyDetector.ZScore (zscore_trained 3 Constant.thirty), (-1)%R);
     (AnomalyDetector.ZScore (ZScoreDetector.create 3), 2%R)].
End Weighted.

Module Unscored.
(** An event without metrics that its producer gave the score 5, and a
    logger initialised with the default configuration. *)
Definition event : LogEvent.t :=
  LogEvent.anomaly_score (Sample.event "user.login" 1 1000000000) 5.
Definition logger : Logger.t :=
  Logger.init Logger.create Logger.default_config false Sample.integration
    Sample.integration Sample.integration.
End Unscored.

(** * Notions used by the properties of the remaining operations *)

(** The position of a severity in [enum class IncidentSeverity]. *)
Definition severity_rank (s : IncidentSeverity.t) : nat :=
  match s with
  | IncidentSeverity.LOW => 0
  | IncidentSeverity.MEDIUM => 1
  | IncidentSeverity.HIGH => 2
  | IncidentSeverity.CRITICAL => 3
  end.

(** An incident the loop of [auto_resolve_stale_incidents] leaves alone is
    open or under investigation only if it is recent enough. *)
Definition open_status (s : IncidentStatus.t) : Prop :=
  s = IncidentStatus.OPEN ∨ s = IncidentStatus.INVESTIGATING.

(** The id [generate_incident_id] prints for the counter value [n]. *)
Definition incident_id_of (n : Z) : string := "INC-" +:+ setw6 (show_Z n).

(** Every stored incident sits under an id the manager has issued: the id
    of a counter value below the next one. *)
Definition ids_issued (m : IncidentManager.t) : Prop :=
  0 ≤ IncidentManager.next_incident_id_ m
  ∧ ∀ (id : string) (i : Incident.t),
      IncidentManager.incidents_ m !! id = Some i →
      ∃ n : Z, 0 ≤ n < IncidentManager.next_incident_id_ m
               ∧ id = incident_id_of n.

(** The number a string of decimal digits stands for, read from the left
    with [acc] as the value of the digits before it. *)
Fixpoint digits_value (acc : N) (s : string) : N :=
  match s with
  | EmptyString => acc
  | String c rest => digits_value (acc * 10 + (N_of_ascii c - 48))%N rest
  end.



(** The history of the logger respects its bound. *)
Definition history_bounded (l : Logger.t) : Prop :=
  (length (Logger.event_history_ l) ≤ Logger.max_history_size_ l)%nat.

(** The values a list of events gives the metric [name], in the order in
    which training meets them. *)
Definition observations (name : string) (events : list LogEvent.t) : list R :=
  events ≫= λ e, (filter (λ kv : string * R, kv.1 = name) (LogEvent.metrics_ e)).*2.

Definition sum_list (l : list R) : R := foldr Rplus 0%R l.

Definition mean_of (l : list R) : R := (sum_list l / INR (length l))%R.

(** The sum of the squared deviations from the mean. *)
Definition squared_deviations (l : list R) : R :=
  sum_list ((λ x, (x - mean_of l) * (x - mean_of l))%R <$> l).

(** The last [w] elements of a list. *)
Definition window (w : nat) (l : list R) : list R := drop (length l - w) l.


(** A rate detector that has been trained at most [k] times with events of
    the type [event_type]: it holds at most [k] of their timestamps and its
    baseline is at most [k] events per window. *)
Definition rate_warming_up (k : nat) (event_type : string)
    (d : RateDetector.t) : Prop :=
  match RateDetector.event_rates_ d !! event_type with
  | None => True
  | Some stats =>
      (length (RateDetector.timestamps stats) ≤ k)%nat
      ∧ (RateDetector.baseline_rate stats
         <= INR k / RateDetector.window_seconds d)%R
  end.

(** The statistics after the values of a list, starting from what is
    stored for the metric. *)
Definition welford (o : option ZScoreDetector.Stats) (values : list R)
    : option ZScoreDetector.Stats :=
  foldl (λ o v, Some (ZScoreDetector.update (default ZScoreDetector.fresh o) v))
        o values.


(** The use the pipeline makes of a frequency pattern on the events of a
    list: each event is matched, then the pattern is trained with it. *)
Definition frequency_fed (p : FrequencyPattern.t) (events : list LogEvent.t)
    : FrequencyPattern.t :=
  foldl (λ p' e, FrequencyPattern.train (FrequencyPattern.match_ p' e []).2 e)
        p events.

(** The timestamps of the events of a type, and those not before a cutoff. *)
Definition times_of_type (event_type : string) (events : list LogEvent.t)
    : list Z :=
  LogEvent.timestamp_
    <$> filter (λ e, LogEvent.event_type_ e = event_type) events.

Definition recent_times (event_type : string) (cutoff : Z)
    (events : list LogEvent.t) : list Z :=
  filter (λ t, cutoff ≤ t) (times_of_type event_type events).

(** The events at the end of a context, read backwards from [time], match
    the steps of a list read backwards, each event within the time its
    step allows before the event that follows it. *)
Fixpoint walks_back `{StdLib} (steps_rev : list SequentialPattern.Step)
    (context_rev : list LogEvent.t) (time : Z) : Prop :=
  match steps_rev, context_rev with
  | [], _ => True
  | step :: steps, event :: context =>
      time - LogEvent.timestamp_ event
      ≤ SequentialPattern.max_time_since_prev step
      ∧ SequentialPattern.matches_step event step = true
      ∧ walks_back steps context (LogEvent.timestamp_ event)
  | _ :: _, [] => False
  end.

Module Cascade.
(** The built-in cascading failure, and its three events one second apart. *)
Definition pattern : SequentialPattern.t :=
  SequentialPattern.create "cascading_failure"
    [SequentialPattern.step "database.slow" (PatternFactory.seconds 10);
     SequentialPattern.step "api.timeout" (PatternFactory.seconds 5);
     SequentialPattern.step "user.error" (PatternFactory.seconds 3)].
Definition context : list LogEvent.t :=
  [Sample.event "database.slow" 1 1000000000;
   Sample.event "api.timeout" 2 2000000000].
Definition event : LogEvent.t := Sample.event "user.error" 3 3000000000.
End Cascade.

(** What a correlation found for [ev] looks like. *)
Definition found_for (ev : LogEvent.t) (kind : string) (confidence : R)
    (corr : Correlation.t) : Prop :=
  Correlation.correlation_type corr = kind
  ∧ Correlation.confidence corr = confidence
  ∧ Correlation.first_event_time corr = LogEvent.timestamp_ ev
  ∧ Correlation.last_event_time corr = LogEvent.timestamp_ ev
  ∧ ∃ others, others ≠ []
      ∧ Correlation.event_ids corr = others ++ [LogEvent.event_id_ ev].

Module Traced.
(** Two events of one request, and a logger that correlates. *)
Definition first : LogEvent.t :=
  LogEvent.service_name
    (LogEvent.trace_id (Sample.event "api.call" 1 1000000000) "req-1")
    "checkout".
Definition second : LogEvent.t :=
  LogEvent.service_name
    (LogEvent.trace_id (Sample.event "api.timeout" 2 2000000000) "req-1")
    "checkout".
Definition logger : Logger.t :=
  Logger.with_correlation Logger.create (Some CorrelationEngine.create).
End Traced.

(** Every known relationship has a strength above 0 and at most 1. *)
Definition strengths_in_unit (a : CausalityAnalyzer.t) : Prop :=
  map_Forall (λ _ rel, (0 < CausalityAnalyzer.strength rel <= 1)%R)
             (CausalityAnalyzer.relationships_ a).

(** An engine that has processed the events of a list, each with the
    history it was processed with. *)
Definition processed (e : CorrelationEngine.t)
    (inputs : list (LogEvent.t * list LogEvent.t)) : CorrelationEngine.t :=
  foldl (λ e' input, CorrelationEngine.process e' input.1 input.2) e inputs.

(** Reading back a JSON string body whose characters are bytes: a
    backslash starts one of the escapes of the JSON grammar, a four-digit
    escape has to name a byte, and a bare quotation mark or control
    character is refused. *)
Definition hex_value (c : ascii) : option Z :=
  let n := Z.of_N (N_of_ascii c) in
  if decide (48 ≤ n ≤ 57) then Some (n - 48)
  else if decide (97 ≤ n ≤ 102) then Some (n - 87)
  else if decide (65 ≤ n ≤ 70) then Some (n - 55)
  else None.

Definition byte (n : Z) : ascii := ascii_of_N (Z.to_N n).

Fixpoint json_unescape (s : string) : option string :=
  match s with
  | EmptyString => Some EmptyString
  | String c rest =>
      let code := Z.of_N (N_of_ascii c) in
      if decide (code = 92) then
        match rest with
        | EmptyString => None
        | String e rest' =>
            let escape := Z.of_N (N_of_ascii e) in
            if decide (escape = 34 ∨ escape = 92 ∨ escape = 47)
            then String e <$> json_unescape rest'
            else if decide (escape = 98) then String (byte 8) <$> json_unescape rest'
            else if decide (escape = 102) then String (byte 12) <$> json_unescape rest'
            else if decide (escape = 110) then String (byte 10) <$> json_unescape rest'
            else if decide (escape = 114) then String (byte 13) <$> json_unescape rest'
            else if decide (escape = 116) then String (byte 9) <$> json_unescape rest'
            else if decide (escape = 117) then
              match rest' with
              | String h1 (String h2 (String h3 (String h4 rest''))) =>
                  match hex_value h1, hex_value h2, hex_value h3, hex_value h4 with
                  | Some d1, Some d2, Some d3, Some d4 =>
                      let n := ((d1 * 16 + d2) * 16 + d3) * 16 + d4 in
                      if decide (n < 256)
                      then String (byte n) <$> json_unescape rest''
                      else None
                  | _, _, _, _ => None
                  end
              | _ => None
              end
            else None
        end
      else if decide (code = 34 ∨ code < 32) then None
      else String c <$> json_unescape rest
  end.

(** Every byte of the text is below 128. *)
Definition seven_bit (s : string) : Prop :=
  Forall (λ c, Z.of_N (N_of_ascii c) < 128) (list_ascii_of_string s).

(** Base64 as RFC 4648 lays it out: three bytes give four characters of
    six bits each; one or two bytes left over give two or three characters
    and the padding. *)
Definition byte_value (c : ascii) : Z := Z.of_N (N_of_ascii c).

Fixpoint base64_groups (bytes : list ascii) : list ascii :=
  match bytes with
  | [] => []
  | [a] =>
      [base64_char (byte_value a `div` 4);
       base64_char (byte_value a `mod` 4 * 16);
       "="%char; "="%char]
  | [a; b] =>
      [base64_char (byte_value a `div` 4);
       base64_char (byte_value a `mod` 4 * 16 + byte_value b `div` 16);
       base64_char (byte_value b `mod` 16 * 4);
       "="%char]
  | a :: b :: c :: rest =>
      [base64_char (byte_value a `div` 4);
       base64_char (byte_value a `mod` 4 * 16 + byte_value b `div` 16);
       base64_char (byte_value b `mod` 16 * 4 + byte_value c `div` 64);
       base64_char (byte_value c `mod` 64)]
      ++ base64_groups rest
  end.

(** * Properties *)

(** ** Comparisons and machine arithmetic *)

Lemma dle_true (x y : R) : (x <= y)%R → dle x y = true.
Proof. intros Hxy. unfold dle. destruct (Rle_dec x y); [done | contradiction]. Qed.

Lemma dle_false (x y : R) : (y < x)%R → dle x y = false.
Proof. intros Hxy. unfold dle. destruct (Rle_dec x y); [lra | done]. Qed.

Lemma dlt_true (x y : R) : (x < y)%R → dlt x y = true.
Proof. intros Hxy. unfold dlt. destruct (Rlt_dec x y); [done | contradiction]. Qed.

Lemma dlt_false (x y : R) : (y <= x)%R → dlt x y = false.
Proof. intros Hxy. unfold dlt. destruct (Rlt_dec x y); [lra | done]. Qed.

Lemma dle_spec (x y : R) : dle x y = true ↔ (x <= y)%R.
Proof. unfold dle. destruct (Rle_dec x y); split; intros; done. Qed.

Lemma dlt_spec (x y : R) : dlt x y = true ↔ (x < y)%R.
Proof. unfold dlt. destruct (Rlt_dec x y); split; intros; done. Qed.

Lemma std_min_spec (a b : R) : std_min a b = Rmin a b.
Proof.
  unfold std_min, dlt, Rmin.
  destruct (Rlt_dec b a), (Rle_dec a b); lra.
Qed.

Lemma std_max_spec (a b : R) : std_max a b = Rmax a b.
Proof.
  unfold std_max, dlt, Rmax.
  destruct (Rlt_dec a b), (Rle_dec a b); lra.
Qed.

Lemma two64_pos : 0 < 2 ^ 64.
Proof. done. Qed.

Lemma wrap64_range (x : Z) : 0 ≤ wrap64 x < 2 ^ 64.
Proof. unfold wrap64. apply Z.mod_pos_bound, two64_pos. Qed.

Lemma wrap64_succ_ne (x : Z) : wrap64 (x + 1) ≠ x.
Proof.
  unfold wrap64. change (2 ^ 64) with 18446744073709551616.
  Z.div_mod_to_equations. lia.
Qed.

Lemma wrap64_add_l (x y : Z) : wrap64 (wrap64 x + y) = wrap64 (x + y).
Proof. unfold wrap64. apply Zplus_mod_idemp_l. Qed.

Lemma wrap64_small (x : Z) : 0 ≤ x < 2 ^ 64 → wrap64 x = x.
Proof. intros. unfold wrap64. by apply Z.mod_small. Qed.

(** [n] increments of a 64-bit counter. *)
Lemma iter_incr (n : nat) (x : Z) :
  (0 < n)%nat → Nat.iter n (λ y, wrap64 (y + 1)) x = wrap64 (x + Z.of_nat n).
Proof.
  induction n as [|n IH]; [lia|]. intros _. simpl.
  destruct n as [|n].
  - simpl. done.
  - rewrite IH by lia. rewrite wrap64_add_l. f_equal. lia.
Qed.

(** ** The bounded queue and [Logger::emit] *)

Lemma push_fails_iff (q : EventQueue.t) (event : LogEvent.t) :
  (EventQueue.push q event).1 = false
  ↔ (EventQueue.max_size_ q ≤ length (EventQueue.queue_ q))%nat.
Proof.
  unfold EventQueue.push. case_decide; simpl; split; intros; done || lia.
Qed.

Lemma push_size (q : EventQueue.t) (event : LogEvent.t) :
  (EventQueue.size q ≤ EventQueue.max_size_ q)%nat →
  (EventQueue.size (EventQueue.push q event).2 ≤ EventQueue.max_size_ q)%nat.
Proof.
  unfold EventQueue.push, EventQueue.size. case_decide; simpl; [done|].
  rewrite length_app. simpl. lia.
Qed.

Lemma should_sample_full_rate (l : Logger.t) (event : LogEvent.t) (draw : R) :
  (1 <= Logger.sampling_rate (Logger.config_ l))%R →
  Logger.should_sample l event draw = true.
Proof.
  intros Hrate. unfold Logger.should_sample.
  rewrite (dle_true _ _ Hrate). by destruct (_ && _).
Qed.

Lemma emit_all_state (cap : nat) (l : Logger.t) (emissions : list (LogEvent.t * R)) :
  Logger.initialized_ l = true →
  Logger.g_event_queue l = Some (EventQueue.create cap) →
  Forall (λ er, Logger.should_sample l er.1 er.2 = true) emissions →
  let l' := emit_all l emissions in
  Logger.config_ l' = Logger.config_ l
  ∧ Logger.initialized_ l' = true
  ∧ Logger.g_event_queue l'
    = Some (EventQueue.mk (take cap emissions.*1) cap false)
  ∧ Logger.events_total (Logger.stats_ l')
    = Nat.iter (length emissions) (λ y, wrap64 (y + 1))
        (Logger.events_total (Logger.stats_ l))
  ∧ Logger.events_dropped (Logger.stats_ l')
    = Nat.iter (length emissions - cap) (λ y, wrap64 (y + 1))
        (Logger.events_dropped (Logger.stats_ l)).
Proof.
  intros Hinit Hq. induction emissions as [|[event draw] es IH] using rev_ind.
  - intros _. simpl. rewrite take_nil. done.
  - intros Hs. apply Forall_app in Hs as [Hes He].
    apply Forall_cons in He as [He _]. simpl in He.
    destruct (IH Hes) as (Hc & Hi & Hq' & Ht & Hd). clear IH.
    unfold emit_all in *. rewrite foldl_app. simpl.
    set (l1 := foldl _ l es) in *.
    assert (Logger.should_sample l1 event draw = true) as Hs1.
    { rewrite <- He. unfold Logger.should_sample. by rewrite Hc. }
    unfold Logger.emit. rewrite Hi, Hs1. simpl. rewrite Hq'. simpl.
    unfold EventQueue.push. simpl.
    rewrite length_take, length_fmap, fmap_app, !length_app. simpl.
    case_decide as Hfull; simpl.
    + split; [done|]. split; [done|].
      split; [|split].
      * rewrite take_app_le by (rewrite length_fmap; lia). done.
      * rewrite Ht. replace (length es + 1)%nat with (S (length es)) by lia. done.
      * rewrite Hd. replace (length es + 1 - cap)%nat with (S (length es - cap)) by lia.
        done.
    + split; [done|]. split; [done|].
      split; [|split].
      * rewrite !take_ge by (rewrite ?length_app, length_fmap; simpl; lia). done.
      * rewrite Ht. replace (length es + 1)%nat with (S (length es)) by lia. done.
      * rewrite Hd. replace (length es + 1 - cap)%nat with (length es - cap)%nat by lia.
        done.
Qed.

(** C2.  [push] never waits, and on a queue that respects its capacity it
    fails exactly when the queue holds [max_size_] events.  When more than
    [cap] sampled events are emitted into an empty queue of capacity [cap]
    and nothing is popped, the queue ends up holding the first [cap] events,
    [events_total] has counted every emission and [events_dropped] every
    event beyond the first [cap] (both counters modulo 2^64). *)
Theorem emit_burst_drops_overflow (cap : nat) (l : Logger.t)
    (emissions : list (LogEvent.t * R)) :
  Logger.initialized_ l = true →
  Logger.g_event_queue l = Some (EventQueue.create cap) →
  Forall (λ er, Logger.should_sample l er.1 er.2 = true) emissions →
  (cap < length emissions)%nat →
  (∀ (q : EventQueue.t) (event : LogEvent.t),
     (EventQueue.size q ≤ EventQueue.max_size_ q)%nat →
     ((EventQueue.push q event).1 = false
      ↔ EventQueue.size q = EventQueue.max_size_ q)
     ∧ (EventQueue.size (EventQueue.push q event).2 ≤ EventQueue.max_size_ q)%nat)
  ∧ ∃ q' : EventQueue.t,
      Logger.g_event_queue (emit_all l emissions) = Some q'
      ∧ EventQueue.queue_ q' = take cap emissions.*1
      ∧ EventQueue.size q' = cap
      ∧ Logger.events_total (Logger.stats_ (emit_all l emissions))
        = wrap64 (Logger.events_total (Logger.stats_ l)
                  + Z.of_nat (length emissions))
      ∧ Logger.events_dropped (Logger.stats_ (emit_all l emissions))
        = wrap64 (Logger.events_dropped (Logger.stats_ l)
                  + Z.of_nat (length emissions - cap)).
Proof.
  intros Hinit Hq Hs Hn. split.
  - intros q event Hsize. split; [|by apply push_size].
    rewrite push_fails_iff. unfold EventQueue.size in *. lia.
  - destruct (emit_all_state cap l emissions Hinit Hq Hs) as (_ & _ & Hq' & Ht & Hd).
    eexists. split; [exact Hq'|]. simpl.
    split; [done|]. split.
    { unfold EventQueue.size. simpl. rewrite length_take, length_fmap. lia. }
    rewrite Ht, Hd, !iter_incr by lia. done.
Qed.

(** C2 on the burst of [Sample]: ten events emitted into a queue of four. *)
Lemma emit_burst_drops_overflow_witness :
  ∃ q' : EventQueue.t,
    Logger.g_event_queue (emit_all Sample.burst_logger Sample.burst) = Some q'
    ∧ EventQueue.queue_ q' = take 4 Sample.burst.*1
    ∧ EventQueue.size q' = 4%nat
    ∧ Logger.events_total (Logger.stats_ (emit_all Sample.burst_logger Sample.burst))
      = wrap64 (0 + 10)
    ∧ Logger.events_dropped (Logger.stats_ (emit_all Sample.burst_logger Sample.burst))
      = wrap64 (0 + 6).
Proof.
  refine (proj2 (emit_burst_drops_overflow 4 Sample.burst_logger Sample.burst
                   eq_refl eq_refl _ _)).
  - apply Forall_forall. intros er _. apply should_sample_full_rate.
    simpl. lra.
  - simpl. lia.
Defined.
(** ** The incident manager *)

Section IncidentManagerFacts.
Context `{StdLib}.

Lemma should_create_iff (m : IncidentManager.t) (event : LogEvent.t)
    (correlations : list Correlation.t) (matched_patterns : list string) :
  IncidentManager.should_create m event correlations matched_patterns = true
  ↔ (IncidentManager.anomaly_threshold (IncidentManager.config_ m)
     <= LogEvent.anomaly_score_ event)%R
    ∨ (IncidentManager.pattern_match_threshold (IncidentManager.config_ m)
       ≤ length matched_patterns)%nat
    ∨ (IncidentManager.correlated_events_threshold (IncidentManager.config_ m)
       ≤ length correlations)%nat.
Proof.
  unfold IncidentManager.should_create.
  rewrite !orb_true_iff, dle_spec, !bool_decide_eq_true. tauto.
Qed.

Lemma half_lt (n k : nat) : (n / 2 < k ↔ n < 2 * k)%nat.
Proof.
  pose proof (Nat.div_mod_eq n 2) as Hn.
  pose proof (Nat.mod_upper_bound n 2) as Hm. lia.
Qed.

Lemma duplicates_iff (m : IncidentManager.t) (incident existing : Incident.t) :
  IncidentManager.duplicates m incident existing = true
  ↔ similar_incidents (IncidentManager.deduplication_window (IncidentManager.config_ m))
      incident existing.
Proof.
  unfold IncidentManager.duplicates, similar_incidents.
  assert (filter (λ id, id ∈ (list_to_set (Incident.event_ids existing) : gset Z))
                 (Incident.event_ids incident)
          = filter (λ id, id ∈ Incident.event_ids existing)
                   (Incident.event_ids incident)) as ->.
  { apply list_filter_iff. intros id. apply elem_of_list_to_set. }
  case_decide as Hcut; [split; [done | lia]|].
  destruct (bool_decide (Incident.status existing = IncidentStatus.RESOLVED))
    eqn:Hres.
  { apply bool_decide_eq_true in Hres. cbn [orb andb]. split; [done | tauto]. }
  apply bool_decide_eq_false in Hres.
  destruct (bool_decide (Incident.status existing = IncidentStatus.CLOSED))
    eqn:Hclo.
  { apply bool_decide_eq_true in Hclo. cbn [orb andb]. split; [done | tauto]. }
  apply bool_decide_eq_false in Hclo. cbn [orb andb].
  destruct (bool_decide (Incident.title existing = Incident.title incident))
    eqn:Htitle; cbn [orb andb].
  - apply bool_decide_eq_true in Htitle.
    destruct (bool_decide (Incident.severity existing = Incident.severity incident))
      eqn:Hsev; cbn [orb andb].
    + apply bool_decide_eq_true in Hsev. split; [|done]. intros _.
      repeat split; try done; try lia. by left.
    + apply bool_decide_eq_false in Hsev.
      rewrite bool_decide_eq_true, half_lt.
      split; [intros; repeat split; try done; try lia; by right|].
      intros (_ & _ & _ & [[_ ?]|?]); [done | lia].
  - apply bool_decide_eq_false in Htitle.
    rewrite bool_decide_eq_true, half_lt.
    split; [intros; repeat split; try done; try lia; by right|].
    intros (_ & _ & _ & [[? _]|?]); [done | lia].
Qed.

Lemma find_duplicate_iff (m : IncidentManager.t) (incident : Incident.t) :
  is_Some (IncidentManager.find_duplicate m incident)
  ↔ ∃ (id : string) (existing : Incident.t),
      IncidentManager.incidents_ m !! id = Some existing
      ∧ IncidentManager.duplicates m incident existing = true.
Proof.
  unfold IncidentManager.find_duplicate. rewrite fmap_is_Some. split.
  - intros [[id existing] Hfind]. apply find_some in Hfind as [Hin Hdup].
    exists id, existing. split; [|done].
    apply elem_of_map_to_list. by apply list_elem_of_In.
  - intros (id & existing & Hlookup & Hdup).
    destruct (List.find _ _) as [entry|] eqn:Hfind; [done|].
    apply find_none with (x := (id, existing)) in Hfind.
    + simpl in Hfind. congruence.
    + apply list_elem_of_In. by apply elem_of_map_to_list.
Qed.

End IncidentManagerFacts.

Section IncidentManagerRuns.
Context `{StdLib}.

Lemma find_duplicate_empty (m : IncidentManager.t) (incident : Incident.t) :
  IncidentManager.incidents_ m = ∅ →
  IncidentManager.find_duplicate m incident = None.
Proof.
  intros Hempty. unfold IncidentManager.find_duplicate.
  by rewrite Hempty, map_to_list_empty.
Qed.

(** The three ways through [evaluate_event]. *)
Lemma evaluate_event_below (now : Z) (m : IncidentManager.t) (event : LogEvent.t)
    (correlations : list Correlation.t) (matched_patterns : list string) :
  IncidentManager.should_create m event correlations matched_patterns = false →
  IncidentManager.evaluate_event now m event correlations matched_patterns
  = (m, Ok None).
Proof. intros Hno. unfold IncidentManager.evaluate_event. by rewrite Hno. Qed.

Lemma evaluate_event_suppressed (now : Z) (m : IncidentManager.t)
    (event : LogEvent.t) (correlations : list Correlation.t)
    (matched_patterns : list string) :
  let id := (IncidentManager.generate_incident_id m).1 in
  let m1 := (IncidentManager.generate_incident_id m).2 in
  let incident :=
    IncidentManager.build_incident now m1 id event correlations matched_patterns in
  let stats := IncidentManager.stats_ m in
  IncidentManager.should_create m event correlations matched_patterns = true →
  IncidentManager.enable_deduplication (IncidentManager.config_ m) = true →
  is_Some (IncidentManager.find_duplicate m1 incident) →
  IncidentManager.evaluate_event now m event correlations matched_patterns
  = (IncidentManager.with_incidents m1 (IncidentManager.incidents_ m)
       (IncidentManager.mkStats
          (IncidentManager.total_created stats)
          (IncidentManager.currently_open stats)
          (IncidentManager.resolved stats)
          (wrap64 (IncidentManager.deduplicated stats + 1))),
     Ok None).
Proof.
  intros id m1 incident stats Hyes Hdedup Hdup.
  unfold IncidentManager.evaluate_event. rewrite Hyes. simpl.
  rewrite Hdedup. simpl. by rewrite bool_decide_eq_true_2.
Qed.

Lemma evaluate_event_stored (now : Z) (m : IncidentManager.t)
    (event : LogEvent.t) (correlations : list Correlation.t)
    (matched_patterns : list string) :
  let id := (IncidentManager.generate_incident_id m).1 in
  let m1 := (IncidentManager.generate_incident_id m).2 in
  let incident :=
    IncidentManager.build_incident now m1 id event correlations matched_patterns in
  IncidentManager.should_create m event correlations matched_patterns = true →
  ¬ (IncidentManager.enable_deduplication (IncidentManager.config_ m) = true
     ∧ is_Some (IncidentManager.find_duplicate m1 incident)) →
  IncidentManager.evaluate_event now m event correlations matched_patterns
  = match IncidentManager.store m1 incident with
    | (m2, Ok _) => (m2, Ok (Some incident))
    | (m2, Throw e) => (m2, Throw e)
    end.
Proof.
  intros id m1 incident Hyes Hno.
  unfold IncidentManager.evaluate_event. rewrite Hyes. simpl.
  destruct (IncidentManager.enable_deduplication _) eqn:Hdedup; simpl; [|done].
  rewrite bool_decide_eq_false_2; [done|]. intros Hdup. by apply Hno.
Qed.

(** What [store] leaves behind, however the notifications end. *)
Lemma store_state (m : IncidentManager.t) (incident : Incident.t) :
  let m' := (IncidentManager.store m incident).1 in
  IncidentManager.incidents_ m'
  = <[Incident.incident_id incident := incident]> (IncidentManager.incidents_ m)
  ∧ IncidentManager.total_created (IncidentManager.stats_ m')
    = wrap64 (IncidentManager.total_created (IncidentManager.stats_ m) + 1)
  ∧ IncidentManager.deduplicated (IncidentManager.stats_ m')
    = IncidentManager.deduplicated (IncidentManager.stats_ m)
  ∧ IncidentManager.config_ m' = IncidentManager.config_ m
  ∧ IncidentManager.next_incident_id_ m' = IncidentManager.next_incident_id_ m.
Proof.
  unfold IncidentManager.store.
  destruct (IncidentManager.notify_created _ _); done.
Qed.

End IncidentManagerRuns.

Lemma manager1_eq :
  Dedup.manager1
  = IncidentManager.mk IncidentManager.default_config 2
      {["INC-000001" :=
          IncidentManager.build_incident (H := Sample.stdlib) 1000000000
            Dedup.manager0 "INC-000001" Dedup.first_event [] Dedup.patterns]}
      [] [] [] (IncidentManager.mkStats 1 1 0 0).
Proof.
  unfold Dedup.manager1.
  rewrite evaluate_event_stored.
  - reflexivity.
  - apply should_create_iff. right. left. simpl. lia.
  - intros [_ Hdup]. rewrite find_duplicate_empty in Hdup by done.
    by destruct Hdup.
Qed.

Section IncidentCreation.
Context `{StdLib}.

(** C1, amended.  [evaluate_event] stores and counts a new incident exactly
    when one of the three thresholds is met and the incident is not
    suppressed as a duplicate; the incident it returns is that one, unless
    a notification throws.  When no threshold is met it returns no incident
    and leaves the manager as it was; a suppressed incident is neither
    stored nor counted as created. *)
Theorem evaluate_event_creates_iff (now : Z) (m : IncidentManager.t)
    (event : LogEvent.t) (correlations : list Correlation.t)
    (matched_patterns : list string) :
  let config := IncidentManager.config_ m in
  let meets :=
    (IncidentManager.anomaly_threshold config <= LogEvent.anomaly_score_ event)%R
    ∨ (IncidentManager.pattern_match_threshold config ≤ length matched_patterns)%nat
    ∨ (IncidentManager.correlated_events_threshold config ≤ length correlations)%nat in
  let id := (IncidentManager.generate_incident_id m).1 in
  let m1 := (IncidentManager.generate_incident_id m).2 in
  let incident :=
    IncidentManager.build_incident now m1 id event correlations matched_patterns in
  let suppressed :=
    IncidentManager.enable_deduplication config = true
    ∧ is_Some (IncidentManager.find_duplicate m1 incident) in
  let result :=
    IncidentManager.evaluate_event now m event correlations matched_patterns in
  let created (m' : IncidentManager.t) :=
    IncidentManager.total_created (IncidentManager.stats_ m')
    = wrap64 (IncidentManager.total_created (IncidentManager.stats_ m) + 1) in
  (created result.1 ↔ meets ∧ ¬ suppressed)
  ∧ (¬ meets → result = (m, Ok None))
  ∧ (meets ∧ suppressed →
     result.2 = Ok None
     ∧ IncidentManager.incidents_ result.1 = IncidentManager.incidents_ m)
  ∧ (meets ∧ ¬ suppressed →
     IncidentManager.incidents_ result.1
     = <[id := incident]> (IncidentManager.incidents_ m)
     ∧ (result.2 = Ok (Some incident) ∨ ∃ e, result.2 = Throw e))
  ∧ (∀ returned, result.2 = Ok (Some returned) →
     returned = incident ∧ meets ∧ ¬ suppressed).
Proof.
  intros config meets id m1 incident suppressed result created.
  assert (IncidentManager.should_create m event correlations matched_patterns
          = true ↔ meets) as Hmeets by apply should_create_iff.
  destruct (IncidentManager.should_create m event correlations matched_patterns)
    eqn:Hcreate.
  - assert meets as Hm by by apply Hmeets.
    destruct (decide suppressed) as [Hs|Hs].
    + (* a duplicate is found *)
      assert (result
              = (IncidentManager.with_incidents m1 (IncidentManager.incidents_ m)
                   (IncidentManager.mkStats
                      (IncidentManager.total_created (IncidentManager.stats_ m))
                      (IncidentManager.currently_open (IncidentManager.stats_ m))
                      (IncidentManager.resolved (IncidentManager.stats_ m))
                      (wrap64 (IncidentManager.deduplicated
                                 (IncidentManager.stats_ m) + 1))),
                 Ok None)) as ->.
      { destruct Hs. by apply evaluate_event_suppressed. }
      unfold created. simpl.
      split; [|split; [|split; [|split]]]; try tauto.
      * split; [|tauto]. intros Heq. symmetry in Heq.
        by apply wrap64_succ_ne in Heq.
      * intros returned [=].
    + (* the incident is stored *)
      assert (result
              = match IncidentManager.store m1 incident with
                | (m2, Ok _) => (m2, Ok (Some incident))
                | (m2, Throw e) => (m2, Throw e)
                end) as Hresult by by apply evaluate_event_stored.
      destruct (store_state m1 incident) as (Hinc & Htotal & _).
      destruct (IncidentManager.store m1 incident) as [m2 [[]|e]];
        rewrite Hresult; unfold created; simpl in *.
      * split; [tauto|]. split; [tauto|]. split; [tauto|].
        split; [by auto|]. intros returned [= <-]. tauto.
      * split; [tauto|]. split; [tauto|]. split; [tauto|].
        split; [by eauto|]. intros returned [=].
  - assert (¬ meets) as Hm by (intros Hm; apply Hmeets in Hm; done).
    assert (result = (m, Ok None)) as -> by by apply evaluate_event_below.
    unfold created. simpl.
    split; [|split; [|split; [|split]]]; try tauto.
    + split; [|tauto]. intros Heq. symmetry in Heq.
      by apply wrap64_succ_ne in Heq.
    + intros returned [=].
Qed.

(** C5.  With deduplication enabled and a threshold met, [evaluate_event]
    suppresses the new incident (it returns none and [deduplicated] grows by
    one) exactly when a stored incident was created inside the
    deduplication window before the new one, is neither RESOLVED nor CLOSED,
    and either has the new incident's title and severity or holds more than
    half of the new incident's event ids. *)
Theorem evaluate_event_suppressed_iff (now : Z) (m : IncidentManager.t)
    (event : LogEvent.t) (correlations : list Correlation.t)
    (matched_patterns : list string) :
  let id := (IncidentManager.generate_incident_id m).1 in
  let m1 := (IncidentManager.generate_incident_id m).2 in
  let incident :=
    IncidentManager.build_incident now m1 id event correlations matched_patterns in
  let result :=
    IncidentManager.evaluate_event now m event correlations matched_patterns in
  IncidentManager.enable_deduplication (IncidentManager.config_ m) = true →
  IncidentManager.should_create m event correlations matched_patterns = true →
  (result.2 = Ok None
   ∧ IncidentManager.deduplicated (IncidentManager.stats_ result.1)
     = wrap64 (IncidentManager.deduplicated (IncidentManager.stats_ m) + 1))
  ↔ ∃ (id' : string) (existing : Incident.t),
      IncidentManager.incidents_ m !! id' = Some existing
      ∧ similar_incidents
          (IncidentManager.deduplication_window (IncidentManager.config_ m))
          incident existing.
Proof.
  intros id m1 incident result Hdedup Hcreate.
  assert (is_Some (IncidentManager.find_duplicate m1 incident)
          ↔ ∃ (id' : string) (existing : Incident.t),
              IncidentManager.incidents_ m !! id' = Some existing
              ∧ similar_incidents
                  (IncidentManager.deduplication_window (IncidentManager.config_ m))
                  incident existing) as Hfind.
  { rewrite find_duplicate_iff. f_equiv. intros id'. f_equiv. intros existing.
    by rewrite duplicates_iff. }
  rewrite <- Hfind. clear Hfind.
  destruct (decide (is_Some (IncidentManager.find_duplicate m1 incident)))
    as [Hdup|Hdup].
  - subst result. rewrite evaluate_event_suppressed by done. simpl. tauto.
  - split; [|done]. intros [Hnone Hcount]. exfalso.
    subst result. rewrite evaluate_event_stored in Hnone by tauto.
    destruct (IncidentManager.store _ _) as [m2 [[]|e]]; done.
Qed.

End IncidentCreation.

(** C5 on the scenario of [Dedup]: the second event, evaluated one second
    after the first. *)
Lemma evaluate_event_suppressed_iff_witness :
  let result :=
    IncidentManager.evaluate_event (H := Sample.stdlib) 2000000000
      Dedup.manager1 Dedup.second_event [] Dedup.patterns in
  (result.2 = Ok None
   ∧ IncidentManager.deduplicated (IncidentManager.stats_ result.1)
     = wrap64 (IncidentManager.deduplicated (IncidentManager.stats_ Dedup.manager1) + 1))
  ↔ ∃ (id' : string) (existing : Incident.t),
      IncidentManager.incidents_ Dedup.manager1 !! id' = Some existing
      ∧ similar_incidents
          (IncidentManager.deduplication_window
             (IncidentManager.config_ Dedup.manager1))
          (IncidentManager.build_incident (H := Sample.stdlib) 2000000000
             (IncidentManager.generate_incident_id Dedup.manager1).2
             (IncidentManager.generate_incident_id Dedup.manager1).1
             Dedup.second_event [] Dedup.patterns)
          existing.
Proof.
  apply (evaluate_event_suppressed_iff (H := Sample.stdlib) 2000000000
           Dedup.manager1 Dedup.second_event [] Dedup.patterns).
  - rewrite manager1_eq. reflexivity.
  - apply should_create_iff. right. left. rewrite manager1_eq. simpl. lia.
Defined.

(** C1, meeting a threshold is not enough: the second event of [Dedup]
    meets the pattern threshold, and no incident is created for it, because
    the incident of the first event is a duplicate. *)
Lemma evaluate_event_duplicate_not_created :
  let result :=
    IncidentManager.evaluate_event (H := Sample.stdlib) 2000000000
      Dedup.manager1 Dedup.second_event [] Dedup.patterns in
  (IncidentManager.pattern_match_threshold (IncidentManager.config_ Dedup.manager1)
   ≤ length Dedup.patterns)%nat
  ∧ result.2 = Ok None
  ∧ IncidentManager.incidents_ result.1 = IncidentManager.incidents_ Dedup.manager1
  ∧ IncidentManager.total_created (IncidentManager.stats_ result.1) = 1
  ∧ IncidentManager.deduplicated (IncidentManager.stats_ result.1) = 1.
Proof.
  split; [rewrite manager1_eq; simpl; lia|].
  rewrite evaluate_event_suppressed.
  - rewrite manager1_eq. done.
  - apply should_create_iff. right. left. rewrite manager1_eq. simpl. lia.
  - rewrite manager1_eq. reflexivity.
  - apply find_duplicate_iff.
    eexists "INC-000001", _. split.
    + rewrite manager1_eq. simpl. apply lookup_singleton_eq.
    + apply duplicates_iff. rewrite manager1_eq.
      unfold similar_incidents. simpl.
      split; [unfold IncidentManager.minutes; lia|].
      split; [done|]. split; [done|]. by left.
Qed.

(** ** The life cycle of an incident *)

(** C9.  An incident that [update_status] moves to RESOLVED keeps an empty
    [resolved_at]: the invariant that [resolve_incident] and
    [auto_resolve_stale_incidents] establish does not survive
    [update_status]. *)
Theorem update_status_resolved_without_timestamp :
  ∃ i : Incident.t,
    IncidentManager.get_incident Lifecycle.manager2 "INC-000001" = Some i
    ∧ Incident.status i = IncidentStatus.RESOLVED
    ∧ Incident.resolved_at i = None.
Proof.
  eexists. split; [|split].
  - unfold IncidentManager.get_incident, Lifecycle.manager2,
      IncidentManager.update_status.
    assert (IncidentManager.incidents_ Lifecycle.manager1 !! "INC-000001"
            = Some (Incident.mk "INC-000001" "disk full" "/var is at 100%"
                      IncidentSeverity.HIGH IncidentStatus.OPEN 1000000000 None
                      [42] None None 0 0%nat 0%nat ∅ [] None None)) as ->.
    { unfold Lifecycle.manager1. simpl. apply lookup_insert_eq. }
    simpl. apply lookup_insert_eq.
  - reflexivity.
  - reflexivity.
Qed.

(** The other operations keep the invariant, when the clock does not run
    backwards between the creation of an incident and its resolution. *)
Lemma set_resolved_consistent (now : Z) (cause : string) (i : Incident.t) :
  Incident.created_at i ≤ now →
  resolved_consistent (Incident.set_resolved now cause i).
Proof.
  intros Hnow. split; simpl.
  - split; [done | by eauto].
  - by intros at_ [= <-].
Qed.

Lemma store_consistent (m : IncidentManager.t) (incident : Incident.t) :
  all_resolved_consistent m → resolved_consistent incident →
  all_resolved_consistent (IncidentManager.store m incident).1.
Proof.
  intros Hall Hnew id i. destruct (store_state m incident) as [-> _].
  destruct (decide (Incident.incident_id incident = id)) as [->|Hne].
  - rewrite lookup_insert_eq. by intros [= <-].
  - rewrite lookup_insert_ne by done. apply Hall.
Qed.

Lemma evaluate_event_consistent `{StdLib} (now : Z) (m : IncidentManager.t)
    (event : LogEvent.t) (correlations : list Correlation.t)
    (matched_patterns : list string) :
  all_resolved_consistent m →
  all_resolved_consistent
    (IncidentManager.evaluate_event now m event correlations matched_patterns).1.
Proof.
  intros Hall. unfold IncidentManager.evaluate_event.
  destruct (IncidentManager.should_create _ _ _ _); simpl; [|done].
  destruct (_ && _); simpl; [done|].
  set (m1 := IncidentManager.with_next_id _ _).
  set (incident := IncidentManager.build_incident _ _ _ _ _ _).
  pose proof (store_consistent m1 incident) as Hstore.
  destruct (IncidentManager.store m1 incident) as [m2 [[]|e]]; simpl in *;
    apply Hstore; try done; (split; simpl; [split; [by intros [] | done] | done]).
Qed.

Lemma create_incident_consistent (now : Z) (m : IncidentManager.t)
    (title description : string) (severity : IncidentSeverity.t)
    (event_ids : list Z) :
  all_resolved_consistent m →
  all_resolved_consistent
    (IncidentManager.create_incident now m title description severity event_ids).1.
Proof.
  intros Hall. unfold IncidentManager.create_incident. simpl.
  set (m1 := IncidentManager.with_next_id _ _).
  set (incident := Incident.mk _ _ _ _ _ _ _ _ _ _ _ _ _ _ _ _ _).
  pose proof (store_consistent m1 incident) as Hstore.
  destruct (IncidentManager.store m1 incident) as [m2 [[]|e]]; simpl in *;
    apply Hstore; try done; (split; simpl; [split; [by intros [] | done] | done]).
Qed.

Lemma resolve_incident_consistent (now : Z) (m : IncidentManager.t)
    (incident_id resolution : string) :
  (∀ i, IncidentManager.incidents_ m !! incident_id = Some i →
        Incident.created_at i ≤ now) →
  all_resolved_consistent m →
  all_resolved_consistent
    (IncidentManager.resolve_incident now m incident_id resolution).1.
Proof.
  intros Hclock Hall. unfold IncidentManager.resolve_incident.
  destruct (IncidentManager.incidents_ m !! incident_id) as [incident|] eqn:Hfind;
    [|done].
  assert (all_resolved_consistent
            (IncidentManager.with_incidents m
               (<[incident_id := Incident.set_resolved now resolution incident]>
                  (IncidentManager.incidents_ m))
               (IncidentManager.mkStats
                  (IncidentManager.total_created (IncidentManager.stats_ m))
                  (wrap64 (IncidentManager.currently_open (IncidentManager.stats_ m) - 1))
                  (wrap64 (IncidentManager.resolved (IncidentManager.stats_ m) + 1))
                  (IncidentManager.deduplicated (IncidentManager.stats_ m)))))
    as Hnew.
  { intros id i. simpl.
    destruct (decide (incident_id = id)) as [->|Hne].
    - rewrite lookup_insert_eq. intros [= <-].
      apply set_resolved_consistent. by apply Hclock.
    - rewrite lookup_insert_ne by done. apply Hall. }
  simpl. destruct (IncidentManager.notify_resolved _ _ _ _); done.
Qed.

Lemma auto_resolve_consistent (now : Z) (now_at : string → Z)
    (m : IncidentManager.t) :
  (∀ id i, IncidentManager.incidents_ m !! id = Some i →
           Incident.created_at i ≤ now_at id) →
  all_resolved_consistent m →
  all_resolved_consistent
    (IncidentManager.auto_resolve_stale_incidents now now_at m).
Proof.
  intros Hclock Hall. unfold IncidentManager.auto_resolve_stale_incidents.
  destruct (IncidentManager.enable_auto_resolution _); simpl; [|done].
  intros id i. simpl. rewrite map_lookup_imap.
  destruct (IncidentManager.incidents_ m !! id) as [incident|] eqn:Hfind;
    simpl; [|done].
  intros [= <-]. case_match.
  - apply set_resolved_consistent. by eapply Hclock.
  - by eapply Hall.
Qed.

(** ** Listeners and integrations *)

Lemma invoke_all_ok {T : Type} (callbacks : list (Callback T)) (x : T) :
  Forall (λ cb, cb x = Ok tt) callbacks →
  invoke_all callbacks x = (length callbacks, Ok tt).
Proof.
  induction 1 as [|cb rest Hcb _ IH]; simpl; [done|].
  by rewrite Hcb, IH.
Qed.

Lemma invoke_all_throw {T : Type} (before after : list (Callback T))
    (failing : Callback T) (x : T) (e : exn) :
  Forall (λ cb, cb x = Ok tt) before → failing x = Throw e →
  invoke_all (before ++ failing :: after) x = (S (length before), Throw e).
Proof.
  intros Hbefore Hfail.
  induction Hbefore as [|cb rest Hcb _ IH]; simpl.
  - by rewrite Hfail.
  - by rewrite Hcb, IH.
Qed.

Lemma notify_created_ok (integrations : list IncidentIntegration.t)
    (incident : Incident.t) :
  Forall (λ i, IncidentIntegration.create_incident i incident
               ≠ Throw OtherException) integrations →
  IncidentManager.notify_created integrations incident = Ok tt.
Proof.
  induction 1 as [|i rest Hi _ IH]; simpl; [done|].
  destruct (IncidentIntegration.create_incident i incident) as [?|[]]; done.
Qed.

Section Stages.
Context `{StdLib}.

(** What the stages before the history leave untouched. *)
Lemma anomaly_stage_frame (l : Logger.t) (event : LogEvent.t) :
  let l1 := (Logger.anomaly_stage l event).1.1 in
  Logger.event_callbacks_ l1 = Logger.event_callbacks_ l
  ∧ Logger.incident_manager_ l1 = Logger.incident_manager_ l
  ∧ Logger.event_history_ l1 = Logger.event_history_ l
  ∧ Logger.max_history_size_ l1 = Logger.max_history_size_ l.
Proof.
  unfold Logger.anomaly_stage.
  destruct (Logger.anomaly_detector_ l) as [d|]; [|done].
  destruct (LogEvent.metrics_ event); [done|].
  destruct (AnomalyDetector.score d event) as [s d1].
  by destruct (dle 0.7 s).
Qed.

Lemma pattern_stage_frame (l : Logger.t) (event : LogEvent.t) :
  let l1 := (Logger.pattern_stage l event).1 in
  Logger.event_callbacks_ l1 = Logger.event_callbacks_ l
  ∧ Logger.incident_manager_ l1 = Logger.incident_manager_ l
  ∧ Logger.event_history_ l1 = Logger.event_history_ l
  ∧ Logger.max_history_size_ l1 = Logger.max_history_size_ l
  ∧ Logger.anomaly_detector_ l1 = Logger.anomaly_detector_ l.
Proof.
  unfold Logger.pattern_stage.
  destruct (Logger.pattern_engine_ l) as [e|]; [|done].
  destruct (PatternEngine.match_patterns e event _) as [[|m ms] e1]; done.
Qed.

Lemma correlation_stage_frame (l : Logger.t) (event : LogEvent.t) :
  let l1 := (Logger.correlation_stage l event).1 in
  Logger.event_callbacks_ l1 = Logger.event_callbacks_ l
  ∧ Logger.incident_manager_ l1 = Logger.incident_manager_ l
  ∧ Logger.event_history_ l1 = Logger.event_history_ l
  ∧ Logger.max_history_size_ l1 = Logger.max_history_size_ l
  ∧ Logger.anomaly_detector_ l1 = Logger.anomaly_detector_ l.
Proof.
  unfold Logger.correlation_stage.
  destruct (Logger.correlation_engine_ l) as [e|]; [|done].
  destruct (EventCorrelator.correlate _ event) as [[|c cs] c2]; done.
Qed.

Lemma incident_stage_frame (now : Z) (l : Logger.t) (event : LogEvent.t)
    (correlations : list Correlation.t) (matched_patterns : list string) :
  let l1 :=
    (Logger.incident_stage now l event correlations matched_patterns).1 in
  Logger.event_callbacks_ l1 = Logger.event_callbacks_ l
  ∧ Logger.event_history_ l1 = Logger.event_history_ l
  ∧ Logger.max_history_size_ l1 = Logger.max_history_size_ l
  ∧ Logger.anomaly_detector_ l1 = Logger.anomaly_detector_ l.
Proof.
  unfold Logger.incident_stage.
  destruct (Logger.incident_manager_ l) as [m|]; [|done].
  destruct (IncidentManager.evaluate_event now m event _ _) as [m1 [[i|]|e]];
    done.
Qed.

(** A failing event listener makes [process_event] end with an exception. *)
Lemma process_event_listener_throws (now : Z) (l : Logger.t)
    (event : LogEvent.t) (e : exn) :
  (invoke_all (Logger.event_callbacks_ l) (Logger.anomaly_stage l event).1.2).2
  = Throw e →
  ∃ e', (Logger.process_event now l event).2 = Throw e'.
Proof.
  intros Hthrow. unfold Logger.process_event.
  destruct (anomaly_stage_frame l event) as (H1 & _).
  destruct (Logger.anomaly_stage l event) as [[l1 processed] [[]|e1]];
    simpl in *; [|by eauto].
  destruct (pattern_stage_frame l1 processed) as (H2 & _).
  destruct (Logger.pattern_stage l1 processed) as [l2 matched]. simpl in *.
  destruct (correlation_stage_frame l2 processed) as (H3 & _).
  destruct (Logger.correlation_stage l2 processed) as [l3 correlations].
  simpl in *.
  destruct (incident_stage_frame now l3 processed correlations matched)
    as (H4 & _).
  destruct (Logger.incident_stage now l3 processed correlations matched)
    as [l4 [[]|e4]]; simpl in *; [|by eauto].
  rewrite H4, H3, H2, H1, Hthrow. by eauto.
Qed.

End Stages.

(** C8, amended.  The listeners of a list are called in the order of their
    registration up to the first one that throws: its exception leaves the
    loop, so the listeners after it are not called, [process_event] ends
    with an exception when an event listener throws, and so does the
    creation of an incident when an incident listener throws.  Only the
    integrations are guarded: as long as they throw nothing but exceptions
    derived from [std::exception], every one of them is called. *)
Theorem listeners_run_until_first_throw :
  (∀ (T : Type) (callbacks : list (Callback T)) (x : T),
     (Forall (λ cb, cb x = Ok tt) callbacks →
      invoke_all callbacks x = (length callbacks, Ok tt))
     ∧ (∀ before failing after e,
          callbacks = before ++ failing :: after →
          Forall (λ cb, cb x = Ok tt) before → failing x = Throw e →
          invoke_all callbacks x = (S (length before), Throw e)))
  ∧ (∀ (H : StdLib) (now : Z) (l : Logger.t) (event : LogEvent.t) (e : exn),
       (invoke_all (Logger.event_callbacks_ l)
          (Logger.anomaly_stage l event).1.2).2 = Throw e →
       ∃ e', (Logger.process_event now l event).2 = Throw e')
  ∧ (∀ (m : IncidentManager.t) (incident : Incident.t) (e : exn),
       IncidentManager.notify_created (IncidentManager.integrations_ m) incident
       = Ok tt →
       (invoke_all (IncidentManager.on_created_callbacks_ m) incident).2
       = Throw e →
       (IncidentManager.store m incident).2 = Throw e)
  ∧ (∀ (integrations : list IncidentIntegration.t) (incident : Incident.t),
       Forall (λ i, IncidentIntegration.create_incident i incident
                    ≠ Throw OtherException) integrations →
       IncidentManager.notify_created integrations incident = Ok tt).
Proof.
  split; [|split; [|split]].
  - intros T callbacks x. split; [apply invoke_all_ok|].
    intros before failing after e ->. apply invoke_all_throw.
  - intros H. apply process_event_listener_throws.
  - intros m incident e Hint Hcb. unfold IncidentManager.store. simpl.
    by rewrite Hint, Hcb.
  - apply notify_created_ok.
Qed.

(** C8, the isolation that the code does not have: of the two listeners of
    [Listeners] only the first is called, and [process_event] ends with its
    exception. *)
Lemma failing_listener_blocks_later_ones :
  length Listeners.callbacks = 2%nat
  ∧ invoke_all Listeners.callbacks Listeners.event
    = (1%nat, Throw (StdException "listener failed"))
  ∧ Logger.event_callbacks_ ListenerRun.logger = Listeners.callbacks
  ∧ (Logger.process_event (H := Sample.stdlib) 1000000000 ListenerRun.logger
       Listeners.event).2
    = Throw (StdException "listener failed").
Proof. repeat split; reflexivity. Qed.

(** ** The Z-score detector on a constant metric *)

Lemma wrap64_of_nat_succ (n : nat) :
  wrap64 (wrap64 (Z.of_nat n) + 1) = wrap64 (Z.of_nat (S n)).
Proof. rewrite wrap64_add_l. f_equal. lia. Qed.

(** Welford's update on a metric that stays at [c]. *)
Lemma update_constant (c : R) (count : Z) :
  ZScoreDetector.update (ZScoreDetector.mkStats c 0 count) c
  = ZScoreDetector.mkStats c 0 (wrap64 (count + 1)).
Proof.
  unfold ZScoreDetector.update. simpl. f_equal; unfold Rdiv; ring.
Qed.

Lemma update_fresh (c : R) :
  ZScoreDetector.update ZScoreDetector.fresh c = ZScoreDetector.mkStats c 0 1.
Proof.
  unfold ZScoreDetector.update, ZScoreDetector.fresh. simpl.
  change (wrap64 (0 + 1)) with 1. f_equal; field.
Qed.

Lemma zscore_trained_constant (threshold : R) (name : string) (c : R)
    (events : list LogEvent.t) :
  Forall (λ e, LogEvent.metrics_ e = [(name, c)]) events →
  zscore_trained threshold events
  = ZScoreDetector.mk
      (match events with
       | [] => ∅
       | _ => {[name := ZScoreDetector.mkStats c 0
                          (wrap64 (Z.of_nat (length events)))]}
       end)
      threshold.
Proof.
  unfold zscore_trained.
  induction events as [|event events IH] using rev_ind; intros Hall; [done|].
  apply Forall_app in Hall as [Hevents Hevent].
  apply Forall_cons in Hevent as [Hevent _].
  rewrite foldl_app, IH by done. simpl.
  unfold ZScoreDetector.train. rewrite Hevent. simpl.
  destruct events as [|e0 events]; simpl.
  - rewrite lookup_empty. simpl. rewrite update_fresh. done.
  - rewrite lookup_singleton_eq. simpl. rewrite update_constant.
    rewrite insert_singleton_eq. rewrite length_app. simpl.
    do 3 f_equal. rewrite wrap64_add_l. f_equal. lia.
Qed.

Lemma stddev_constant (c : R) (count : Z) :
  ZScoreDetector.stddev (ZScoreDetector.mkStats c 0 count) = 0%R.
Proof.
  unfold ZScoreDetector.stddev. simpl. case_decide; [|done].
  unfold Rdiv. rewrite Rmult_0_l. apply sqrt_0.
Qed.

(** C4, amended.  After a fresh Z-score detector was trained only with
    events whose single metric has the value [c], an event with that metric
    at [c] scores 0; an event with that metric at [c + epsilon],
    [epsilon > 1e-6], scores 1 when the detector has seen at least 30
    training events (and fewer than 2^64), and 0 when it has seen fewer than
    30. *)
Theorem zscore_constant_metric (threshold : R) (name : string) (c : R)
    (events : list LogEvent.t) (probe : LogEvent.t) (epsilon : R) :
  Forall (λ e, LogEvent.metrics_ e = [(name, c)]) events →
  (1e-6 < epsilon)%R →
  let d := zscore_trained threshold events in
  (LogEvent.metrics_ probe = [(name, c)] → ZScoreDetector.score d probe = 0%R)
  ∧ (LogEvent.metrics_ probe = [(name, (c + epsilon)%R)] →
     (30 ≤ length events)%nat → Z.of_nat (length events) < 2 ^ 64 →
     ZScoreDetector.score d probe = 1%R)
  ∧ (LogEvent.metrics_ probe = [(name, (c + epsilon)%R)] →
     (length events < 30)%nat →
     ZScoreDetector.score d probe = 0%R).
Proof.
  intros Hall Heps d. subst d. rewrite (zscore_trained_constant _ name c) by done.
  unfold ZScoreDetector.score.
  split; [|split]; intros Hprobe; rewrite Hprobe; simpl.
  - destruct events as [|e0 events]; simpl; [by rewrite lookup_empty|].
    rewrite lookup_singleton_eq. simpl. case_decide; [done|].
    rewrite stddev_constant, dlt_true by lra.
    rewrite dlt_false; [done|].
    replace (c - c)%R with 0%R by ring. rewrite Rabs_R0. lra.
  - intros Hmany Hfew. destruct events as [|e0 events]; [simpl in Hmany; lia|].
    rewrite lookup_singleton_eq. simpl.
    rewrite wrap64_small by (simpl in *; lia).
    case_decide; [simpl in *; lia|].
    rewrite stddev_constant, dlt_true by lra.
    rewrite dlt_true; [done|].
    replace (c + epsilon - c)%R with epsilon by ring.
    rewrite Rabs_pos_eq; lra.
  - intros Hfew. destruct events as [|e0 events]; simpl; [by rewrite lookup_empty|].
    rewrite lookup_singleton_eq. simpl.
    rewrite wrap64_small by (simpl in *; lia).
    case_decide; [done | simpl in *; lia].
Qed.

(** C4 after thirty observations of 50: an observation of 51 scores 1. *)
Lemma zscore_constant_metric_witness :
  ZScoreDetector.score (zscore_trained 3 Constant.thirty) Constant.probe = 1%R.
Proof.
  refine (proj1 (proj2 (zscore_constant_metric 3 "latency_ms" 50
                          Constant.thirty Constant.probe 1 _ _)) _ _ _).
  - apply Forall_replicate. reflexivity.
  - lra.
  - reflexivity.
  - unfold Constant.thirty. rewrite length_replicate. lia.
  - unfold Constant.thirty. rewrite length_replicate. done.
Defined.

(** C4 after a single observation of 50: an observation of 51 scores 0,
    not 1. *)
Lemma zscore_needs_thirty_samples :
  Forall (λ e, LogEvent.metrics_ e = [("latency_ms", 50%R)]) Constant.once
  ∧ LogEvent.metrics_ Constant.probe = [("latency_ms", (50 + 1)%R)]
  ∧ (1e-6 < 1)%R
  ∧ ZScoreDetector.score (zscore_trained 3 Constant.once) Constant.probe = 0%R.
Proof.
  split; [by repeat constructor|]. split; [done|]. split; [lra|].
  rewrite (zscore_trained_constant 3 "latency_ms" 50) by by repeat constructor.
  unfold ZScoreDetector.score. simpl.
  rewrite lookup_singleton_eq. simpl. done.
Qed.

(** ** Causality learning *)

Lemma wrap64_idem (x : Z) : wrap64 (wrap64 x) = wrap64 x.
Proof. unfold wrap64. apply Zmod_mod. Qed.

Lemma to_int64_wrap64 (x : Z) : - 2 ^ 63 ≤ x < 2 ^ 63 → to_int64 (wrap64 x) = x.
Proof.
  intros Hx. unfold to_int64, wrap64.
  change (2 ^ 64) with 18446744073709551616 in *.
  change (2 ^ 63) with 9223372036854775808 in *.
  rewrite Zmod_mod. case_decide; Z.div_mod_to_equations; lia.
Qed.

Lemma to_int64_small (x : Z) : 0 ≤ x < 2 ^ 63 → to_int64 x = x.
Proof.
  intros Hx. unfold to_int64.
  rewrite wrap64_small by (change (2 ^ 64) with (2 * 2 ^ 63); lia).
  case_decide; lia.
Qed.

(** The mean as the source computes it is the truncated mean of the
    [count + 1] delays when nothing is negative and nothing overflows. *)
Lemma running_mean_exact (typical_delay count delay : Z) :
  0 ≤ typical_delay → 0 ≤ delay → 0 ≤ count →
  typical_delay * count + delay < 2 ^ 63 → count + 1 < 2 ^ 64 →
  CausalityAnalyzer.running_mean typical_delay (count + 1) delay
  = (typical_delay * count + delay) `div` (count + 1).
Proof.
  intros Hd Hdelay Hcount Hfit Hcount'.
  unfold CausalityAnalyzer.running_mean.
  replace (count + 1 - 1) with count by lia.
  assert (2 ^ 63 < 2 ^ 64) as Hpow by done.
  assert (0 ≤ typical_delay * count) by nia.
  destruct (decide (count = 0)) as [->|Hpos].
  - rewrite Z.mul_0_r in *. simpl.
    rewrite (wrap64_small 0), !Z.add_0_l by lia.
    rewrite (wrap64_small delay) by lia.
    rewrite (wrap64_small delay) by lia.
    rewrite !Z.div_1_r, ?Z.mul_0_r, ?Z.add_0_l. apply to_int64_small. lia.
  - assert (typical_delay ≤ typical_delay * count) by nia.
    rewrite (wrap64_small typical_delay), (wrap64_small count) by lia.
    rewrite (wrap64_small (typical_delay * count)) by lia.
    rewrite (wrap64_small delay) by lia.
    rewrite (wrap64_small (typical_delay * count + delay)) by lia.
    apply to_int64_small. split.
    + apply Z.div_pos; lia.
    + apply Z.le_lt_trans with (typical_delay * count + delay); [|done].
      apply Z.div_le_upper_bound; nia.
Qed.

Lemma running_mean_first (delay : Z) :
  - 2 ^ 63 ≤ delay < 2 ^ 63 → CausalityAnalyzer.running_mean delay 1 delay = delay.
Proof.
  intros Hdelay. unfold CausalityAnalyzer.running_mean. simpl.
  rewrite Z.mul_0_r, (wrap64_small 0), Z.add_0_l, Z.div_1_r by done.
  rewrite wrap64_idem. by apply to_int64_wrap64.
Qed.

Lemma first_strength : std_min 1 (0.1 + 0.05) = 0.15%R.
Proof. unfold std_min. rewrite dlt_true by lra. lra. Qed.

Lemma observe_first (rel : CausalityAnalyzer.CausalRelationship)
    (prev_event event : LogEvent.t) :
  let delay := LogEvent.timestamp_ event - LogEvent.timestamp_ prev_event in
  CausalityAnalyzer.observed_count rel = 0 →
  - 2 ^ 63 ≤ delay < 2 ^ 63 →
  CausalityAnalyzer.observe rel prev_event event
  = CausalityAnalyzer.mkRel (LogEvent.event_type_ prev_event)
      (LogEvent.event_type_ event) CausalityType.PRECEDES 0.15 delay 1.
Proof.
  intros delay Hcount Hdelay. unfold CausalityAnalyzer.observe.
  rewrite Hcount. simpl. rewrite first_strength.
  change (wrap64 (0 + 1)) with 1. by rewrite running_mean_first.
Qed.

Lemma observe_again (rel : CausalityAnalyzer.CausalRelationship)
    (prev_event event : LogEvent.t) :
  let delay := LogEvent.timestamp_ event - LogEvent.timestamp_ prev_event in
  let count := wrap64 (CausalityAnalyzer.observed_count rel + 1) in
  CausalityAnalyzer.observed_count rel ≠ 0 →
  CausalityAnalyzer.observe rel prev_event event
  = CausalityAnalyzer.mkRel (CausalityAnalyzer.cause_event_type rel)
      (CausalityAnalyzer.effect_event_type rel) (CausalityAnalyzer.type rel)
      (std_min 1 (CausalityAnalyzer.strength rel + 0.05))
      (CausalityAnalyzer.running_mean (CausalityAnalyzer.typical_delay rel)
         count delay)
      count.
Proof.
  intros delay count Hcount. unfold CausalityAnalyzer.observe.
  by case_decide.
Qed.

Lemma learn_one (a : CausalityAnalyzer.t) (event prev_event : LogEvent.t) :
  let pair := (LogEvent.event_type_ prev_event, LogEvent.event_type_ event) in
  CausalityAnalyzer.learn a event [prev_event]
  = if decide (LogEvent.timestamp_ prev_event
               < LogEvent.timestamp_ event - CausalityAnalyzer.seconds 60)
    then a
    else CausalityAnalyzer.mk
           (<[pair := CausalityAnalyzer.observe
                        (default CausalityAnalyzer.fresh
                           (CausalityAnalyzer.relationships_ a !! pair))
                        prev_event event]>
              (CausalityAnalyzer.relationships_ a)).
Proof. reflexivity. Qed.

Lemma learn_app (a : CausalityAnalyzer.t) (event : LogEvent.t)
    (context1 context2 : list LogEvent.t) :
  CausalityAnalyzer.learn a event (context1 ++ context2)
  = CausalityAnalyzer.learn (CausalityAnalyzer.learn a event context1) event
      context2.
Proof. unfold CausalityAnalyzer.learn. apply foldl_app. Qed.

(** The strength after [n] sightings of a pair that was not known. *)
Lemma strength_steps (n : nat) :
  Nat.iter n (λ s, std_min 1 (s + 0.05)) 0.1%R = Rmin 1 (0.1 + 0.05 * INR n).
Proof.
  induction n as [|n IH].
  - simpl. rewrite Rmult_0_r, Rplus_0_r. unfold Rmin.
    destruct (Rle_dec 1 0.1); lra.
  - rewrite S_INR. simpl. rewrite IH, std_min_spec.
    pose proof (pos_INR n) as Hn.
    unfold Rmin. repeat destruct (Rle_dec _ _); lra.
Qed.

Lemma learn_first_sight (a : CausalityAnalyzer.t) (event prev_event : LogEvent.t) :
  let pair := (LogEvent.event_type_ prev_event, LogEvent.event_type_ event) in
  let delay := LogEvent.timestamp_ event - LogEvent.timestamp_ prev_event in
  (CausalityAnalyzer.relationships_ a !! pair = None
   ∨ ∃ rel, CausalityAnalyzer.relationships_ a !! pair = Some rel
            ∧ CausalityAnalyzer.observed_count rel = 0) →
  LogEvent.timestamp_ event - CausalityAnalyzer.seconds 60
  ≤ LogEvent.timestamp_ prev_event →
  - 2 ^ 63 ≤ delay < 2 ^ 63 →
  CausalityAnalyzer.relationships_ (CausalityAnalyzer.learn a event [prev_event])
    !! pair
  = Some (CausalityAnalyzer.mkRel (LogEvent.event_type_ prev_event)
            (LogEvent.event_type_ event) CausalityType.PRECEDES 0.15 delay 1).
Proof.
  intros pair delay Hnew Hwindow Hdelay. subst pair delay. rewrite learn_one.
  case_decide; [lia|]. simpl. rewrite lookup_insert_eq. f_equal.
  destruct Hnew as [->|(rel & -> & Hcount)]; simpl.
  - by apply observe_first.
  - by apply observe_first.
Qed.

Lemma learn_later_sight (a : CausalityAnalyzer.t) (event prev_event : LogEvent.t)
    (rel : CausalityAnalyzer.CausalRelationship) :
  let pair := (LogEvent.event_type_ prev_event, LogEvent.event_type_ event) in
  let delay := LogEvent.timestamp_ event - LogEvent.timestamp_ prev_event in
  let count := wrap64 (CausalityAnalyzer.observed_count rel + 1) in
  CausalityAnalyzer.relationships_ a !! pair = Some rel →
  CausalityAnalyzer.observed_count rel ≠ 0 →
  LogEvent.timestamp_ event - CausalityAnalyzer.seconds 60
  ≤ LogEvent.timestamp_ prev_event →
  CausalityAnalyzer.relationships_ (CausalityAnalyzer.learn a event [prev_event])
    !! pair
  = Some (CausalityAnalyzer.mkRel (CausalityAnalyzer.cause_event_type rel)
            (CausalityAnalyzer.effect_event_type rel)
            (CausalityAnalyzer.type rel)
            (std_min 1 (CausalityAnalyzer.strength rel + 0.05))
            (CausalityAnalyzer.running_mean
               (CausalityAnalyzer.typical_delay rel) count delay)
            count).
Proof.
  intros pair delay count Hrel Hcount Hwindow. subst pair delay count.
  rewrite learn_one.
  case_decide; [lia|]. simpl. rewrite lookup_insert_eq. f_equal.
  rewrite Hrel. simpl. by apply observe_again.
Qed.

Lemma learn_repeated (n : nat) (a : CausalityAnalyzer.t)
    (event prev_event : LogEvent.t) :
  let pair := (LogEvent.event_type_ prev_event, LogEvent.event_type_ event) in
  let delay := LogEvent.timestamp_ event - LogEvent.timestamp_ prev_event in
  CausalityAnalyzer.relationships_ a !! pair = None →
  LogEvent.timestamp_ event - CausalityAnalyzer.seconds 60
  ≤ LogEvent.timestamp_ prev_event →
  - 2 ^ 63 ≤ delay < 2 ^ 63 →
  (0 < n)%nat → Z.of_nat n < 2 ^ 64 →
  ∃ rel,
    CausalityAnalyzer.relationships_
      (CausalityAnalyzer.learn a event (replicate n prev_event)) !! pair
    = Some rel
    ∧ CausalityAnalyzer.type rel = CausalityType.PRECEDES
    ∧ CausalityAnalyzer.observed_count rel = Z.of_nat n
    ∧ CausalityAnalyzer.strength rel = Rmin 1 (0.1 + 0.05 * INR n).
Proof.
  intros pair delay Hnew Hwindow Hdelay Hn Hsmall. subst pair delay.
  induction n as [|n IH]; [lia|].
  destruct n as [|n].
  - eexists. split; [apply learn_first_sight; by auto|].
    simpl. split; [done|]. split; [done|].
    rewrite Rmult_1_r. unfold Rmin. destruct (Rle_dec _ _); lra.
  - destruct IH as (rel & Hrel & Htype & Hcount & Hstrength); [lia | lia |].
    rewrite replicate_S_end, learn_app.
    eexists. split.
    { apply learn_later_sight; [exact Hrel | lia | done]. }
    cbn [CausalityAnalyzer.type CausalityAnalyzer.observed_count
         CausalityAnalyzer.strength].
    split; [done|]. split.
    + rewrite Hcount, wrap64_small; lia.
    + rewrite Hstrength, std_min_spec, (S_INR (S n)).
      pose proof (pos_INR (S n)) as Hpos.
      unfold Rmin. repeat destruct (Rle_dec _ _); lra.
Qed.

(** C6, amended.  For a prior event inside the last 60 seconds, [learn]
    upserts the relationship keyed by the two event types.  A pair seen for
    the first time is initialised with PRECEDES, strength 0.1 and the time
    difference as delay, and the update that every sighting makes is applied
    to it at once: [observed_count] becomes 1 and the strength 0.15.  Every
    later sighting increments [observed_count], replaces the delay by the
    running mean (exact for non-negative delays that do not overflow) and
    the strength by min(1, strength + 0.05); after [n] sightings of a new
    pair the strength is min(1, 0.1 + 0.05 n).  Prior events older than 60
    seconds change nothing. *)
Theorem learn_upserts_relationship :
  (∀ (a : CausalityAnalyzer.t) (event prev_event : LogEvent.t),
     LogEvent.timestamp_ prev_event
     < LogEvent.timestamp_ event - CausalityAnalyzer.seconds 60 →
     CausalityAnalyzer.learn a event [prev_event] = a)
  ∧ (∀ (a : CausalityAnalyzer.t) (event prev_event : LogEvent.t),
       let pair := (LogEvent.event_type_ prev_event, LogEvent.event_type_ event) in
       let delay := LogEvent.timestamp_ event - LogEvent.timestamp_ prev_event in
       (CausalityAnalyzer.relationships_ a !! pair = None
        ∨ ∃ rel, CausalityAnalyzer.relationships_ a !! pair = Some rel
                 ∧ CausalityAnalyzer.observed_count rel = 0) →
       LogEvent.timestamp_ event - CausalityAnalyzer.seconds 60
       ≤ LogEvent.timestamp_ prev_event →
       - 2 ^ 63 ≤ delay < 2 ^ 63 →
       CausalityAnalyzer.relationships_
         (CausalityAnalyzer.learn a event [prev_event]) !! pair
       = Some (CausalityAnalyzer.mkRel (LogEvent.event_type_ prev_event)
                 (LogEvent.event_type_ event) CausalityType.PRECEDES 0.15
                 delay 1))
  ∧ (∀ (a : CausalityAnalyzer.t) (event prev_event : LogEvent.t)
       (rel : CausalityAnalyzer.CausalRelationship),
       let pair := (LogEvent.event_type_ prev_event, LogEvent.event_type_ event) in
       let delay := LogEvent.timestamp_ event - LogEvent.timestamp_ prev_event in
       let count := wrap64 (CausalityAnalyzer.observed_count rel + 1) in
       CausalityAnalyzer.relationships_ a !! pair = Some rel →
       CausalityAnalyzer.observed_count rel ≠ 0 →
       LogEvent.timestamp_ event - CausalityAnalyzer.seconds 60
       ≤ LogEvent.timestamp_ prev_event →
       CausalityAnalyzer.relationships_
         (CausalityAnalyzer.learn a event [prev_event]) !! pair
       = Some (CausalityAnalyzer.mkRel
                 (CausalityAnalyzer.cause_event_type rel)
                 (CausalityAnalyzer.effect_event_type rel)
                 (CausalityAnalyzer.type rel)
                 (Rmin 1 (CausalityAnalyzer.strength rel + 0.05))
                 (CausalityAnalyzer.running_mean
                    (CausalityAnalyzer.typical_delay rel) count delay)
                 count))
  ∧ (∀ typical_delay count delay : Z,
       0 ≤ typical_delay → 0 ≤ delay → 0 ≤ count →
       typical_delay * count + delay < 2 ^ 63 → count + 1 < 2 ^ 64 →
       CausalityAnalyzer.running_mean typical_delay (count + 1) delay
       = (typical_delay * count + delay) `div` (count + 1))
  ∧ (∀ (a : CausalityAnalyzer.t) (event : LogEvent.t)
       (context1 context2 : list LogEvent.t),
       CausalityAnalyzer.learn a event (context1 ++ context2)
       = CausalityAnalyzer.learn (CausalityAnalyzer.learn a event context1)
           event context2)
  ∧ (∀ (n : nat) (a : CausalityAnalyzer.t) (event prev_event : LogEvent.t),
       let pair := (LogEvent.event_type_ prev_event, LogEvent.event_type_ event) in
       let delay := LogEvent.timestamp_ event - LogEvent.timestamp_ prev_event in
       CausalityAnalyzer.relationships_ a !! pair = None →
       LogEvent.timestamp_ event - CausalityAnalyzer.seconds 60
       ≤ LogEvent.timestamp_ prev_event →
       - 2 ^ 63 ≤ delay < 2 ^ 63 →
       (0 < n)%nat → Z.of_nat n < 2 ^ 64 →
       ∃ rel,
         CausalityAnalyzer.relationships_
           (CausalityAnalyzer.learn a event (replicate n prev_event)) !! pair
         = Some rel
         ∧ CausalityAnalyzer.type rel = CausalityType.PRECEDES
         ∧ CausalityAnalyzer.observed_count rel = Z.of_nat n
         ∧ CausalityAnalyzer.strength rel = Rmin 1 (0.1 + 0.05 * INR n)).
Proof.
  split; [|split; [|split; [|split; [|split]]]].
  - intros a event prev_event Hold. rewrite learn_one. by case_decide.
  - apply learn_first_sight.
  - intros a event prev_event rel pair delay count.
    rewrite <- std_min_spec. by apply learn_later_sight.
  - apply running_mean_exact.
  - apply learn_app.
  - apply learn_repeated.
Qed.

(** C6 on the scenario of [Causality]: after the first sighting the strength
    is 0.15, not 0.1, and the count is 1. *)
Lemma learn_first_sight_strength :
  ∃ rel,
    CausalityAnalyzer.relationships_ Causality.learned
      !! ("database.slow", "api.timeout") = Some rel
    ∧ CausalityAnalyzer.type rel = CausalityType.PRECEDES
    ∧ CausalityAnalyzer.typical_delay rel = 1000000000
    ∧ CausalityAnalyzer.observed_count rel = 1
    ∧ CausalityAnalyzer.strength rel = 0.15%R
    ∧ CausalityAnalyzer.strength rel ≠ 0.1%R.
Proof.
  eexists. split.
  - unfold Causality.learned.
    apply (learn_first_sight CausalityAnalyzer.create Causality.effect
             Causality.cause).
    + by left.
    + simpl. unfold CausalityAnalyzer.seconds. lia.
    + simpl. done.
  - simpl. repeat split; try done. lra.
Qed.

(** ** Pattern matching *)

#[local] Instance by_score_trans : Transitive PatternEngine.by_score.
Proof. intros a b c. unfold PatternEngine.by_score. lra. Qed.

#[local] Instance by_score_total : Total PatternEngine.by_score.
Proof. intros a b. unfold PatternEngine.by_score. lra. Qed.

Section Patterns.
Context `{StdLib}.

(** The walk through the context never moves [current_step] up. *)
Lemma walk_le (steps : list SequentialPattern.Step)
    (context_rev : list LogEvent.t) :
  ∀ (current_step : nat) (current_time : Z),
    (SequentialPattern.walk steps context_rev current_step current_time
     ≤ current_step)%nat.
Proof.
  induction context_rev as [|it rest IH]; intros current_step current_time;
    simpl; [done|].
  case_decide; [done|].
  destruct (steps !! (current_step - 1)%nat) as [prev_step|]; [|done].
  case_decide; [done|].
  destruct (SequentialPattern.matches_step it prev_step).
  - case_decide; [lia|]. etrans; [apply IH | lia].
  - apply IH.
Qed.

(** A partial match of [k] remaining steps out of [n] scores below 0.5. *)
Lemma partial_score_bound (k n : nat) :
  (1 ≤ k < n)%nat →
  ((1 - INR k / INR n) * 0.5 <= 0.5 * (1 - 1 / INR n)
   ∧ 0.5 * (1 - 1 / INR n) < 0.5)%R.
Proof.
  intros [Hk Hn].
  assert (1 <= INR k)%R as Hk' by (change 1%R with (INR 1); by apply le_INR).
  assert (INR k < INR n)%R as Hn' by by apply lt_INR.
  assert (0 < / INR n)%R as Hinv by (apply Rinv_0_lt_compat; lra).
  unfold Rdiv. split; nra.
Qed.

(** What a sequential pattern can score. *)
Lemma sequential_scores (p : SequentialPattern.t) (event : LogEvent.t)
    (context : list LogEvent.t) :
  let n := length (SequentialPattern.steps_ p) in
  let r := (SequentialPattern.match_ p event context).1 in
  r = 0%R ∨ r = 1%R
  ∨ ((2 ≤ n)%nat
     ∧ ∃ k : nat, (1 ≤ k < n)%nat ∧ r = ((1 - INR k / INR n) * 0.5)%R).
Proof.
  intros n r. subst n r. unfold SequentialPattern.match_.
  destruct (last (SequentialPattern.steps_ p)) as [last_step|] eqn:Hlast;
    [|by left].
  destruct (SequentialPattern.matches_step event last_step); simpl; [|by left].
  case_decide as Hone; [by right; left|].
  case_decide as Hdone; [by right; left|].
  right. right.
  assert (length (SequentialPattern.steps_ p) ≠ 0)%nat as Hne.
  { intros Hzero. apply length_zero_iff_nil in Hzero.
    by rewrite Hzero in Hlast. }
  split; [lia|]. eexists. split; [|done].
  pose proof (walk_le (SequentialPattern.steps_ p) (rev context)
                (length (SequentialPattern.steps_ p) - 1)
                (LogEvent.timestamp_ event)). lia.
Qed.

Lemma sequential_above_half (p : SequentialPattern.t) (event : LogEvent.t)
    (context : list LogEvent.t) :
  (0.5 < (SequentialPattern.match_ p event context).1)%R →
  (SequentialPattern.match_ p event context).1 = 1%R.
Proof.
  intros Habove.
  destruct (sequential_scores p event context) as [Hr|[Hr|[_ (k & Hk & Hr)]]];
    [lra | done |].
  destruct (partial_score_bound k _ Hk). lra.
Qed.

(** The matcher recorded in a match is the one that [match_] returns. *)
Lemma collect_spec (patterns : list PatternMatcher.t) (event : LogEvent.t)
    (context : list LogEvent.t) :
  Forall
    (λ m, (0.5 < PatternEngine.score m)%R
          ∧ ∀ s, PatternEngine.pattern m = PatternMatcher.Sequential s →
                 PatternEngine.score m = 1%R)
    (PatternEngine.collect patterns event context).1.
Proof.
  induction patterns as [|p rest IH]; simpl; [done|].
  destruct (PatternMatcher.match_ p event context) as [x p'] eqn:Hmatch.
  destruct (PatternEngine.collect rest event context) as [matches rest'].
  simpl in *. destruct (dlt 0.5 x) eqn:Hx; simpl; [|done].
  apply dlt_spec in Hx. constructor; [|done]. simpl. split; [done|].
  intros s ->. destruct p as [sp|fp|rp]; simpl in Hmatch.
  - pose proof (sequential_above_half sp event context) as Hone.
    destruct (SequentialPattern.match_ sp event context) as [y sp'].
    injection Hmatch as <- _. by apply Hone.
  - by destruct (FrequencyPattern.match_ fp event context).
  - done.
Qed.

(** C10.  Every match that [match_patterns] returns has a score above 0.5,
    the matches are in descending order of score, and a match of a
    sequential pattern has the score 1 of a complete match: the score of a
    partial match with [k] of [n] steps remaining, (1 - k/n) * 0.5, is at
    most 0.5 * (1 - 1/n), which is below 0.5. *)
Theorem match_patterns_sorted_complete (e : PatternEngine.t)
    (event : LogEvent.t) (context : list LogEvent.t) :
  let matches := (PatternEngine.match_patterns e event context).1 in
  Forall (λ m, (0.5 < PatternEngine.score m)%R) matches
  ∧ StronglySorted
      (λ a b, (PatternEngine.score b <= PatternEngine.score a)%R) matches
  ∧ (∀ m s, m ∈ matches →
            PatternEngine.pattern m = PatternMatcher.Sequential s →
            PatternEngine.score m = 1%R)
  ∧ (∀ p : SequentialPattern.t,
       let n := length (SequentialPattern.steps_ p) in
       let r := (SequentialPattern.match_ p event context).1 in
       r = 0%R ∨ r = 1%R
       ∨ ((2 ≤ n)%nat
          ∧ ∃ k : nat, (1 ≤ k < n)%nat
                       ∧ r = ((1 - INR k / INR n) * 0.5)%R
                       ∧ (r <= 0.5 * (1 - 1 / INR n))%R
                       ∧ (0.5 * (1 - 1 / INR n) < 0.5)%R)).
Proof.
  intros matches. subst matches. unfold PatternEngine.match_patterns.
  pose proof (collect_spec (PatternEngine.patterns_ e) event context) as Hall.
  destruct (PatternEngine.collect _ event context) as [matches patterns].
  simpl in *.
  assert (Forall
            (λ m, (0.5 < PatternEngine.score m)%R
                  ∧ ∀ s, PatternEngine.pattern m = PatternMatcher.Sequential s →
                         PatternEngine.score m = 1%R)
            (merge_sort PatternEngine.by_score matches)) as Hsorted.
  { by rewrite merge_sort_Permutation. }
  split; [|split; [|split]].
  - eapply Forall_impl; [exact Hsorted|]. by intros m [? _].
  - apply (StronglySorted_merge_sort PatternEngine.by_score).
  - intros m s Hin. rewrite Forall_forall in Hsorted.
    by apply Hsorted.
  - intros p.
    destruct (sequential_scores p event context) as [Hr|[Hr|[Hn (k & Hk & Hr)]]];
      [by left | by right; left |].
    right. right. split; [done|]. exists k.
    destruct (partial_score_bound k _ Hk) as [Hle Hlt].
    repeat split; try done; try lia. by rewrite Hr.
Qed.

End Patterns.

(** ** Serialisation of an event *)

Lemma append_assoc (a b c : string) : (a +:+ b) +:+ c = a +:+ (b +:+ c).
Proof.
  induction a as [|ch a IH]; [done|].
  change (String ch ((a +:+ b) +:+ c) = String ch (a +:+ (b +:+ c))).
  by f_equal.
Qed.

Lemma append_nil_r (a : string) : a +:+ EmptyString = a.
Proof.
  induction a as [|ch a IH]; [done|].
  change (String ch (a +:+ EmptyString) = String ch a). by f_equal.
Qed.

Section Serialisation.
Context `{StdLib}.

(** [to_json] writes one object, whose members are those of [Json.fields];
    their keys follow [Json.key_order]. *)
Lemma to_json_fields (e : LogEvent.t) :
  LogEvent.to_json e = Json.object (Json.fields e)
  ∧ sublist (Json.fields e).*1 Json.key_order.
Proof.
  unfold LogEvent.to_json, Json.object, Json.fields, Json.key_order.
  destruct e as [type ts sev msg ents mets ctx tags st svc inst trace span
                   score labels inc id].
  cbn [LogEvent.event_type_ LogEvent.timestamp_ LogEvent.severity_
       LogEvent.message_ LogEvent.entities_ LogEvent.metrics_ LogEvent.context_
       LogEvent.service_name_ LogEvent.trace_id_ LogEvent.anomaly_score_
       LogEvent.incident_id_ LogEvent.event_id_].
  destruct (decide (msg = EmptyString)), (decide (svc = EmptyString)),
    (decide (trace = EmptyString)), ents as [|ent ents], mets as [|met mets],
    ctx as [|c ctx], inc as [inc|];
    (split;
     [cbn [app Json.members]; rewrite ?append_assoc, ?append_nil_r; reflexivity
     |cbn [app fmap list_fmap fst];
      repeat first [apply sublist_nil | apply sublist_skip | apply sublist_cons]]).
Qed.

(** C7.  [to_json] writes strings without escaping them, so two events with
    different entities can have the same JSON text: no parser recovers the
    entities of every event from what [to_json] wrote. *)
Theorem to_json_ambiguous :
  LogEvent.to_json Json.one_entity = LogEvent.to_json Json.two_entities
  ∧ LogEvent.entities_ Json.one_entity ≠ LogEvent.entities_ Json.two_entities
  ∧ ∀ parse : string → list (string * string),
      ¬ ∀ e, parse (LogEvent.to_json e) = LogEvent.entities_ e.
Proof.
  assert (LogEvent.to_json Json.one_entity = LogEvent.to_json Json.two_entities)
    as Hsame by reflexivity.
  split; [done|]. split; [done|].
  intros parse Hparse.
  pose proof (Hparse Json.one_entity) as H1.
  pose proof (Hparse Json.two_entities) as H2.
  rewrite Hsame, H2 in H1. done.
Qed.

End Serialisation.

(** ** Anomaly scores *)

Lemma tanh_bounds (x : R) : (-1 < tanh x < 1)%R.
Proof.
  unfold tanh, sinh, cosh.
  pose proof (exp_pos x) as Hp. pose proof (exp_pos (- x)) as Hn.
  assert (0 < exp x + exp (- x))%R as Hsum by lra.
  replace ((exp x - exp (- x)) / 2 / ((exp x + exp (- x)) / 2))%R
    with ((exp x - exp (- x)) / (exp x + exp (- x)))%R by (field; lra).
  split.
  - apply Rmult_lt_reg_r with (exp x + exp (- x))%R; [done|].
    unfold Rdiv. rewrite Rmult_assoc, Rinv_l by lra. lra.
  - apply Rmult_lt_reg_r with (exp x + exp (- x))%R; [done|].
    unfold Rdiv. rewrite Rmult_assoc, Rinv_l by lra. lra.
Qed.

(** [std::max] of a score in the unit interval and a number that is at most
    1 stays in the unit interval. *)
Lemma std_max_unit (a b : R) : in_unit a → (b <= 1)%R → in_unit (std_max a b).
Proof.
  unfold in_unit, std_max, dlt. intros Ha Hb. destruct (Rlt_dec a b); lra.
Qed.

Lemma std_min_unit (x : R) : (0 <= x)%R → in_unit (std_min 1 x).
Proof.
  unfold in_unit, std_min, dlt. intros Hx. destruct (Rlt_dec x 1); lra.
Qed.

Lemma normalize_le_1 (zscore threshold : R) :
  (ZScoreDetector.normalize zscore threshold <= 1)%R.
Proof.
  unfold ZScoreDetector.normalize.
  destruct (Req_dec_T threshold 0); [destruct (dlt 0 zscore); lra|].
  pose proof (tanh_bounds (zscore / threshold)). lra.
Qed.

Lemma zscore_loop_unit (d : ZScoreDetector.t) (metrics : list (string * R)) :
  ∀ max_zscore, in_unit max_zscore →
    in_unit (ZScoreDetector.score_loop d metrics max_zscore).
Proof.
  induction metrics as [|[name value] rest IH]; intros max_zscore Hmax; simpl;
    [done|].
  destruct (ZScoreDetector.metric_stats_ d !! name) as [stats|]; [|by apply IH].
  case_decide; [by apply IH|].
  destruct (dlt (ZScoreDetector.stddev stats) 1e-6).
  - destruct (dlt 1e-6 _); [unfold in_unit; lra | by apply IH].
  - apply IH, std_max_unit; [done | apply normalize_le_1].
Qed.

Lemma zscore_unit (d : ZScoreDetector.t) (event : LogEvent.t) :
  in_unit (ZScoreDetector.score d event).
Proof.
  unfold ZScoreDetector.score.
  destruct (LogEvent.metrics_ event); [unfold in_unit; lra|].
  apply zscore_loop_unit. unfold in_unit. lra.
Qed.

Lemma deviation_score_le_1 (dist threshold mad : R) :
  (MovingAverageDetector.deviation_score dist threshold mad <= 1)%R.
Proof.
  unfold MovingAverageDetector.deviation_score.
  destruct (Req_dec_T (threshold * mad) 0); [destruct (dlt 0 dist); lra|].
  pose proof (tanh_bounds (dist / (threshold * mad))). lra.
Qed.

Lemma moving_average_loop_unit (d : MovingAverageDetector.t)
    (metrics : list (string * R)) :
  ∀ max_deviation, in_unit max_deviation →
    in_unit (MovingAverageDetector.score_loop d metrics max_deviation).
Proof.
  induction metrics as [|[name value] rest IH]; intros max_deviation Hmax;
    simpl; [done|].
  destruct (MovingAverageDetector.metric_history_ d !! name) as [history|];
    [|by apply IH].
  case_decide; [by apply IH|].
  destruct (dlt _ 1e-6).
  - destruct (dlt 1e-6 _); [unfold in_unit; lra | by apply IH].
  - apply IH, std_max_unit; [done | apply deviation_score_le_1].
Qed.

Lemma moving_average_unit (d : MovingAverageDetector.t) (event : LogEvent.t) :
  in_unit (MovingAverageDetector.score d event).
Proof.
  unfold MovingAverageDetector.score.
  destruct (LogEvent.metrics_ event); [unfold in_unit; lra|].
  apply moving_average_loop_unit. unfold in_unit. lra.
Qed.

Lemma rate_unit (d : RateDetector.t) (event : LogEvent.t) :
  in_unit (RateDetector.score d event).1.
Proof.
  unfold RateDetector.score.
  destruct (RateDetector.timestamps _); simpl; [unfold in_unit; lra|].
  case_decide; simpl; [unfold in_unit; lra|].
  destruct (dlt (RateDetector.baseline_rate _) 0.1); simpl;
    [unfold in_unit; lra|].
  destruct (dlt 2 _) eqn:Hspike; simpl.
  { apply dlt_spec in Hspike. apply std_min_unit. lra. }
  destruct (dlt _ 0.5) eqn:Hdrop; simpl; [|unfold in_unit; lra].
  apply dlt_spec in Hdrop. apply std_min_unit. lra.
Qed.

Lemma max_element_unit (rest : list R) :
  ∀ first, in_unit first → Forall in_unit rest →
    in_unit (EnsembleDetector.max_element first rest).
Proof.
  induction rest as [|s rest IH]; intros first Hfirst Hrest; simpl; [done|].
  apply Forall_cons in Hrest as [Hs Hrest].
  apply IH; [|done]. by destruct (dlt first s).
Qed.

Lemma sum_scores_bounds (scores : list R) :
  ∀ acc, Forall in_unit scores →
    (acc <= foldl (λ sum s, sum + s) acc scores
     <= acc + INR (length scores))%R.
Proof.
  induction scores as [|s scores IH]; intros acc Hall.
  - simpl. lra.
  - apply Forall_cons in Hall as [[Hs0 Hs1] Hall].
    specialize (IH (acc + s)%R Hall).
    change (length (s :: scores)) with (S (length scores)). rewrite S_INR.
    simpl foldl. lra.
Qed.

Lemma weighted_sum_bounds (scored : list (R * R)) :
  ∀ sum weight_sum,
    Forall (λ sw, in_unit sw.1 ∧ 0 <= sw.2)%R scored →
    (0 <= sum <= weight_sum)%R →
    (0 <= foldl (λ sum sw, sum + sw.1 * sw.2) sum scored
     <= foldl (λ sum sw, sum + sw.2) weight_sum scored)%R.
Proof.
  induction scored as [|[s w] scored IH]; intros sum weight_sum Hall Hsum;
    [done|].
  apply Forall_cons in Hall as [[[Hs0 Hs1] Hw] Hall]. simpl in *.
  apply IH; [done|]. nra.
Qed.

Lemma ratio_unit (a b : R) : (0 <= a <= b)%R → in_unit (a / b).
Proof.
  intros [Ha Hb]. unfold in_unit.
  destruct (Req_dec_T b 0) as [->|Hne].
  - unfold Rdiv. rewrite Rinv_0. lra.
  - assert (0 < b)%R as Hpos by lra.
    assert (0 < / b)%R as Hinv by by apply Rinv_0_lt_compat.
    split.
    + unfold Rdiv. nra.
    + apply Rmult_le_reg_r with b; [done|].
      unfold Rdiv. rewrite Rmult_assoc, Rinv_l by done. lra.
Qed.

(** Every way of combining scores of the unit interval stays inside it;
    the weighted mean needs weights that are not negative. *)
Lemma combine_unit (method : CombineMethod.t) (scored : list (R * R)) :
  Forall (λ sw, in_unit sw.1) scored →
  (method = CombineMethod.WEIGHTED → Forall (λ sw, 0 <= sw.2)%R scored) →
  in_unit (EnsembleDetector.combine method scored).
Proof.
  intros Hscores Hweights.
  assert (Forall in_unit scored.*1) as Hfst.
  { apply Forall_fmap. eapply Forall_impl; [exact Hscores|]. done. }
  unfold EnsembleDetector.combine. destruct method.
  - destruct (scored.*1) as [|first rest] eqn:Hlist; [unfold in_unit; lra|].
    apply Forall_cons in Hfst as [Hfirst Hrest]. by apply max_element_unit.
  - apply ratio_unit. unfold EnsembleDetector.sum_scores.
    pose proof (sum_scores_bounds scored.*1 0 Hfst). lra.
  - destruct (dlt 0 _) eqn:Hpos; [|unfold in_unit; lra].
    apply ratio_unit, weighted_sum_bounds; [|lra].
    specialize (Hweights eq_refl).
    rewrite Forall_forall in Hscores, Hweights. apply Forall_forall.
    intros sw Hin. split; [by apply Hscores | by apply Hweights].
  - apply ratio_unit. split; [apply pos_INR|].
    apply le_INR, List.filter_length_le.
Qed.

(** Induction on a detector, with the hypothesis for every child of an
    ensemble. *)
Lemma detector_ind (P : AnomalyDetector.t → Prop) :
  (∀ z, P (AnomalyDetector.ZScore z)) →
  (∀ m, P (AnomalyDetector.MovingAverage m)) →
  (∀ r, P (AnomalyDetector.Rate r)) →
  (∀ method detectors,
     Forall (λ dw, P dw.1) detectors →
     P (AnomalyDetector.Ensemble method detectors)) →
  ∀ d, P d.
Proof.
  intros Hz Hm Hr He. fix IH 1. intros [z|m|r|method detectors]; [done..|].
  apply He. revert detectors. fix IHl 1.
  intros [|[child weight] rest]; constructor; [apply IH | apply IHl].
Qed.

Lemma well_weighted_ensemble (method : CombineMethod.t)
    (detectors : list (AnomalyDetector.t * R)) :
  well_weighted (AnomalyDetector.Ensemble method detectors)
  ↔ Forall (λ dw, well_weighted dw.1
                  ∧ (method = CombineMethod.WEIGHTED → 0 <= dw.2)%R)
           detectors.
Proof.
  induction detectors as [|[child weight] rest IH]; simpl.
  - split; [by constructor | done].
  - rewrite Forall_cons. simpl in IH. rewrite <- IH. simpl. tauto.
Qed.

Lemma score_well_weighted (event : LogEvent.t) (d : AnomalyDetector.t) :
  well_weighted d →
  in_unit (AnomalyDetector.score d event).1
  ∧ well_weighted (AnomalyDetector.score d event).2.
Proof.
  induction d as [z|m|r|method detectors IH] using detector_ind; intros Hok.
  - split; [apply zscore_unit | done].
  - split; [apply moving_average_unit | done].
  - simpl. pose proof (rate_unit r event) as Hunit.
    by destruct (RateDetector.score r event).
  - apply well_weighted_ensemble in Hok.
    cbn [AnomalyDetector.score].
    set (go := fix go (l : list (AnomalyDetector.t * R))
                 : list (R * AnomalyDetector.t * R) :=
           match l with
           | [] => []
           | (child, weight) :: rest =>
               let '(s, child') := AnomalyDetector.score child event in
               (s, child', weight) :: go rest
           end).
    assert (Forall (λ x, in_unit x.1.1 ∧ well_weighted x.1.2
                         ∧ (method = CombineMethod.WEIGHTED → 0 <= x.2)%R)
                   (go detectors)) as Hgo.
    { clear -IH Hok. induction detectors as [|[child weight] rest IHrest];
        simpl; [done|].
      apply Forall_cons in IH as [IHchild IH].
      apply Forall_cons in Hok as [[Hchild Hweight] Hok].
      simpl in *. destruct (IHchild Hchild) as [Hunit Hchild'].
      destruct (AnomalyDetector.score child event) as [s child'].
      constructor; [done | by apply IHrest]. }
    destruct detectors as [|dw detectors]; [split; [unfold in_unit; simpl; lra | done]|].
    simpl fst. simpl snd. split.
    + apply combine_unit.
      * apply Forall_fmap. eapply Forall_impl; [exact Hgo|]. by intros x [? _].
      * intros Hmethod. apply Forall_fmap.
        eapply Forall_impl; [exact Hgo|]. intros x (_ & _ & Hw). by apply Hw.
    + apply well_weighted_ensemble, Forall_fmap.
      eapply Forall_impl; [exact Hgo|]. by intros x (_ & ? & ?).
Qed.

Lemma train_well_weighted (event : LogEvent.t) (d : AnomalyDetector.t) :
  well_weighted d → well_weighted (AnomalyDetector.train d event).
Proof.
  induction d as [z|m|r|method detectors IH] using detector_ind; intros Hok;
    [done..|].
  apply well_weighted_ensemble in Hok. cbn [AnomalyDetector.train].
  apply well_weighted_ensemble.
  induction detectors as [|[child weight] rest IHrest]; [done|].
  apply Forall_cons in IH as [IHchild IH].
  apply Forall_cons in Hok as [[Hchild Hweight] Hok].
  constructor; [split; [by apply IHchild | done] | by apply IHrest].
Qed.

Lemma create_default_well_weighted : well_weighted DetectorFactory.create_default.
Proof. simpl. repeat split; done. Qed.

Section Pipeline.
Context `{StdLib}.

(** The processed event of the anomaly stage, and the detector it leaves. *)
Lemma anomaly_stage_event (l : Logger.t) (event : LogEvent.t) :
  (Logger.anomaly_stage l event).1.2
  = match Logger.anomaly_detector_ l, LogEvent.metrics_ event with
    | Some d, _ :: _ =>
        LogEvent.anomaly_score event (AnomalyDetector.score d event).1
    | _, _ => event
    end.
Proof.
  unfold Logger.anomaly_stage.
  destruct (Logger.anomaly_detector_ l) as [d|]; [|done].
  destruct (LogEvent.metrics_ event); [done|].
  destruct (AnomalyDetector.score d event) as [s d1].
  by destruct (dle 0.7 s).
Qed.

Lemma anomaly_stage_detector (l : Logger.t) (event : LogEvent.t) :
  (∀ d, Logger.anomaly_detector_ l = Some d → well_weighted d) →
  ∀ d, Logger.anomaly_detector_ (Logger.anomaly_stage l event).1.1 = Some d →
       well_weighted d.
Proof.
  intros Hok. unfold Logger.anomaly_stage.
  destruct (Logger.anomaly_detector_ l) as [d0|] eqn:Hd;
    [|simpl; intros; congruence].
  destruct (LogEvent.metrics_ event);
    [simpl; intros d Hd'; apply Hok; congruence|].
  destruct (score_well_weighted event d0 (Hok d0 eq_refl)) as [_ Hscore].
  destruct (AnomalyDetector.score d0 event) as [s d1].
  destruct (dle 0.7 s); simpl; intros d [= <-]; by apply train_well_weighted.
Qed.

(** The event that [process_event] appends to the history is the processed
    event of the anomaly stage. *)
Lemma process_event_history (now : Z) (l : Logger.t) (event : LogEvent.t) :
  (0 < Logger.max_history_size_ l)%nat →
  (Logger.process_event now l event).2 = Ok tt →
  last (Logger.event_history_ (Logger.process_event now l event).1)
  = Some (Logger.anomaly_stage l event).1.2.
Proof.
  intros Hmax. unfold Logger.process_event.
  destruct (anomaly_stage_frame l event) as (_ & _ & Hh1 & Hm1).
  destruct (Logger.anomaly_stage l event) as [[l1 processed] [[]|e1]];
    simpl in *; [|done].
  destruct (pattern_stage_frame l1 processed) as (_ & _ & Hh2 & Hm2 & _).
  destruct (Logger.pattern_stage l1 processed) as [l2 matched]. simpl in *.
  destruct (correlation_stage_frame l2 processed) as (_ & _ & Hh3 & Hm3 & _).
  destruct (Logger.correlation_stage l2 processed) as [l3 correlations].
  simpl in *.
  destruct (incident_stage_frame now l3 processed correlations matched)
    as (_ & Hh4 & Hm4 & _).
  destruct (Logger.incident_stage now l3 processed correlations matched)
    as [l4 [[]|e4]]; simpl in *; [|done].
  destruct (invoke_all _ processed).2 as [[]|e5]; simpl; [|done].
  intros _. rewrite Hm4, Hm3, Hm2, Hm1.
  case_decide as Hfull; [|apply last_snoc].
  destruct (Logger.event_history_ l4) as [|front rest].
  - simpl in Hfull. lia.
  - simpl. apply last_snoc.
Qed.

Lemma process_event_detector (now : Z) (l : Logger.t) (event : LogEvent.t) :
  (∀ d, Logger.anomaly_detector_ l = Some d → well_weighted d) →
  ∀ d, Logger.anomaly_detector_ (Logger.process_event now l event).1 = Some d →
       well_weighted d.
Proof.
  intros Hok. unfold Logger.process_event.
  pose proof (anomaly_stage_detector l event Hok) as H1.
  destruct (Logger.anomaly_stage l event) as [[l1 processed] [[]|e1]];
    simpl in *; [|done].
  destruct (pattern_stage_frame l1 processed) as (_ & _ & _ & _ & H2).
  destruct (Logger.pattern_stage l1 processed) as [l2 matched]. simpl in *.
  destruct (correlation_stage_frame l2 processed) as (_ & _ & _ & _ & H3).
  destruct (Logger.correlation_stage l2 processed) as [l3 correlations].
  simpl in *.
  destruct (incident_stage_frame now l3 processed correlations matched)
    as (_ & _ & _ & H4).
  destruct (Logger.incident_stage now l3 processed correlations matched)
    as [l4 [[]|e4]]; simpl in *;
    [|intros d Hd; apply H1; congruence].
  destruct (invoke_all _ processed).2 as [[]|e5]; simpl;
    intros d Hd; apply H1; congruence.
Qed.

(** Without an incident manager and without listeners, an event that has
    no metric goes through [process_event] without an exception. *)
Lemma process_event_quiet (now : Z) (l : Logger.t) (event : LogEvent.t) :
  LogEvent.metrics_ event = [] →
  Logger.incident_manager_ l = None →
  Logger.event_callbacks_ l = [] →
  (Logger.process_event now l event).2 = Ok tt.
Proof.
  intros Hmetrics Hmanager Hcallbacks. unfold Logger.process_event.
  destruct (anomaly_stage_frame l event) as (Hc1 & Hi1 & _).
  assert ((Logger.anomaly_stage l event).2 = Ok tt) as Hr1.
  { unfold Logger.anomaly_stage. rewrite Hmetrics.
    by destruct (Logger.anomaly_detector_ l). }
  destruct (Logger.anomaly_stage l event) as [[l1 processed] r1].
  simpl in *. subst r1.
  destruct (pattern_stage_frame l1 processed) as (Hc2 & Hi2 & _).
  destruct (Logger.pattern_stage l1 processed) as [l2 matched]. simpl in *.
  destruct (correlation_stage_frame l2 processed) as (Hc3 & Hi3 & _).
  destruct (Logger.correlation_stage l2 processed) as [l3 correlations].
  simpl in *.
  destruct (incident_stage_frame now l3 processed correlations matched)
    as (Hc4 & _).
  unfold Logger.incident_stage in *.
  rewrite Hi3, Hi2, Hi1, Hmanager in *. simpl in *.
  by rewrite Hc3, Hc2, Hc1, Hcallbacks.
Qed.

End Pipeline.

(** C3, amended.  The Z-score, moving-average and rate detectors score in
    [0,1], and so does an ensemble of them in the modes MAX, AVERAGE and
    VOTING, and in the mode WEIGHTED when no weight is negative; the default
    detector of the logger is such an ensemble, and scoring and training
    keep it one.  For an event that has a metric, processed by a logger
    with a detector, the anomaly stage sets a score in [0,1]; an event
    without metrics, or a logger without a detector, leaves the score the
    event was emitted with.  The event that [process_event] appends to the
    history is the processed event of the anomaly stage: no later stage
    changes it. *)
Theorem anomaly_score_in_unit_interval :
  (∀ (d : AnomalyDetector.t) (event : LogEvent.t),
     well_weighted d →
     in_unit (AnomalyDetector.score d event).1
     ∧ well_weighted (AnomalyDetector.score d event).2
     ∧ well_weighted (AnomalyDetector.train d event))
  ∧ well_weighted DetectorFactory.create_default
  ∧ (∀ (method : CombineMethod.t) (scored : list (R * R)),
       Forall (λ sw, in_unit sw.1) scored →
       (method = CombineMethod.WEIGHTED → Forall (λ sw, 0 <= sw.2)%R scored) →
       in_unit (EnsembleDetector.combine method scored))
  ∧ (∀ (H : StdLib) (now : Z) (l : Logger.t) (event : LogEvent.t),
       let processed := (Logger.anomaly_stage l event).1.2 in
       let l' := (Logger.process_event now l event).1 in
       (∀ d, Logger.anomaly_detector_ l = Some d → well_weighted d) →
       (is_Some (Logger.anomaly_detector_ l) → LogEvent.metrics_ event ≠ [] →
        in_unit (LogEvent.anomaly_score_ processed))
       ∧ (Logger.anomaly_detector_ l = None ∨ LogEvent.metrics_ event = [] →
          processed = event)
       ∧ ((0 < Logger.max_history_size_ l)%nat →
          (Logger.process_event now l event).2 = Ok tt →
          last (Logger.event_history_ l') = Some processed)
       ∧ (∀ d, Logger.anomaly_detector_ l' = Some d → well_weighted d)).
Proof.
  split; [|split; [|split]].
  - intros d event Hok. destruct (score_well_weighted event d Hok).
    split; [done|]. split; [done | by apply train_well_weighted].
  - apply create_default_well_weighted.
  - apply combine_unit.
  - intros H now l event processed l' Hok. subst processed l'.
    rewrite anomaly_stage_event. split; [|split; [|split]].
    + intros [d Hd] Hmetrics. rewrite Hd.
      destruct (LogEvent.metrics_ event); [done|]. simpl.
      by apply score_well_weighted, Hok.
    + intros [-> | ->]; [done|]. by destruct (Logger.anomaly_detector_ l).
    + rewrite <- anomaly_stage_event. apply process_event_history.
    + by apply process_event_detector.
Qed.

(** The score of [Constant.probe] after the thirty observations of
    [Constant.thirty]. *)
Lemma zscore_thirty_probe :
  ZScoreDetector.score (zscore_trained 3 Constant.thirty) Constant.probe = 1%R.
Proof.
  rewrite (zscore_trained_constant 3 "latency_ms" 50)
    by (apply Forall_replicate; reflexivity).
  unfold ZScoreDetector.score. simpl.
  rewrite lookup_singleton_eq. simpl.
  rewrite stddev_constant, dlt_true by lra.
  rewrite dlt_true; [done|].
  replace (50 + 1 - 50)%R with 1%R by ring. rewrite Rabs_R1. lra.
Qed.

(** C3, two ways out of the unit interval: an event without metrics keeps
    the score 5 it was emitted with through the anomaly stage and into the
    history, and the WEIGHTED ensemble of [Weighted] scores -1. *)
Lemma anomaly_score_outside_unit_interval :
  is_Some (Logger.anomaly_detector_ Unscored.logger)
  ∧ LogEvent.anomaly_score_ Unscored.event = 5%R
  ∧ (Logger.anomaly_stage Unscored.logger Unscored.event).1.2
    = Unscored.event
  ∧ last (Logger.event_history_
            (Logger.process_event (H := Sample.stdlib) 1000000000
               Unscored.logger Unscored.event).1)
    = Some Unscored.event
  ∧ (AnomalyDetector.score Weighted.ensemble Constant.probe).1 = (-1)%R.
Proof.
  split; [by eexists|]. split; [done|]. split; [done|]. split.
  - rewrite process_event_history; [done | simpl; lia |].
    by apply process_event_quiet.
  - unfold Weighted.ensemble. simpl. rewrite zscore_thirty_probe.
    unfold EnsembleDetector.combine. simpl.
    replace (ZScoreDetector.score (ZScoreDetector.create 3) Constant.probe)
      with 0%R by (unfold ZScoreDetector.score; simpl; by rewrite lookup_empty).
    rewrite dlt_true by lra. field.
Qed.

(** ** Operations on stored incidents *)

Lemma wrap64_sub_l (x y : Z) : wrap64 (wrap64 x - y) = wrap64 (x - y).
Proof. unfold wrap64. apply Zminus_mod_idemp_l. Qed.

Lemma resolve_incident_state (now : Z) (m : IncidentManager.t)
    (id resolution : string) (incident : Incident.t) :
  IncidentManager.incidents_ m !! id = Some incident →
  (IncidentManager.resolve_incident now m id resolution).1
  = IncidentManager.with_incidents m
      (<[id := Incident.set_resolved now resolution incident]>
         (IncidentManager.incidents_ m))
      (IncidentManager.mkStats
         (IncidentManager.total_created (IncidentManager.stats_ m))
         (wrap64 (IncidentManager.currently_open (IncidentManager.stats_ m) - 1))
         (wrap64 (IncidentManager.resolved (IncidentManager.stats_ m) + 1))
         (IncidentManager.deduplicated (IncidentManager.stats_ m))).
Proof.
  intros Hfind. unfold IncidentManager.resolve_incident. rewrite Hfind. simpl.
  by destruct (IncidentManager.notify_resolved _ _ _ _).
Qed.

(** X1.  [resolve_incident] on an id that is not stored changes nothing and
    calls nobody.  On a stored id it marks the incident RESOLVED with the
    time of the call and the resolution as root cause, whatever its status
    was, leaves every other incident as it is, and moves the counters: one
    less open, one more resolved (modulo 2^64), also when an integration or
    a listener throws afterwards.  The status is not looked at, so a second
    resolution of the same incident counts again. *)
Theorem resolve_incident_effect (now : Z) (m : IncidentManager.t)
    (id resolution : string) :
  let result := IncidentManager.resolve_incident now m id resolution in
  let stats := IncidentManager.stats_ m in
  let stats' := IncidentManager.stats_ result.1 in
  match IncidentManager.incidents_ m !! id with
  | None => result = (m, Ok tt)
  | Some incident =>
      IncidentManager.get_incident result.1 id
      = Some (Incident.set_resolved now resolution incident)
      ∧ (∀ other, other ≠ id →
           IncidentManager.get_incident result.1 other
           = IncidentManager.get_incident m other)
      ∧ IncidentManager.currently_open stats'
        = wrap64 (IncidentManager.currently_open stats - 1)
      ∧ IncidentManager.resolved stats'
        = wrap64 (IncidentManager.resolved stats + 1)
      ∧ IncidentManager.total_created stats'
        = IncidentManager.total_created stats
      ∧ (∀ now' resolution',
           let again :=
             IncidentManager.resolve_incident now' result.1 id resolution' in
           IncidentManager.get_incident again.1 id
           = Some (Incident.set_resolved now' resolution' incident)
           ∧ IncidentManager.currently_open (IncidentManager.stats_ again.1)
             = wrap64 (IncidentManager.currently_open stats - 2)
           ∧ IncidentManager.resolved (IncidentManager.stats_ again.1)
             = wrap64 (IncidentManager.resolved stats + 2))
  end.
Proof.
  intros result stats stats'. subst result stats stats'.
  destruct (IncidentManager.incidents_ m !! id) as [incident|] eqn:Hfind.
  - rewrite (resolve_incident_state now m id resolution incident Hfind).
    unfold IncidentManager.get_incident. simpl.
    split; [apply lookup_insert_eq|].
    split; [by intros other Hne; apply lookup_insert_ne|].
    split; [done|]. split; [done|]. split; [done|].
    intros now' resolution'.
    rewrite (resolve_incident_state now' _ id resolution'
               (Incident.set_resolved now resolution incident))
      by (simpl; apply lookup_insert_eq).
    simpl. split; [by rewrite lookup_insert_eq|].
    rewrite wrap64_sub_l, wrap64_add_l. split; f_equal; lia.
  - unfold IncidentManager.resolve_incident. by rewrite Hfind.
Qed.

(** X2.  [auto_resolve_stale_incidents] does nothing when auto-resolution
    is switched off.  Otherwise it keeps the stored ids, resolves every
    incident that is OPEN or INVESTIGATING and was created before the
    cutoff (now minus the resolution timeout), and leaves every other
    incident as it is: afterwards no incident that is OPEN or INVESTIGATING
    is older than the cutoff, and an incident in another status is never
    resolved by age. *)
Theorem auto_resolve_stale_incidents_effect (now : Z) (now_at : string → Z)
    (m : IncidentManager.t) :
  let m' := IncidentManager.auto_resolve_stale_incidents now now_at m in
  let cutoff := now - IncidentManager.resolution_timeout (IncidentManager.config_ m) in
  (IncidentManager.enable_auto_resolution (IncidentManager.config_ m) = false →
   m' = m)
  ∧ (IncidentManager.enable_auto_resolution (IncidentManager.config_ m) = true →
     (∀ id, is_Some (IncidentManager.incidents_ m' !! id)
            ↔ is_Some (IncidentManager.incidents_ m !! id))
     ∧ (∀ id i, IncidentManager.incidents_ m !! id = Some i →
                open_status (Incident.status i) →
                Incident.created_at i < cutoff →
                IncidentManager.incidents_ m' !! id
                = Some (Incident.set_resolved (now_at id)
                          "Auto-resolved: no further activity" i))
     ∧ (∀ id i, IncidentManager.incidents_ m !! id = Some i →
                ¬ open_status (Incident.status i)
                ∨ cutoff ≤ Incident.created_at i →
                IncidentManager.incidents_ m' !! id = Some i)
     ∧ (∀ id i', IncidentManager.incidents_ m' !! id = Some i' →
                 open_status (Incident.status i') →
                 cutoff ≤ Incident.created_at i')).
Proof.
  intros m' cutoff. subst m'.
  unfold IncidentManager.auto_resolve_stale_incidents.
  split; [by intros ->|]. intros ->. simpl. fold cutoff.
  assert (∀ i, IncidentManager.stale cutoff i = true
               ↔ open_status (Incident.status i)
                 ∧ Incident.created_at i < cutoff) as Hstale.
  { intros i. unfold IncidentManager.stale, open_status.
    rewrite andb_true_iff, orb_true_iff, !bool_decide_eq_true. done. }
  split; [|split; [|split]].
  - intros id. rewrite map_lookup_imap.
    destruct (IncidentManager.incidents_ m !! id); simpl;
      split; intros [? ?]; by eauto.
  - intros id i Hfind Hopen Hold. rewrite map_lookup_imap, Hfind. simpl.
    by rewrite (proj2 (Hstale i)).
  - intros id i Hfind Hkeep. rewrite map_lookup_imap, Hfind. simpl.
    destruct (IncidentManager.stale cutoff i) eqn:Hs; [|done].
    apply Hstale in Hs as [Hopen Hold]. destruct Hkeep; [done | lia].
  - intros id i'. rewrite map_lookup_imap.
    destruct (IncidentManager.incidents_ m !! id) as [i|]; simpl; [|done].
    destruct (IncidentManager.stale cutoff i) eqn:Hs.
    + intros [= <-] [Hopen|Hopen]; simpl in Hopen; done.
    + intros [= <-] Hopen. destruct (decide (cutoff ≤ Incident.created_at i));
        [done|]. assert (IncidentManager.stale cutoff i = true) as Hs'
        by (apply Hstale; split; [done | lia]). congruence.
Qed.

(** X3.  The severity [calculate_severity] gives never goes down when the
    anomaly score, the number of matched patterns or the number of
    correlated events goes up, whatever the thresholds are.  It is CRITICAL
    exactly at scores from the critical threshold on; two matched patterns
    give HIGH at least, five correlated events MEDIUM at least; below all
    thresholds, with fewer than two patterns and fewer than five correlated
    events, it is LOW. *)
Theorem calculate_severity_monotone (m : IncidentManager.t) :
  let config := IncidentManager.config_ m in
  (∀ (s1 s2 : R) (p1 p2 c1 c2 : nat),
     (s1 <= s2)%R → (p1 ≤ p2)%nat → (c1 ≤ c2)%nat →
     (severity_rank (IncidentManager.calculate_severity m s1 p1 c1)
      ≤ severity_rank (IncidentManager.calculate_severity m s2 p2 c2))%nat)
  ∧ (∀ (s : R) (p c : nat),
       IncidentManager.calculate_severity m s p c = IncidentSeverity.CRITICAL
       ↔ (IncidentManager.critical_threshold config <= s)%R)
  ∧ (∀ (s : R) (p c : nat),
       (2 ≤ p)%nat →
       (2 ≤ severity_rank (IncidentManager.calculate_severity m s p c))%nat)
  ∧ (∀ (s : R) (p c : nat),
       (5 ≤ c)%nat →
       (1 ≤ severity_rank (IncidentManager.calculate_severity m s p c))%nat)
  ∧ (∀ (s : R) (p c : nat),
       (s < IncidentManager.critical_threshold config)%R →
       (s < IncidentManager.high_threshold config)%R →
       (s < IncidentManager.medium_threshold config)%R →
       (p < 2)%nat → (c < 5)%nat →
       IncidentManager.calculate_severity m s p c = IncidentSeverity.LOW).
Proof.
  intros config. subst config. unfold IncidentManager.calculate_severity.
  split; [|split; [|split; [|split]]].
  - intros s1 s2 p1 p2 c1 c2 Hs Hp Hc.
    repeat match goal with
           | |- context [dle ?a ?b] =>
               let H := fresh "Hd" in
               destruct (dle a b) eqn:H;
               [apply dle_spec in H | apply not_true_iff_false in H;
                                      rewrite dle_spec in H]
           | |- context [bool_decide ?P] =>
               destruct (bool_decide_reflect P)
           end; simpl; try lia; exfalso; try lra; lia.
  - intros s p c.
    destruct (dle _ s) eqn:Hd; [apply dle_spec in Hd; done|].
    apply not_true_iff_false in Hd. rewrite dle_spec in Hd.
    split; [|done]. by repeat case_match.
  - intros s p c Hp. rewrite (bool_decide_eq_true_2 (2 ≤ p)%nat) by done.
    rewrite orb_true_r. destruct (dle _ s); simpl; lia.
  - intros s p c Hc. rewrite (bool_decide_eq_true_2 (5 ≤ c)%nat) by done.
    rewrite orb_true_r. repeat case_match; simpl; lia.
  - intros s p c H1 H2 H3 Hp Hc.
    rewrite !dle_false by lra.
    rewrite !bool_decide_eq_false_2 by lia. done.
Qed.

(** ** The ids of incidents *)

Lemma digits_value_pretty_go (x : N) (s : string) :
  digits_value 0 (pretty_N_go x s) = digits_value x s.
Proof.
  revert s. induction (N.lt_wf_0 x) as [x _ IH]. intros s.
  destruct (decide (x = 0)%N) as [->|Hx]; [by rewrite pretty_N_go_0|].
  rewrite pretty_N_go_step by lia.
  rewrite IH by (apply N.div_lt; lia). simpl. f_equal.
  assert (N_of_ascii (pretty_N_char (x `mod` 10)) - 48 = x `mod` 10)%N as ->.
  { pose proof (N.mod_upper_bound x 10 ltac:(done)) as Hlt.
    assert (x `mod` 10 = 0 ∨ x `mod` 10 = 1 ∨ x `mod` 10 = 2 ∨ x `mod` 10 = 3
            ∨ x `mod` 10 = 4 ∨ x `mod` 10 = 5 ∨ x `mod` 10 = 6
            ∨ x `mod` 10 = 7 ∨ x `mod` 10 = 8 ∨ x `mod` 10 = 9)%N
      as Hcases by (generalize dependent (x `mod` 10)%N; intros; lia).
    destruct Hcases as [->|[->|[->|[->|[->|[->|[->|[->|[->| ->]]]]]]]]];
      reflexivity. }
  pose proof (N.div_mod x 10). lia.
Qed.

Lemma digits_value_show_Z (z : Z) :
  0 ≤ z → digits_value 0 (show_Z z) = Z.to_N z.
Proof.
  intros Hz. unfold show_Z, pretty, pretty_Z.
  destruct z as [|p|p]; [done | | lia].
  unfold pretty, pretty_positive, pretty, pretty_N.
  rewrite decide_False by done. by rewrite digits_value_pretty_go.
Qed.

Lemma digits_value_pad_left (k : nat) (s : string) :
  digits_value 0 (pad_left k s) = digits_value 0 s.
Proof. induction k as [|k IH]; [done|]. simpl. exact IH. Qed.

Lemma incident_id_of_inj (a b : Z) :
  0 ≤ a → 0 ≤ b → incident_id_of a = incident_id_of b → a = b.
Proof.
  intros Ha Hb Heq. unfold incident_id_of in Heq.
  assert (∀ s, "INC-" +:+ s
               = String "I" (String "N" (String "C" (String "-" s)))) as Hpre
    by reflexivity.
  rewrite !Hpre in Heq. injection Heq as Heq.
  apply (f_equal (digits_value 0)) in Heq. unfold setw6 in Heq.
  rewrite !digits_value_pad_left, !digits_value_show_Z in Heq by done. lia.
Qed.

Lemma generate_incident_id_fresh (m : IncidentManager.t) :
  ids_issued m →
  IncidentManager.incidents_ m !! incident_id_of (IncidentManager.next_incident_id_ m)
  = None.
Proof.
  intros [Hnext Hids].
  destruct (IncidentManager.incidents_ m !! _) as [i|] eqn:Hfind; [|done].
  apply Hids in Hfind as (n & Hn & Heq).
  apply incident_id_of_inj in Heq; lia.
Qed.

Lemma ids_issued_insert (m : IncidentManager.t) (incident : Incident.t)
    (stats : IncidentManager.Stats) :
  ids_issued m →
  IncidentManager.next_incident_id_ m < 2 ^ 64 - 1 →
  ids_issued
    (IncidentManager.with_incidents
       (IncidentManager.generate_incident_id m).2
       (<[incident_id_of (IncidentManager.next_incident_id_ m) := incident]>
          (IncidentManager.incidents_ m))
       stats).
Proof.
  intros [Hnext Hids] Hmax. split; simpl.
  - rewrite wrap64_small; lia.
  - rewrite wrap64_small by lia. intros id i.
    destruct (decide (incident_id_of (IncidentManager.next_incident_id_ m) = id))
      as [<-|Hne].
    + intros _. exists (IncidentManager.next_incident_id_ m). split; [lia | done].
    + rewrite lookup_insert_ne by done. intros Hfind.
      apply Hids in Hfind as (n & Hn & Heq). exists n. split; [lia | done].
Qed.

Lemma ids_issued_same_keys (m m' : IncidentManager.t) :
  ids_issued m →
  IncidentManager.next_incident_id_ m ≤ IncidentManager.next_incident_id_ m' →
  (∀ id, is_Some (IncidentManager.incidents_ m' !! id) →
         is_Some (IncidentManager.incidents_ m !! id)) →
  ids_issued m'.
Proof.
  intros [Hnext Hids] Hle Hkeys. split; [lia|]. intros id i Hfind.
  destruct (Hkeys id) as [i0 Hfind0]; [by eauto|].
  apply Hids in Hfind0 as (n & Hn & Heq). exists n. split; [lia | done].
Qed.

Lemma evaluate_event_stored_state `{StdLib} (now : Z) (m : IncidentManager.t)
    (event : LogEvent.t) (correlations : list Correlation.t)
    (matched_patterns : list string) :
  let id := (IncidentManager.generate_incident_id m).1 in
  let m1 := (IncidentManager.generate_incident_id m).2 in
  let incident :=
    IncidentManager.build_incident now m1 id event correlations matched_patterns in
  IncidentManager.should_create m event correlations matched_patterns = true →
  ¬ (IncidentManager.enable_deduplication (IncidentManager.config_ m) = true
     ∧ is_Some (IncidentManager.find_duplicate m1 incident)) →
  (IncidentManager.evaluate_event now m event correlations matched_patterns).1
  = (IncidentManager.store m1 incident).1.
Proof.
  intros id m1 incident Hyes Hno.
  rewrite evaluate_event_stored by done. fold id m1 incident.
  by destruct (IncidentManager.store m1 incident) as [m2 [[]|e]].
Qed.

Section IncidentIds.
Context `{StdLib}.

(** X4.  Incident ids are never reused.  Different counter values print as
    different ids, a new manager has issued none, and as long as every
    stored incident sits under an id the manager issued (and the counter is
    below 2^64 - 1) the id taken next is not stored yet.  So
    [create_incident] and [evaluate_event] add at most one incident and
    never replace one; [create_incident] adds exactly one.  All operations
    of the manager keep the stored ids among the issued ones. *)
Theorem incident_ids_never_reused (m : IncidentManager.t) :
  ids_issued m →
  IncidentManager.next_incident_id_ m < 2 ^ 64 - 1 →
  let fresh := incident_id_of (IncidentManager.next_incident_id_ m) in
  (∀ a b : Z, 0 ≤ a → 0 ≤ b → incident_id_of a = incident_id_of b → a = b)
  ∧ (IncidentManager.generate_incident_id m).1 = fresh
  ∧ IncidentManager.get_incident m fresh = None
  ∧ (∀ now title description severity event_ids,
       let result :=
         IncidentManager.create_incident now m title description severity
           event_ids in
       ids_issued result.1
       ∧ is_Some (IncidentManager.get_incident result.1 fresh)
       ∧ size (IncidentManager.incidents_ result.1)
         = S (size (IncidentManager.incidents_ m))
       ∧ ∀ id i, IncidentManager.get_incident m id = Some i →
                 IncidentManager.get_incident result.1 id = Some i)
  ∧ (∀ now event correlations matched_patterns,
       let result :=
         IncidentManager.evaluate_event now m event correlations
           matched_patterns in
       ids_issued result.1
       ∧ (size (IncidentManager.incidents_ result.1)
          ≤ S (size (IncidentManager.incidents_ m)))%nat
       ∧ ∀ id i, IncidentManager.get_incident m id = Some i →
                 IncidentManager.get_incident result.1 id = Some i)
  ∧ (∀ id status, ids_issued (IncidentManager.update_status m id status))
  ∧ (∀ now id resolution,
       ids_issued (IncidentManager.resolve_incident now m id resolution).1)
  ∧ (∀ now now_at,
       ids_issued (IncidentManager.auto_resolve_stale_incidents now now_at m)).
Proof.
  intros Hids Hmax fresh.
  pose proof (generate_incident_id_fresh m Hids) as Hfresh. fold fresh in Hfresh.
  unfold IncidentManager.get_incident.
  split; [exact incident_id_of_inj|]. split; [done|]. split; [done|].
  split; [|split; [|split; [|split]]].
  - intros now title description severity event_ids. cbv zeta.
    unfold IncidentManager.create_incident, IncidentManager.generate_incident_id.
    cbv beta iota zeta.
    change ("INC-" +:+ setw6 (show_Z (IncidentManager.next_incident_id_ m)))
      with fresh.
    set (m1 := IncidentManager.with_next_id m _).
    set (incident := Incident.mk fresh title _ _ _ _ _ _ _ _ _ _ _ _ _ _ _).
    destruct (store_state m1 incident) as (Hinc & _ & _ & Hcfg & Hnext).
    assert ((let '(m2, r) := IncidentManager.store m1 incident in
             match r with
             | Ok _ => (m2, Ok incident)
             | Throw e => (m2, Throw e)
             end).1 = (IncidentManager.store m1 incident).1) as ->.
    { by destruct (IncidentManager.store m1 incident) as [m2 [[]|e]]. }
    simpl in Hinc. fold fresh in Hinc. rewrite Hinc.
    split; [|split; [|split]].
    + pose proof (ids_issued_insert m incident
                    (IncidentManager.stats_ m) Hids Hmax) as Hnew.
      eapply ids_issued_same_keys; [exact Hnew | simpl; rewrite Hnext; done |].
      simpl. fold fresh. intros id. by rewrite Hinc.
    + rewrite lookup_insert_eq. by eauto.
    + by rewrite map_size_insert_None.
    + intros id i Hfind. rewrite lookup_insert_ne; [done|].
      intros <-. congruence.
  - intros now event correlations matched_patterns. cbv zeta.
    destruct (IncidentManager.should_create m event correlations
                matched_patterns) eqn:Hcreate.
    2: { rewrite evaluate_event_below by done. simpl.
         split; [done|]. split; [lia | done]. }
    set (m1 := (IncidentManager.generate_incident_id m).2).
    set (incident :=
           IncidentManager.build_incident now m1 fresh event correlations
             matched_patterns).
    destruct (decide (IncidentManager.enable_deduplication
                        (IncidentManager.config_ m) = true
                      ∧ is_Some (IncidentManager.find_duplicate m1 incident)))
      as [[Hdedup Hdup]|Hno].
    + rewrite evaluate_event_suppressed by done. simpl.
      split; [|split; [lia | done]].
      eapply ids_issued_same_keys; [exact Hids | simpl | simpl; done].
      rewrite wrap64_small; destruct Hids; lia.
    + rewrite evaluate_event_stored_state by done.
      destruct (store_state m1 incident) as (Hinc & _ & _ & Hcfg & Hnext).
      fold m1. change (IncidentManager.build_incident now m1 _ event
                         correlations matched_patterns) with incident.
      simpl in Hinc. rewrite Hinc.
      split; [|split].
      * pose proof (ids_issued_insert m incident
                      (IncidentManager.stats_ m) Hids Hmax) as Hnew.
        eapply ids_issued_same_keys; [exact Hnew | simpl; rewrite Hnext; done |].
        simpl. intros id. by rewrite Hinc.
      * by rewrite map_size_insert_None.
      * intros id i Hfind. rewrite lookup_insert_ne; [done|].
        intros <-. congruence.
  - intros id status. unfold IncidentManager.update_status.
    destruct (IncidentManager.incidents_ m !! id) as [i|] eqn:Hfind; [|done].
    eapply ids_issued_same_keys; [exact Hids | simpl; lia |]. simpl.
    intros id'. destruct (decide (id = id')) as [<-|Hne]; [by eauto|].
    by rewrite lookup_insert_ne.
  - intros now id resolution.
    destruct (IncidentManager.incidents_ m !! id) as [i|] eqn:Hfind.
    + rewrite (resolve_incident_state now m id resolution i Hfind).
      eapply ids_issued_same_keys; [exact Hids | simpl; lia |]. simpl.
      intros id'. destruct (decide (id = id')) as [<-|Hne]; [by eauto|].
      by rewrite lookup_insert_ne.
    + unfold IncidentManager.resolve_incident. by rewrite Hfind.
  - intros now now_at. unfold IncidentManager.auto_resolve_stale_incidents.
    destruct (IncidentManager.enable_auto_resolution _); simpl; [|done].
    eapply ids_issued_same_keys; [exact Hids | simpl; lia |]. simpl.
    intros id. rewrite map_lookup_imap.
    destruct (IncidentManager.incidents_ m !! id); simpl; [by eauto|].
    by intros [? ?].
Qed.

(** X5.  The operations that set or leave [resolved_at] keep the record
    consistent: if in every stored incident [resolved_at] is set exactly
    when the status is RESOLVED and is not before [created_at], this is
    still so after [evaluate_event], [create_incident], and, when the clock
    has not gone back behind the creation of the incidents concerned, after
    [resolve_incident] and [auto_resolve_stale_incidents]. *)
Theorem resolved_at_kept_consistent (m : IncidentManager.t) :
  all_resolved_consistent m →
  (∀ now event correlations matched_patterns,
     all_resolved_consistent
       (IncidentManager.evaluate_event now m event correlations
          matched_patterns).1)
  ∧ (∀ now title description severity event_ids,
       all_resolved_consistent
         (IncidentManager.create_incident now m title description severity
            event_ids).1)
  ∧ (∀ now id resolution,
       (∀ i, IncidentManager.incidents_ m !! id = Some i →
             Incident.created_at i ≤ now) →
       all_resolved_consistent
         (IncidentManager.resolve_incident now m id resolution).1)
  ∧ (∀ now now_at,
       (∀ id i, IncidentManager.incidents_ m !! id = Some i →
                Incident.created_at i ≤ now_at id) →
       all_resolved_consistent
         (IncidentManager.auto_resolve_stale_incidents now now_at m)).
Proof.
  intros Hall. split; [|split; [|split]].
  - intros. by apply evaluate_event_consistent.
  - intros. by apply create_incident_consistent.
  - intros. by apply resolve_incident_consistent.
  - intros. by apply auto_resolve_consistent.
Qed.

End IncidentIds.

Lemma ids_issued_create (config : IncidentManager.Config) :
  ids_issued (IncidentManager.create config).
Proof. split; [simpl; lia|]. intros id i. simpl. by rewrite lookup_empty. Qed.

Lemma all_resolved_consistent_create (config : IncidentManager.Config) :
  all_resolved_consistent (IncidentManager.create config).
Proof. intros id i. simpl. by rewrite lookup_empty. Qed.

(** X4 on the manager of [Lifecycle]: the incident created first is still
    there after a second one is created. *)
Lemma incident_ids_never_reused_witness :
  IncidentManager.get_incident Lifecycle.manager0 (incident_id_of 1) = None
  ∧ size (IncidentManager.incidents_ Lifecycle.manager1) = 1%nat
  ∧ ids_issued Lifecycle.manager1.
Proof.
  pose proof (incident_ids_never_reused (H := Sample.stdlib) Lifecycle.manager0
                (ids_issued_create _)) as Hfresh.
  destruct Hfresh as (_ & _ & Hnone & Hcreate & _); [simpl; lia|].
  split; [exact Hnone|].
  destruct (Hcreate 1000000000 "disk full" "/var is at 100%"
              IncidentSeverity.HIGH [42]) as (Hids & _ & Hsize & _).
  split; [exact Hsize | exact Hids].
Defined.

(** X5 on the manager of [Lifecycle]: resolving its incident one second
    after its creation. *)
Lemma resolved_at_kept_consistent_witness :
  all_resolved_consistent
    (IncidentManager.resolve_incident 2000000000 Lifecycle.manager1
       "INC-000001" "disk replaced").1.
Proof.
  pose proof (resolved_at_kept_consistent (H := Sample.stdlib)
                Lifecycle.manager0 (all_resolved_consistent_create _))
    as (_ & Hcreate & _).
  pose proof (resolved_at_kept_consistent (H := Sample.stdlib)
                Lifecycle.manager1
                (Hcreate 1000000000 "disk full" "/var is at 100%"
                   IncidentSeverity.HIGH [42])) as (_ & _ & Hresolve & _).
  apply Hresolve. intros i.
  assert (IncidentManager.incidents_ Lifecycle.manager1 !! "INC-000001"
          = Some (Incident.mk "INC-000001" "disk full" "/var is at 100%"
                    IncidentSeverity.HIGH IncidentStatus.OPEN 1000000000 None
                    [42] None None 0 0%nat 0%nat ∅ [] None None)) as ->.
  { unfold Lifecycle.manager1. simpl. apply lookup_insert_eq. }
  intros [= <-]. simpl. lia.
Defined.

(** ** The queue, sampling and the history of the logger *)





(** X7.  Sampling never drops what matters.  With
    [sample_anomalies_always] an event of severity ERROR or above, or with
    an anomaly score of at least 0.7, is always kept, and with a sampling
    rate of 1 or more every event is kept; any other event is kept exactly
    when the random draw is below the sampling rate.  [emit] counts an
    event in [events_total] exactly when the logger is initialised and the
    event is kept, and otherwise leaves the logger as it is. *)
Theorem sampling_keeps_errors (l : Logger.t) (event : LogEvent.t) (draw : R) :
  let config := Logger.config_ l in
  let important :=
    Severity.value Severity.ERROR ≤ Severity.value (LogEvent.severity_ event)
    ∨ (0.7 <= LogEvent.anomaly_score_ event)%R in
  (Logger.sample_anomalies_always config = true → important →
   Logger.should_sample l event draw = true)
  ∧ ((1 <= Logger.sampling_rate config)%R →
     Logger.should_sample l event draw = true)
  ∧ (Logger.sample_anomalies_always config = false ∨ ¬ important →
     (Logger.sampling_rate config < 1)%R →
     (Logger.should_sample l event draw = true
      ↔ (draw < Logger.sampling_rate config)%R))
  ∧ (Logger.initialized_ l = true →
     Logger.should_sample l event draw = true →
     Logger.events_total (Logger.stats_ (Logger.emit l event draw))
     = wrap64 (Logger.events_total (Logger.stats_ l) + 1))
  ∧ (Logger.initialized_ l = false ∨ Logger.should_sample l event draw = false →
     Logger.emit l event draw = l).
Proof.
  intros config important. subst config important.
  unfold Logger.should_sample, LogEvent.is_anomalous, LogEvent.is_anomalous_at.
  split; [|split; [|split; [|split]]].
  - intros -> [Hsev|Hscore]; simpl.
    + rewrite (bool_decide_eq_true_2 _ Hsev). by rewrite orb_true_r.
    + by rewrite (dle_true _ _ Hscore).
  - intros Hrate. rewrite (dle_true _ _ Hrate). by destruct (_ && _).
  - intros Hplain Hrate.
    assert (Logger.sample_anomalies_always (Logger.config_ l)
            && (dle 0.7 (LogEvent.anomaly_score_ event)
                || bool_decide (Severity.value Severity.ERROR
                                ≤ Severity.value (LogEvent.severity_ event)))
            = false) as ->.
    { destruct Hplain as [->|Hno]; [done|].
      apply andb_false_intro2, orb_false_intro.
      - apply not_true_iff_false. rewrite dle_spec. tauto.
      - apply bool_decide_eq_false_2. tauto. }
    rewrite dle_false by done. apply dlt_spec.
  - intros Hinit Hkeep. unfold Logger.emit, Logger.should_sample,
      LogEvent.is_anomalous, LogEvent.is_anomalous_at.
    rewrite Hinit, Hkeep. simpl.
    destruct (Logger.g_event_queue l) as [q|]; [|done].
    by destruct (EventQueue.push q event) as [[] q'].
  - intros [Hinit|Hdrop]; unfold Logger.emit, Logger.should_sample,
      LogEvent.is_anomalous, LogEvent.is_anomalous_at.
    + by rewrite Hinit.
    + rewrite Hdrop. by destruct (Logger.initialized_ l).
Qed.

Section History.
Context `{StdLib}.

Lemma history_stage_bounded (l : Logger.t) (processed : LogEvent.t) :
  history_bounded l → history_bounded (Logger.history_stage l processed).
Proof.
  unfold history_bounded, Logger.history_stage. simpl.
  rewrite length_app. simpl. intros Hl. case_decide as Hfull.
  - destruct (Logger.event_history_ l ++ [processed]) eqn:Heq; simpl.
    + lia.
    + apply (f_equal length) in Heq. rewrite length_app in Heq. simpl in Heq.
      lia.
  - rewrite length_app. simpl. lia.
Qed.

Lemma process_event_history_cases (now : Z) (l : Logger.t) (event : LogEvent.t) :
  let l' := (Logger.process_event now l event).1 in
  let history := Logger.event_history_ l ++ [(Logger.anomaly_stage l event).1.2] in
  Logger.max_history_size_ l' = Logger.max_history_size_ l
  ∧ (Logger.event_history_ l' = Logger.event_history_ l
     ∨ Logger.event_history_ l'
       = if decide (Logger.max_history_size_ l < length history)%nat
         then tail history else history).
Proof.
  unfold Logger.process_event.
  destruct (anomaly_stage_frame l event) as (_ & _ & Hh1 & Hm1).
  destruct (Logger.anomaly_stage l event) as [[l1 processed] [[]|e1]];
    simpl in *; [|by auto].
  destruct (pattern_stage_frame l1 processed) as (_ & _ & Hh2 & Hm2 & _).
  destruct (Logger.pattern_stage l1 processed) as [l2 matched]. simpl in *.
  destruct (correlation_stage_frame l2 processed) as (_ & _ & Hh3 & Hm3 & _).
  destruct (Logger.correlation_stage l2 processed) as [l3 correlations].
  simpl in *.
  destruct (incident_stage_frame now l3 processed correlations matched)
    as (_ & Hh4 & Hm4 & _).
  destruct (Logger.incident_stage now l3 processed correlations matched)
    as [l4 [[]|e4]]; simpl in *;
    [|split; [congruence | left; congruence]].
  assert (Logger.event_history_ l4 = Logger.event_history_ l) as Hh
    by congruence.
  assert (Logger.max_history_size_ l4 = Logger.max_history_size_ l) as Hm
    by congruence.
  destruct (invoke_all _ processed).2 as [[]|e5]; simpl;
    rewrite Hh, Hm; (split; [done | by right]).
Qed.

(** X8.  The history never outgrows its bound.  [process_event] leaves
    [max_history_size_] alone and either leaves the history as it is (when
    a listener threw before the history was written) or appends the
    processed event and, if that makes the history longer than the bound,
    drops its oldest event.  So a history within the bound stays within the
    bound, through [process_event], [worker_step] and [emit] alike. *)
Theorem event_history_bounded (now : Z) (l : Logger.t) (event : LogEvent.t)
    (draw : R) :
  history_bounded l →
  let l' := (Logger.process_event now l event).1 in
  let history :=
    Logger.event_history_ l ++ [(Logger.anomaly_stage l event).1.2] in
  Logger.max_history_size_ l' = Logger.max_history_size_ l
  ∧ (Logger.event_history_ l' = Logger.event_history_ l
     ∨ Logger.event_history_ l'
       = if decide (Logger.max_history_size_ l < length history)%nat
         then tail history else history)
  ∧ history_bounded l'
  ∧ history_bounded (Logger.worker_step now l).1
  ∧ history_bounded (Logger.emit l event draw).
Proof.
  intros Hl l' history. subst l' history.
  assert (∀ l0 event0, history_bounded l0 →
            history_bounded (Logger.process_event now l0 event0).1) as Hstep.
  { intros l0 event0 Hl0.
    destruct (process_event_history_cases now l0 event0) as [Hm [Hh|Hh]];
      unfold history_bounded in *; rewrite Hm, Hh; [done|].
    clear Hh. destruct (decide _) as [Hfull|Hfull].
    - destruct (Logger.event_history_ l0 ++ _) eqn:Heq; simpl; [lia|].
      apply (f_equal length) in Heq. rewrite length_app in Heq. simpl in *.
      lia.
    - rewrite length_app in *. simpl in *. lia. }
  destruct (process_event_history_cases now l event) as [Hm Hh].
  split; [done|]. split; [done|]. split; [by apply Hstep|]. split.
  - unfold Logger.worker_step.
    destruct (Logger.g_event_queue l) as [q|]; [|done].
    destruct (EventQueue.pop q) as [[front|] q']; [|done].
    by apply Hstep.
  - unfold Logger.emit. destruct (Logger.initialized_ l); [|done]. simpl.
    destruct (Logger.should_sample l event draw); [|done]. simpl.
    destruct (Logger.g_event_queue l) as [q|]; [|done].
    by destruct (EventQueue.push q event) as [[] q'].
Qed.

(** X9.  An event emitted on an initialised logger whose queue is empty and
    has room is the one the next turn of a worker processes, on a logger
    that has counted it and whose queue is empty again. *)
Theorem emit_then_worker_step (now : Z) (l : Logger.t) (q : EventQueue.t)
    (event : LogEvent.t) (draw : R) :
  Logger.initialized_ l = true →
  Logger.should_sample l event draw = true →
  Logger.g_event_queue l = Some q →
  EventQueue.queue_ q = [] →
  (0 < EventQueue.max_size_ q)%nat →
  let stats := Logger.stats_ l in
  Logger.worker_step now (Logger.emit l event draw)
  = Logger.process_event now
      (Logger.with_stats l
         (Logger.mkStats (wrap64 (Logger.events_total stats + 1))
            (Logger.events_dropped stats) (Logger.anomalies_detected stats)
            (Logger.patterns_matched stats) (Logger.correlations_found stats)
            (Logger.incidents_created stats)))
      event.
Proof.
  intros Hinit Hkeep Hq Hempty Hroom stats. subst stats.
  unfold Logger.emit. rewrite Hinit, Hkeep. simpl. rewrite Hq.
  unfold EventQueue.push. rewrite Hempty. simpl.
  rewrite decide_False by lia. simpl.
  unfold Logger.worker_step. simpl. f_equal.
  destruct l as [? ? ? ? ? ? ? ? ? ? ? ? ? ? queue]. simpl in *.
  destruct q as [queue0 max_size shutdown]. simpl in *. subst. done.
Qed.

End History.

Lemma event_history_bounded_witness :
  history_bounded
    (Logger.process_event (H := Sample.stdlib) 1000000000 Unscored.logger
       Unscored.event).1.
Proof.
  refine (proj1 (proj2 (proj2
            (event_history_bounded (H := Sample.stdlib) 1000000000
               Unscored.logger Unscored.event 0 _)))).
  unfold history_bounded. simpl. lia.
Defined.

Lemma emit_then_worker_step_witness :
  Logger.worker_step (H := Sample.stdlib) 1000000000
    (Logger.emit Unscored.logger Unscored.event 0)
  = Logger.process_event (H := Sample.stdlib) 1000000000
      (Logger.with_stats Unscored.logger (Logger.mkStats (wrap64 (0 + 1)) 0 0 0 0 0))
      Unscored.event.
Proof.
  apply (emit_then_worker_step (H := Sample.stdlib) 1000000000 Unscored.logger
           (EventQueue.create (Z.to_nat 8192)) Unscored.event 0).
  - reflexivity.
  - apply should_sample_full_rate. simpl. lra.
  - reflexivity.
  - reflexivity.
  - simpl. lia.
Defined.

(** ** What the detectors learn *)

Section DetectorTraining.
Local Open Scope R_scope.

Lemma sum_list_cons (x : R) (l : list R) : sum_list (x :: l) = x + sum_list l.
Proof. done. Qed.

Lemma sum_list_app (l k : list R) : sum_list (l ++ k) = sum_list l + sum_list k.
Proof. induction l as [|x l IH]; simpl; [lra|]. rewrite IH. lra. Qed.

Lemma sum_list_deviations (a : R) (l : list R) :
  sum_list ((λ x, (x - a) * (x - a)) <$> l)
  = sum_list ((λ x, x * x) <$> l) - 2 * a * sum_list l + INR (length l) * a * a.
Proof.
  induction l as [|x l IH]; [simpl; lra|].
  rewrite !fmap_cons. change (length (x :: l)) with (S (length l)).
  rewrite S_INR, !sum_list_cons, IH. lra.
Qed.

(** One step of Welford's algorithm on the statistics of a non-empty list
    gives the statistics of the list with the new value. *)
Lemma update_appends (l : list R) (v : R) :
  l ≠ [] → (Z.of_nat (length l) + 1 < 2 ^ 64)%Z →
  ZScoreDetector.update
    (ZScoreDetector.mkStats (mean_of l) (squared_deviations l)
       (Z.of_nat (length l))) v
  = ZScoreDetector.mkStats (mean_of (l ++ [v])) (squared_deviations (l ++ [v]))
      (Z.of_nat (length (l ++ [v]))).
Proof.
  intros Hne Hsmall. unfold ZScoreDetector.update. simpl.
  rewrite wrap64_small by lia.
  assert (IZR (Z.of_nat (length l) + 1) = INR (length l) + 1) as ->.
  { by rewrite plus_IZR, <- INR_IZR_INZ. }
  assert (0 < INR (length l)) as Hn.
  { apply lt_0_INR. destruct l; [done | simpl; lia]. }
  assert (mean_of (l ++ [v]) = mean_of l + (v - mean_of l) / (INR (length l) + 1))
    as Hmean.
  { unfold mean_of. rewrite sum_list_app, length_app, plus_INR. simpl.
    field. lra. }
  f_equal.
  - by rewrite Hmean.
  - rewrite <- Hmean. unfold squared_deviations.
    rewrite !sum_list_deviations, fmap_app, !sum_list_app, length_app, plus_INR.
    simpl. rewrite Hmean. unfold mean_of.
    generalize dependent (INR (length l)). intros n Hn _.
    generalize (sum_list ((λ x : R, x * x) <$> l)) (sum_list l).
    intros q s. field. lra.
  - rewrite length_app. simpl. lia.
Qed.

Lemma update_first (v : R) :
  ZScoreDetector.update ZScoreDetector.fresh v
  = ZScoreDetector.mkStats (mean_of [v]) (squared_deviations [v]) 1.
Proof.
  unfold ZScoreDetector.update, ZScoreDetector.fresh, squared_deviations,
    mean_of. simpl. rewrite wrap64_small by done.
  change (IZR (0 + 1)) with 1. f_equal; field.
Qed.

Lemma zscore_train_lookup (name : string) (e : LogEvent.t)
    (d : ZScoreDetector.t) :
  ZScoreDetector.metric_stats_ (ZScoreDetector.train d e) !! name
  = welford (ZScoreDetector.metric_stats_ d !! name)
      (filter (λ kv : string * R, kv.1 = name) (LogEvent.metrics_ e)).*2.
Proof.
  unfold ZScoreDetector.train. revert d.
  induction (LogEvent.metrics_ e) as [|[k v] rest IH]; intros d; [done|].
  simpl. rewrite IH. simpl. destruct (decide (k = name)) as [->|Hne].
  - rewrite filter_cons_True by done. simpl. by rewrite lookup_insert_eq.
  - rewrite filter_cons_False by done. by rewrite lookup_insert_ne.
Qed.

Lemma zscore_trained_lookup (name : string) (events : list LogEvent.t)
    (d : ZScoreDetector.t) :
  ZScoreDetector.metric_stats_ (foldl ZScoreDetector.train d events) !! name
  = welford (ZScoreDetector.metric_stats_ d !! name) (observations name events).
Proof.
  revert d. induction events as [|e events IH]; intros d; [done|].
  simpl. rewrite IH, zscore_train_lookup. unfold observations, welford.
  simpl. by rewrite foldl_app.
Qed.

Lemma welford_statistics (values : list R) :
  (Z.of_nat (length values) < 2 ^ 64)%Z →
  welford None values
  = match values with
    | [] => None
    | _ => Some (ZScoreDetector.mkStats (mean_of values)
                   (squared_deviations values) (Z.of_nat (length values)))
    end.
Proof.
  induction values as [|v values IH] using rev_ind; intros Hsmall; [done|].
  rewrite length_app in Hsmall. simpl in Hsmall.
  unfold welford in *. rewrite foldl_app. simpl. rewrite IH by lia.
  destruct values as [|v0 values].
  - simpl. by rewrite update_first.
  - destruct ((v0 :: values) ++ [v]) eqn:Heq; [by destruct values|].
    rewrite <- Heq. simpl default. by rewrite update_appends by (done || lia).
Qed.

(** X10.  Z-score training is Welford's algorithm, and it is exact: after a
    new detector was trained with a list of events, what it holds for a
    metric is the number of values the events gave that metric, their mean
    and the sum of their squared deviations from the mean (nothing if no
    event had the metric); the deviation it scores against is the sample
    standard deviation. *)
Theorem zscore_train_is_welford (threshold : R) (name : string)
    (events : list LogEvent.t) :
  let values := observations name events in
  let d := zscore_trained threshold events in
  (Z.of_nat (length values) < 2 ^ 64)%Z →
  ZScoreDetector.metric_stats_ d !! name
  = match values with
    | [] => None
    | _ => Some (ZScoreDetector.mkStats (mean_of values)
                   (squared_deviations values) (Z.of_nat (length values)))
    end
  ∧ ((2 ≤ length values)%nat →
     ∃ stats, ZScoreDetector.metric_stats_ d !! name = Some stats
              ∧ ZScoreDetector.stddev stats
                = sqrt (squared_deviations values / (INR (length values) - 1))).
Proof.
  intros values d Hsmall. subst d. unfold zscore_trained.
  rewrite zscore_trained_lookup. simpl. rewrite lookup_empty.
  fold values. clearbody values. rewrite welford_statistics by done.
  split; [done|]. intros Hmany.
  destruct values as [|v values]; [simpl in Hmany; lia|].
  eexists. split; [done|]. unfold ZScoreDetector.stddev. simpl ZScoreDetector.count.
  simpl in Hmany. rewrite decide_True by lia. simpl ZScoreDetector.m2.
  by rewrite minus_IZR, <- INR_IZR_INZ.
Qed.

Lemma zscore_train_is_welford_witness :
  ZScoreDetector.metric_stats_ (zscore_trained 3 Constant.thirty) !! "latency_ms"
  = Some (ZScoreDetector.mkStats
            (mean_of (observations "latency_ms" Constant.thirty))
            (squared_deviations (observations "latency_ms" Constant.thirty))
            30).
Proof.
  refine (proj1 (zscore_train_is_welford 3 "latency_ms" Constant.thirty _)).
  vm_compute. reflexivity.
Defined.

(** *** The moving average *)







(** *** The rate detector *)


Lemma drop_old_length (cutoff : Z) (ts : list Z) :
  (length (drop_old cutoff ts) ≤ length ts)%nat.
Proof.
  induction ts as [|t ts IH]; simpl; [done|]. case_decide; simpl; lia.
Qed.

Lemma window_seconds_pos (d : RateDetector.t) :
  (0 < RateDetector.window_duration_ d)%Z → 0 < RateDetector.window_seconds d.
Proof.
  intros Hw. unfold RateDetector.window_seconds.
  apply Rdiv_lt_0_compat; [|lra]. by apply IZR_lt.
Qed.

Lemma rate_bound_mono (k : nat) (w : R) : 0 < w → INR k / w <= INR (S k) / w.
Proof.
  intros Hw. rewrite S_INR. apply Rmult_le_compat_r; [|lra].
  left. by apply Rinv_0_lt_compat.
Qed.

Lemma rate_score_state (d : RateDetector.t) (event : LogEvent.t) :
  let event_type := LogEvent.event_type_ event in
  let stats := default RateDetector.fresh (RateDetector.event_rates_ d !! event_type) in
  (RateDetector.score d event).2
  = RateDetector.mk
      (<[event_type :=
           RateDetector.mkRateStats
             (drop_old (LogEvent.timestamp_ event - RateDetector.window_duration_ d)
                (RateDetector.timestamps stats))
             (RateDetector.baseline_rate stats)]> (RateDetector.event_rates_ d))
      (RateDetector.window_duration_ d).
Proof.
  intros event_type stats. unfold RateDetector.score. fold event_type stats.
  destruct stats as [[|t ts] baseline]; simpl; [done|].
  by repeat case_match.
Qed.

(** X12.  The rate detector needs a warm-up.  For a detector with a
    positive window that was trained at most [k] times with events of a
    type, the baseline of that type is at most [k] events per window:
    scoring keeps this, training with an event of the type turns [k] into
    [k + 1], training with other events changes nothing for the type.  As
    long as [k] is below a tenth of the window in seconds the baseline is
    below 0.1 and every event of the type scores 0; with the default
    window of 60 seconds that is the case for the first five events. *)
Theorem rate_detector_warm_up (k : nat) (event_type : string)
    (d : RateDetector.t) (event : LogEvent.t) :
  (0 < RateDetector.window_duration_ d)%Z →
  rate_warming_up k event_type d →
  rate_warming_up k event_type (RateDetector.score d event).2
  ∧ RateDetector.window_duration_ (RateDetector.score d event).2
    = RateDetector.window_duration_ d
  ∧ RateDetector.window_duration_ (RateDetector.train d event)
    = RateDetector.window_duration_ d
  ∧ (LogEvent.event_type_ event = event_type →
     rate_warming_up (S k) event_type (RateDetector.train d event))
  ∧ (LogEvent.event_type_ event ≠ event_type →
     rate_warming_up k event_type (RateDetector.train d event))
  ∧ (LogEvent.event_type_ event = event_type →
     INR k < 0.1 * RateDetector.window_seconds d →
     (RateDetector.score d event).1 = 0).
Proof.
  intros Hw Hk. pose proof (window_seconds_pos d Hw) as Hsec.
  assert (0 <= INR k / RateDetector.window_seconds d) as Hzero.
  { apply Rmult_le_pos; [apply pos_INR|]. left. by apply Rinv_0_lt_compat. }
  unfold rate_warming_up in *.
  split; [|split; [|split; [|split; [|split]]]].
  - rewrite rate_score_state. simpl.
    destruct (decide (LogEvent.event_type_ event = event_type)) as [Heq|Hne].
    + rewrite Heq, lookup_insert_eq. simpl.
      pose proof (drop_old_length
                    (LogEvent.timestamp_ event - RateDetector.window_duration_ d)
                    (RateDetector.timestamps
                       (default RateDetector.fresh
                          (RateDetector.event_rates_ d !! event_type)))) as Hlen.
      change (RateDetector.window_seconds (RateDetector.mk _ _))
        with (RateDetector.window_seconds d).
      destruct (RateDetector.event_rates_ d !! event_type) as [stats|];
        simpl in *; [destruct Hk; split; [lia | done] | split; [lia | done]].
    + by rewrite lookup_insert_ne.
  - by rewrite rate_score_state.
  - done.
  - intros Heq. unfold RateDetector.train. rewrite Heq. simpl.
    rewrite lookup_insert_eq. simpl.
    set (stats := default RateDetector.fresh
                    (RateDetector.event_rates_ d !! event_type)).
    assert ((length (RateDetector.timestamps stats) ≤ k)%nat
            ∧ RateDetector.baseline_rate stats
              <= INR k / RateDetector.window_seconds d) as [Hk1 Hk2].
    { subst stats. destruct (RateDetector.event_rates_ d !! event_type);
        simpl; [done|]. split; [lia | done]. }
    rewrite length_app. simpl. split; [lia|].
    change (RateDetector.window_seconds (RateDetector.mk _ _))
      with (RateDetector.window_seconds d).
    set (ts := RateDetector.timestamps stats ++ [LogEvent.timestamp_ event]).
    set (count := length (List.filter _ ts)).
    assert (INR count / RateDetector.window_seconds d
            <= INR (S k) / RateDetector.window_seconds d) as Hrate.
    { apply Rmult_le_compat_r; [left; by apply Rinv_0_lt_compat|].
      apply le_INR. subst count ts.
      etrans; [apply List.filter_length_le|]. rewrite length_app. simpl. lia. }
    pose proof (rate_bound_mono k _ Hsec) as Hmono.
    rewrite decide_False by lia.
    change (match k with 0%nat => 1 | S _ => INR k + 1 end) with (INR (S k)).
    destruct (dlt _ 0.1); [done|]. lra.
  - intros Hne. unfold RateDetector.train. simpl.
    by rewrite lookup_insert_ne.
  - intros Heq Hfew. unfold RateDetector.score. rewrite Heq.
    destruct (RateDetector.event_rates_ d !! event_type) as [stats|];
      simpl; [|done].
    destruct (RateDetector.timestamps stats); simpl; [done|].
    rewrite decide_False by lia. destruct Hk as [_ Hk2].
    rewrite dlt_true; [done|].
    assert (INR k / RateDetector.window_seconds d < 0.1); [|lra].
    apply (Rmult_lt_reg_r (RateDetector.window_seconds d)); [done|].
    unfold Rdiv. rewrite Rmult_assoc, Rinv_l by lra. lra.
Qed.

Lemma rate_detector_warm_up_witness :
  (RateDetector.score (RateDetector.create 60)
     (Sample.event "api.call" 1 1000000000)).1 = 0.
Proof.
  refine (proj2 (proj2 (proj2 (proj2 (proj2
            (rate_detector_warm_up 0 "api.call" (RateDetector.create 60)
               (Sample.event "api.call" 1 1000000000) _ _))))) _ _).
  - reflexivity.
  - unfold rate_warming_up. simpl. by rewrite lookup_empty.
  - reflexivity.
  - unfold RateDetector.window_seconds.
    change (IZR (RateDetector.window_duration_ (RateDetector.create 60)))
      with (IZR 60000000000).
    change (INR 0) with 0. lra.
Defined.

End DetectorTraining.

(** ** Patterns *)

Section PatternFacts.
Context `{StdLib}.

Lemma burst_score_unit (count threshold : nat) :
  (0.7 <= FrequencyPattern.burst_score count threshold <= 1)%R.
Proof.
  unfold FrequencyPattern.burst_score. case_decide as Hzero; [lra|].
  assert (0 < INR threshold)%R as Hpos by (apply lt_0_INR; lia).
  assert (0 <= INR (count - threshold + 1) / INR threshold)%R as Hexcess.
  { apply Rmult_le_pos; [apply pos_INR|]. left. by apply Rinv_0_lt_compat. }
  unfold std_min, dlt. destruct (Rlt_dec _ 1); lra.
Qed.

Lemma repeated_score (threshold : nat) (cutoff : Z)
    (entities : list (string * string)) :
  ∀ entity_times : gmap string (list Z),
    let r := FrequencyPattern.repeated threshold cutoff entities entity_times in
    r.1 = 0%R ∨ r.1 = 1%R.
Proof.
  induction entities as [|[k v] rest IH]; intros entity_times; simpl;
    [by left|].
  case_decide; [by right | apply IH].
Qed.

Lemma frequency_scores (p : FrequencyPattern.t) (event : LogEvent.t)
    (context : list LogEvent.t) :
  let r := (FrequencyPattern.match_ p event context).1 in
  r = 0%R ∨ (0.7 <= r <= 1)%R.
Proof.
  unfold FrequencyPattern.match_.
  destruct (bool_decide _); simpl; [|by left].
  destruct (FrequencyPattern.type_ p); simpl.
  - case_decide; [right; apply burst_score_unit | by left].
  - pose proof (repeated_score (FrequencyPattern.threshold_ p)
                  (LogEvent.timestamp_ event - FrequencyPattern.window_ p)
                  (LogEvent.entities_ event)
                  (FrequencyPattern.entity_times_ p)) as Hr.
    destruct (FrequencyPattern.repeated _ _ _ _) as [s times]. simpl in *.
    destruct Hr as [->| ->]; [by left | right; lra].
  - by left.
Qed.

Lemma regex_scores (p : RegexPattern.t) (event : LogEvent.t)
    (context : list LogEvent.t) :
  let r := RegexPattern.match_ p event context in r = 0%R ∨ r = 1%R.
Proof.
  unfold RegexPattern.match_.
  repeat case_match; (by left) || (by right).
Qed.

Lemma match_keeps_name (p : PatternMatcher.t) (event : LogEvent.t)
    (context : list LogEvent.t) :
  PatternMatcher.name (PatternMatcher.match_ p event context).2
  = PatternMatcher.name p.
Proof.
  destruct p as [s|f|r]; simpl; [| |done].
  - assert (SequentialPattern.name_
              (SequentialPattern.match_ s event context).2
            = SequentialPattern.name_ s) as Hname.
    { unfold SequentialPattern.match_.
      destruct (last (SequentialPattern.steps_ s)); [|done].
      destruct (SequentialPattern.matches_step event _); simpl; [|done].
      case_decide; [done|]. by case_decide. }
    by destruct (SequentialPattern.match_ s event context).
  - assert (FrequencyPattern.name_
              (FrequencyPattern.match_ f event context).2
            = FrequencyPattern.name_ f) as Hname.
    { unfold FrequencyPattern.match_.
      destruct (bool_decide _); simpl; [|done].
      destruct (FrequencyPattern.type_ f); simpl; [done | | done].
      by destruct (FrequencyPattern.repeated _ _ _ _). }
    by destruct (FrequencyPattern.match_ f event context).
Qed.

Lemma train_keeps_name (p : PatternMatcher.t) (event : LogEvent.t) :
  PatternMatcher.name (PatternMatcher.train p event) = PatternMatcher.name p.
Proof.
  destruct p as [s|f|r]; simpl; [done | | done].
  unfold FrequencyPattern.train. by destruct (bool_decide _).
Qed.

Lemma collect_names (patterns : list PatternMatcher.t) (event : LogEvent.t)
    (context : list LogEvent.t) :
  let r := PatternEngine.collect patterns event context in
  PatternMatcher.name <$> r.2 = PatternMatcher.name <$> patterns
  ∧ sublist (PatternMatcher.name <$> (PatternEngine.pattern <$> r.1))
            (PatternMatcher.name <$> patterns).
Proof.
  induction patterns as [|p rest IH]; simpl; [done|].
  pose proof (match_keeps_name p event context) as Hname.
  destruct (PatternMatcher.match_ p event context) as [s p'].
  destruct (PatternEngine.collect rest event context) as [matches rest'].
  simpl in *. destruct IH as [IH1 IH2]. split; [by f_equal|].
  destruct (dlt 0.5 s); simpl.
  - rewrite Hname. by apply sublist_skip.
  - by apply sublist_cons.
Qed.

(** X13.  Every pattern match scores in [0,1]: a sequential pattern scores
    0, 1 or a partial score below 0.5, a frequency pattern 0 or at least
    0.7, a regular-expression pattern 0 or 1.  So a match that the engine
    reports (score above 0.5) is a complete sequential match, a frequency
    match of at least 0.7 or a regular-expression match. *)
Theorem pattern_scores (p : PatternMatcher.t) (event : LogEvent.t)
    (context : list LogEvent.t) :
  let r := (PatternMatcher.match_ p event context).1 in
  in_unit r
  ∧ match p with
    | PatternMatcher.Sequential s => (r < 0.5)%R ∨ r = 1%R
    | PatternMatcher.Frequency f => r = 0%R ∨ (0.7 <= r)%R
    | PatternMatcher.Regex _ => r = 0%R ∨ r = 1%R
    end.
Proof.
  unfold in_unit. destruct p as [s|f|r]; simpl.
  - destruct (sequential_scores s event context)
      as [Hr|[Hr|[_ (k & Hk & Hr)]]];
      destruct (SequentialPattern.match_ s event context) as [x s'];
      simpl in *; subst x; try (split; [lra | (left; lra) || by right]).
    destruct (partial_score_bound k _ Hk) as [Hle Hlt].
    assert (0 <= (1 - INR k / INR (length (SequentialPattern.steps_ s))) * 0.5)%R.
    { assert (INR k < INR (length (SequentialPattern.steps_ s)))%R
        by (apply lt_INR; lia).
      assert (0 <= INR k)%R by apply pos_INR.
      assert (INR k / INR (length (SequentialPattern.steps_ s)) < 1)%R.
      { apply (Rmult_lt_reg_r (INR (length (SequentialPattern.steps_ s))));
          [lra|]. unfold Rdiv. rewrite Rmult_assoc, Rinv_l by lra. lra. }
      nra. }
    split; [lra | left; lra].
  - pose proof (frequency_scores f event context) as Hr.
    destruct (FrequencyPattern.match_ f event context) as [x f'].
    simpl in *. destruct Hr as [->|Hr]; (split; [lra | (left; lra) || (right; lra)]).
  - destruct (regex_scores r event context) as [-> | ->];
      (split; [lra | (left; lra) || (right; lra)]).
Qed.

(** X14.  Matching and training never add, drop, reorder or rename the
    patterns of an engine, and what [match_patterns] reports comes from
    the registered patterns: at most one match per pattern, in the order of
    the scores. *)
Theorem pattern_engine_keeps_patterns (e : PatternEngine.t)
    (event : LogEvent.t) (context : list LogEvent.t) :
  let names (engine : PatternEngine.t) :=
    PatternMatcher.name <$> PatternEngine.patterns engine in
  let result := PatternEngine.match_patterns e event context in
  names result.2 = names e
  ∧ names (PatternEngine.train_all e event) = names e
  ∧ (∀ p, names (PatternEngine.register_pattern e p)
          = names e ++ [PatternMatcher.name p])
  ∧ (length result.1 ≤ length (PatternEngine.patterns e))%nat
  ∧ (∀ m, m ∈ result.1 →
          PatternMatcher.name (PatternEngine.pattern m) ∈ names e).
Proof.
  intros names result. subst names result.
  unfold PatternEngine.match_patterns, PatternEngine.patterns.
  destruct (collect_names (PatternEngine.patterns_ e) event context)
    as [Hnames Hsub].
  destruct (PatternEngine.collect _ event context) as [matches patterns].
  simpl in *. split; [done|]. split; [|split; [|split]].
  - rewrite <- list_fmap_compose. apply list_fmap_ext.
    intros i p _. apply train_keeps_name.
  - intros p. by rewrite fmap_app.
  - rewrite merge_sort_Permutation.
    apply sublist_length in Hsub. by rewrite !length_fmap in Hsub.
  - intros m Hm. rewrite merge_sort_Permutation in Hm.
    eapply elem_of_sublist; [|exact Hsub].
    apply list_elem_of_fmap. exists (PatternEngine.pattern m).
    split; [done|]. apply list_elem_of_fmap. by exists m.
Qed.

(** *** Sequential patterns *)

Lemma walk_complete (steps : list SequentialPattern.Step) :
  ∀ (context_rev : list LogEvent.t)
    (todo : list SequentialPattern.Step) (time : Z),
    todo ≠ [] → (∃ later, steps = todo ++ later) →
    walks_back (rev todo) context_rev time →
    SequentialPattern.walk steps context_rev (length todo) time = 0%nat.
Proof.
  intros context_rev todo. revert context_rev.
  induction todo as [|step todo IH] using rev_ind;
    intros context_rev time Hne [later Hsteps] Hwalk; [done|].
  rewrite rev_unit in Hwalk.
  destruct context_rev as [|event context_rev]; [done|].
  destruct Hwalk as (Htime & Hmatch & Hrest).
  rewrite length_app. simpl length.
  replace (length todo + 1)%nat with (S (length todo)) by lia.
  cbn [SequentialPattern.walk]. rewrite decide_False by lia.
  replace (S (length todo) - 1)%nat with (length todo) by lia.
  assert (steps !! length todo = Some step) as ->.
  { rewrite Hsteps, <- app_assoc. by apply list_lookup_middle. }
  rewrite decide_False by lia. rewrite Hmatch.
  destruct (decide (length todo = 0)%nat) as [Hzero|Hmore]; [done|].
  apply IH; [by intros -> | | done].
  exists ([step] ++ later). by rewrite Hsteps, <- app_assoc.
Qed.

(** X15.  A sequential pattern counts its complete matches and nothing
    else: [match] leaves the pattern as it is unless it returns 1, and then
    it only increments [match_count_].  It returns 0 when the pattern has
    no step or the event does not match the last step.  It returns 1 when
    the event matches the last step and the events at the end of the
    context match the steps before it in order, each one not longer before
    its successor than its own step allows (the limit of a step bounds the
    time to the next event; how long ago an event was is never checked
    from below). *)
Theorem sequential_complete_match (p : SequentialPattern.t)
    (event : LogEvent.t) (context : list LogEvent.t) :
  let result := SequentialPattern.match_ p event context in
  (result.1 = 1%R → result.2 = SequentialPattern.matched p)
  ∧ (result.1 ≠ 1%R → result.2 = p)
  ∧ (SequentialPattern.steps_ p = [] → result = (0%R, p))
  ∧ (∀ before last_step,
       SequentialPattern.steps_ p = before ++ [last_step] →
       (SequentialPattern.matches_step event last_step = false →
        result = (0%R, p))
       ∧ (SequentialPattern.matches_step event last_step = true →
          walks_back (rev before) (rev context) (LogEvent.timestamp_ event) →
          result = (1%R, SequentialPattern.matched p))).
Proof.
  intros result. subst result.
  assert (((SequentialPattern.match_ p event context).1 = 1%R
           ∧ (SequentialPattern.match_ p event context).2
             = SequentialPattern.matched p)
          ∨ ((SequentialPattern.match_ p event context).1 ≠ 1%R
             ∧ (SequentialPattern.match_ p event context).2 = p)) as Hcases.
  { pose proof (sequential_scores p event context) as Hscore.
    unfold SequentialPattern.match_ in *.
    destruct (last (SequentialPattern.steps_ p)) as [last_step|];
      [|right; simpl; split; [lra | done]].
    destruct (SequentialPattern.matches_step event last_step); simpl in *;
      [|right; split; [lra | done]].
    case_decide as Hone; simpl in *; [by left|].
    case_decide as Hdone; simpl in *; [by left|].
    right. split; [|done].
    destruct Hscore as [Hr|[Hr|[_ (k & Hk & Hr)]]]; [lra | | ].
    - exfalso. revert Hr. set (x := (_ * 0.5)%R). intros Hr.
      pose proof (walk_le (SequentialPattern.steps_ p) (rev context)
                    (length (SequentialPattern.steps_ p) - 1)
                    (LogEvent.timestamp_ event)) as Hle.
      assert (1 ≤ SequentialPattern.walk (SequentialPattern.steps_ p)
                    (rev context) (length (SequentialPattern.steps_ p) - 1)
                    (LogEvent.timestamp_ event)
              < length (SequentialPattern.steps_ p))%nat as Hk by lia.
      destruct (partial_score_bound _ _ Hk). subst x. lra.
    - destruct (partial_score_bound k _ Hk). lra. }
  split; [|split; [|split]].
  - intros Hone. destruct Hcases as [[_ ?]|[? _]]; done.
  - intros Hnot. destruct Hcases as [[? _]|[_ ?]]; done.
  - intros Hempty. unfold SequentialPattern.match_. by rewrite Hempty.
  - intros before last_step Hsteps. unfold SequentialPattern.match_.
    rewrite Hsteps, last_snoc. split; [by intros ->|].
    intros -> Hwalk. simpl. rewrite length_app. simpl.
    destruct (decide (length before + 1 = 1)%nat) as [Hone|Hmore]; [done|].
    replace (length before + 1 - 1)%nat with (length before) by lia.
    rewrite (walk_complete (before ++ [last_step]) (rev context) before);
      [done | by intros -> | by exists [last_step] | done].
Qed.

End PatternFacts.

(** *** Bursts *)

Lemma drop_old_sorted (cutoff : Z) (ts : list Z) :
  StronglySorted Z.le ts → drop_old cutoff ts = filter (λ t, cutoff ≤ t) ts.
Proof.
  induction 1 as [|t ts Hsorted IH Hall]; [done|].
  simpl. rewrite filter_cons. destruct (decide (t < cutoff)) as [Hold|Hnew].
  - by rewrite decide_False by lia.
  - rewrite decide_True by lia. f_equal. clear IH Hsorted.
    induction Hall as [|t' ts Ht' _ IH]; [done|].
    rewrite filter_cons_True by lia. by f_equal.
Qed.

Lemma times_of_type_sorted (event_type : string) (events : list LogEvent.t) :
  StronglySorted Z.le (LogEvent.timestamp_ <$> events) →
  StronglySorted Z.le (times_of_type event_type events).
Proof.
  unfold times_of_type. induction events as [|e events IH]; [done|].
  rewrite fmap_cons. intros [Hall Hsorted]%StronglySorted_cons.
  rewrite filter_cons. case_decide; [|by apply IH].
  rewrite fmap_cons. apply StronglySorted_cons. split; [|by apply IH].
  rewrite Forall_forall in *. intros t Ht. apply Hall.
  apply list_elem_of_fmap in Ht as (e' & -> & He').
  apply list_elem_of_filter in He' as [_ He'].
  apply list_elem_of_fmap. by exists e'.
Qed.

Lemma times_of_type_bound (event_type : string) (events : list LogEvent.t)
    (later : Z) :
  Forall (λ t, t ≤ later) (LogEvent.timestamp_ <$> events) →
  Forall (λ t, t ≤ later) (times_of_type event_type events).
Proof.
  rewrite !Forall_forall. intros Hall t Ht. apply Hall.
  apply list_elem_of_fmap in Ht as (e' & -> & He').
  apply list_elem_of_filter in He' as [_ He'].
  apply list_elem_of_fmap. by exists e'.
Qed.

Lemma frequency_match_times (p : FrequencyPattern.t) (event : LogEvent.t)
    (context : list LogEvent.t) :
  let p' := (FrequencyPattern.match_ p event context).2 in
  FrequencyPattern.event_type_ p' = FrequencyPattern.event_type_ p
  ∧ FrequencyPattern.type_ p' = FrequencyPattern.type_ p
  ∧ FrequencyPattern.threshold_ p' = FrequencyPattern.threshold_ p
  ∧ FrequencyPattern.window_ p' = FrequencyPattern.window_ p
  ∧ FrequencyPattern.event_times_ p'
    = if decide (LogEvent.event_type_ event = FrequencyPattern.event_type_ p)
      then drop_old (LogEvent.timestamp_ event - FrequencyPattern.window_ p)
             (FrequencyPattern.event_times_ p)
      else FrequencyPattern.event_times_ p.
Proof.
  unfold FrequencyPattern.match_.
  destruct (decide (LogEvent.event_type_ event = FrequencyPattern.event_type_ p))
    as [Htype|Htype].
  - rewrite bool_decide_eq_true_2 by done. simpl.
    destruct (FrequencyPattern.type_ p) eqn:Hkind; simpl; try done.
    by destruct (FrequencyPattern.repeated _ _ _ _).
  - by rewrite bool_decide_eq_false_2 by done.
Qed.

Lemma frequency_train_times (p : FrequencyPattern.t) (event : LogEvent.t) :
  let p' := FrequencyPattern.train p event in
  FrequencyPattern.event_type_ p' = FrequencyPattern.event_type_ p
  ∧ FrequencyPattern.type_ p' = FrequencyPattern.type_ p
  ∧ FrequencyPattern.threshold_ p' = FrequencyPattern.threshold_ p
  ∧ FrequencyPattern.window_ p' = FrequencyPattern.window_ p
  ∧ FrequencyPattern.event_times_ p'
    = if decide (LogEvent.event_type_ event = FrequencyPattern.event_type_ p)
      then FrequencyPattern.event_times_ p ++ [LogEvent.timestamp_ event]
      else FrequencyPattern.event_times_ p.
Proof.
  unfold FrequencyPattern.train.
  destruct (decide (LogEvent.event_type_ event = FrequencyPattern.event_type_ p))
    as [Htype|Htype].
  - by rewrite bool_decide_eq_true_2 by done.
  - by rewrite bool_decide_eq_false_2 by done.
Qed.

(** What the stored times are worth once events were fed in the order of
    their timestamps: cleaning them for any later time leaves the times of
    the events of the type inside the window of that time. *)
Lemma frequency_fed_times (p : FrequencyPattern.t) (events : list LogEvent.t) :
  FrequencyPattern.event_times_ p = [] →
  StronglySorted Z.le (LogEvent.timestamp_ <$> events) →
  let p' := frequency_fed p events in
  FrequencyPattern.event_type_ p' = FrequencyPattern.event_type_ p
  ∧ FrequencyPattern.type_ p' = FrequencyPattern.type_ p
  ∧ FrequencyPattern.threshold_ p' = FrequencyPattern.threshold_ p
  ∧ FrequencyPattern.window_ p' = FrequencyPattern.window_ p
  ∧ ∀ later : Z,
      Forall (λ t, t ≤ later) (LogEvent.timestamp_ <$> events) →
      drop_old (later - FrequencyPattern.window_ p)
        (FrequencyPattern.event_times_ p')
      = recent_times (FrequencyPattern.event_type_ p)
          (later - FrequencyPattern.window_ p) events.
Proof.
  intros Hempty. induction events as [|e events IH] using rev_ind.
  - intros _. simpl. rewrite Hempty. done.
  - rewrite fmap_app. intros Hsorted.
    apply StronglySorted_app in Hsorted as (Hlast & Hsorted & _).
    destruct (IH Hsorted) as (Htype & Hkind & Hthreshold & Hwindow & Htimes).
    clear IH. unfold frequency_fed in *. rewrite foldl_app. simpl.
    set (p1 := foldl _ p events) in *.
    destruct (frequency_match_times p1 e []) as (Ht1 & Hk1 & Hth1 & Hw1 & He1).
    set (p2 := (FrequencyPattern.match_ p1 e []).2) in *.
    destruct (frequency_train_times p2 e) as (Ht2 & Hk2 & Hth2 & Hw2 & He2).
    split; [congruence|]. split; [congruence|]. split; [congruence|].
    split; [congruence|]. intros later Hlater.
    apply Forall_app in Hlater as [Hbefore Hnow].
    rewrite Forall_singleton in Hnow.
    unfold recent_times, times_of_type. rewrite filter_app, fmap_app, filter_app.
    fold (times_of_type (FrequencyPattern.event_type_ p) events).
    rewrite He2, Ht1, Htype. rewrite He1, Htype.
    destruct (decide (LogEvent.event_type_ e = FrequencyPattern.event_type_ p))
      as [Hown|Hother].
    + rewrite filter_cons_True by done. simpl.
      assert (Forall (λ t, t ≤ LogEvent.timestamp_ e)
                (LogEvent.timestamp_ <$> events)) as Hprev.
      { rewrite Forall_forall. intros t Ht. apply Hlast; [done|].
        apply list_elem_of_here. }
      rewrite Hwindow, (Htimes _ Hprev).
      fold (recent_times (FrequencyPattern.event_type_ p)
              (LogEvent.timestamp_ e - FrequencyPattern.window_ p) events).
      pose proof (times_of_type_sorted (FrequencyPattern.event_type_ p) events
                    Hsorted) as Hs.
      pose proof (times_of_type_bound (FrequencyPattern.event_type_ p) events
                    _ Hprev) as Hb.
      rewrite drop_old_sorted.
      * rewrite filter_app. unfold recent_times.
        rewrite list_filter_filter_l by (intros; lia). done.
      * apply StronglySorted_app_2.
        -- intros t1 t2 Ht1' Ht2'. apply list_elem_of_singleton in Ht2' as ->.
           unfold recent_times in Ht1'.
           apply list_elem_of_filter in Ht1' as [_ Ht1'].
           rewrite Forall_forall in Hb. by apply Hb.
        -- unfold recent_times. clear -Hs.
           induction Hs as [|t ts Hsorted IH Hall]; [constructor|].
           rewrite filter_cons. case_decide; [|done].
           constructor; [done|]. rewrite Forall_forall in *.
           intros t' Ht'. apply Hall.
           by apply list_elem_of_filter in Ht' as [_ ?].
        -- repeat constructor.
    + rewrite filter_cons_False by done. simpl. rewrite !app_nil_r.
      by apply Htimes.
Qed.

(** X16.  A burst pattern counts the events of its type in its window, the
    current one not included.  When events arrive in the order of their
    timestamps and each is matched and then trained, as the pipeline does,
    the score of an event of the pattern's type is 0 while fewer than
    [threshold] earlier events of the type lie within the window before it,
    and min(1, 0.7 + 0.3 (n - threshold + 1) / threshold) when there are
    [n >= threshold] of them: a burst of threshold N is reported from the
    event after the N-th on. *)
Theorem burst_counts_recent_events (name event_type : string)
    (threshold : nat) (window_length : Z) (events : list LogEvent.t)
    (event : LogEvent.t) (context : list LogEvent.t) :
  StronglySorted Z.le (LogEvent.timestamp_ <$> events ++ [event]) →
  LogEvent.event_type_ event = event_type →
  let p :=
    frequency_fed
      (FrequencyPattern.create name event_type FrequencyType.BURST threshold
         window_length) events in
  let n :=
    length (recent_times event_type
              (LogEvent.timestamp_ event - window_length) events) in
  let score := (FrequencyPattern.match_ p event context).1 in
  score = (if decide (threshold ≤ n)%nat
           then FrequencyPattern.burst_score n threshold else 0%R)
  ∧ ((threshold ≤ n)%nat ↔ (0.5 < score)%R)
  ∧ ((threshold ≤ n)%nat → (0.7 <= score <= 1)%R).
Proof.
  intros Hsorted Htype p n score.
  rewrite fmap_app in Hsorted.
  apply StronglySorted_app in Hsorted as (Hlast & Hsorted & _).
  destruct (frequency_fed_times
              (FrequencyPattern.create name event_type FrequencyType.BURST
                 threshold window_length) events eq_refl Hsorted)
    as (Ht & Hk & Hth & Hw & Htimes).
  fold p in Ht, Hk, Hth, Hw, Htimes. simpl in Ht, Hk, Hth, Hw, Htimes.
  assert (score = if decide (threshold ≤ n)%nat
                  then FrequencyPattern.burst_score n threshold else 0%R)
    as Hscore.
  { subst score. unfold FrequencyPattern.match_.
    rewrite Ht, bool_decide_eq_true_2 by done. simpl.
    rewrite Hk, Hw, Hth. simpl.
    rewrite Htimes; [done|].
    rewrite Forall_forall. intros t Hin. apply Hlast; [done|].
    apply list_elem_of_here. }
  split; [done|]. rewrite Hscore.
  pose proof (burst_score_unit n threshold) as Hunit.
  case_decide; (split; [split; intros; (done || lra || lia) | intros; (done || lia)]).
Qed.

Lemma burst_counts_recent_events_witness :
  (FrequencyPattern.match_
     (frequency_fed
        (FrequencyPattern.create "retry_storm" "log.message"
           FrequencyType.BURST 10 30000000000) Sample.burst.*1)
     (Sample.event "log.message" 10 10000) []).1
  = FrequencyPattern.burst_score 10 10.
Proof.
  refine (proj1 (burst_counts_recent_events "retry_storm" "log.message" 10
                   30000000000 Sample.burst.*1
                   (Sample.event "log.message" 10 10000) [] _ _)).
  - simpl. repeat (constructor; [|repeat (constructor; [lia|]); constructor]).
    constructor.
  - reflexivity.
Defined.

(** X15 on the built-in cascading failure: a slow database, an API
    timeout and a user error one second apart. *)
Lemma sequential_complete_match_witness :
  SequentialPattern.match_ (H := Sample.stdlib) Cascade.pattern Cascade.event
    Cascade.context
  = (1%R, SequentialPattern.matched Cascade.pattern).
Proof.
  destruct (sequential_complete_match (H := Sample.stdlib) Cascade.pattern
              Cascade.event Cascade.context) as (_ & _ & _ & Hlast).
  destruct (Hlast [SequentialPattern.step "database.slow" (PatternFactory.seconds 10);
                   SequentialPattern.step "api.timeout" (PatternFactory.seconds 5)]
              (SequentialPattern.step "user.error" (PatternFactory.seconds 3))
              eq_refl) as [_ Hyes].
  apply Hyes; [reflexivity|]. simpl. unfold PatternFactory.seconds.
  repeat split; (lia || reflexivity).
Defined.

(** ** Correlation of events *)

Lemma push_index_lookup (index : gmap string (list Z)) (key key' : string)
    (id : Z) :
  default [] (EventCorrelator.push_index index key id !! key')
  = default [] (index !! key') ++ (if decide (key = key') then [id] else []).
Proof.
  unfold EventCorrelator.push_index.
  destruct (decide (key = key')) as [->|Hne].
  - by rewrite lookup_insert_eq.
  - rewrite lookup_insert_ne by done. by rewrite app_nil_r.
Qed.

Lemma correlate_by_trace_id_found (c : EventCorrelator.t) (ev : LogEvent.t)
    (corr : Correlation.t) :
  EventCorrelator.correlate_by_trace_id c ev = Some corr →
  found_for ev "trace_id" 1 corr.
Proof.
  unfold EventCorrelator.correlate_by_trace_id.
  destruct (decide _); [done|].
  destruct (_ !! _) as [[|id ids]|]; [done| |done].
  intros [= <-]. repeat split. by exists (id :: ids).
Qed.

Lemma correlate_by_entities_found (c : EventCorrelator.t) (ev : LogEvent.t)
    (corr : Correlation.t) :
  EventCorrelator.correlate_by_entities c ev = Some corr →
  found_for ev "entity" 0.8 corr.
Proof.
  unfold EventCorrelator.correlate_by_entities.
  destruct (decide _) as [|Hne]; [done|].
  intros [= <-]. repeat split. by eexists.
Qed.

Lemma correlate_by_service_found (c : EventCorrelator.t) (ev : LogEvent.t)
    (corr : Correlation.t) :
  EventCorrelator.correlate_by_service c ev = Some corr →
  found_for ev "service" 0.6 corr.
Proof.
  unfold EventCorrelator.correlate_by_service.
  destruct (decide _); [done|].
  destruct (_ !! _) as [[|id ids]|]; [done| |done].
  destruct (List.filter _ _) as [|id' ids'] eqn:Hrecent; [done|].
  intros [= <-]. repeat split. by exists (id' :: ids').
Qed.

Lemma correlate_by_time_found (c : EventCorrelator.t) (ev : LogEvent.t)
    (corr : Correlation.t) :
  EventCorrelator.correlate_by_time c ev = Some corr →
  found_for ev "temporal" 0.4 corr.
Proof.
  unfold EventCorrelator.correlate_by_time.
  destruct (decide _) as [|Hmany]; [done|].
  intros [= <-]. repeat split. eexists. split; [|done].
  intros Hnil. rewrite Hnil in Hmany. simpl in Hmany. lia.
Qed.

Lemma get_correlations_for_event_app (c : EventCorrelator.t) (ev : LogEvent.t) :
  EventCorrelator.get_correlations_for_event
    (EventCorrelator.correlate c ev).2 (LogEvent.event_id_ ev)
  = EventCorrelator.get_correlations_for_event c (LogEvent.event_id_ ev)
    ++ (EventCorrelator.correlate c ev).1.
Proof.
  unfold EventCorrelator.get_correlations_for_event, EventCorrelator.correlate.
  cbv zeta. simpl. rewrite List.filter_app. f_equal.
  assert (Hall : ∀ o kind confidence,
             (∀ corr, o = Some corr → found_for ev kind confidence corr) →
             List.filter
               (λ corr, bool_decide
                  (LogEvent.event_id_ ev ∈ Correlation.event_ids corr))
               (option_list o) = option_list o).
  { intros [corr|] kind confidence Hfound; [|done].
    destruct (Hfound corr eq_refl) as (_ & _ & _ & _ & others & _ & Hids).
    simpl. rewrite bool_decide_eq_true_2; [done|].
    rewrite Hids. set_solver. }
  rewrite !List.filter_app.
  rewrite (Hall _ _ _ (correlate_by_trace_id_found c ev)).
  rewrite (Hall _ _ _ (correlate_by_entities_found c ev)).
  rewrite (Hall _ _ _ (correlate_by_service_found c ev)).
  by rewrite (Hall _ _ _ (correlate_by_time_found c ev)).
Qed.

(** X17.  [correlate] returns at most four correlations, in the order trace
    id, entity, service, time, with the confidences 1, 0.8, 0.6 and 0.4:
    the strongest comes first.  Each one lists at least one other event
    and then the event itself, and carries the time of the event as its
    first and its last time.  The event is stored under its id, no other
    stored event changes, and what was found is appended to the stored
    correlations, so that a query for the event returns the newly found
    ones after the earlier ones.  An empty correlator finds nothing. *)
Theorem correlate_result_shape (c : EventCorrelator.t) (ev : LogEvent.t) :
  let found := (EventCorrelator.correlate c ev).1 in
  let c' := (EventCorrelator.correlate c ev).2 in
  (length found ≤ 4)%nat
  ∧ Forall (λ corr, found_for ev "trace_id" 1 corr
                    ∨ found_for ev "entity" 0.8 corr
                    ∨ found_for ev "service" 0.6 corr
                    ∨ found_for ev "temporal" 0.4 corr) found
  ∧ StronglySorted
      (λ a b, (Correlation.confidence b < Correlation.confidence a)%R) found
  ∧ EventCorrelator.correlations_ c' = EventCorrelator.correlations_ c ++ found
  ∧ EventCorrelator.get_correlations_for_event c' (LogEvent.event_id_ ev)
    = EventCorrelator.get_correlations_for_event c (LogEvent.event_id_ ev)
      ++ found
  ∧ EventCorrelator.events_ c' !! LogEvent.event_id_ ev
    = Some (EventCorrelator.mkRecord ev [])
  ∧ (∀ id, id ≠ LogEvent.event_id_ ev →
       EventCorrelator.events_ c' !! id = EventCorrelator.events_ c !! id)
  ∧ (EventCorrelator.correlate EventCorrelator.create ev).1 = [].
Proof.
  intros found c'.
  split_and!.
  - subst found. unfold EventCorrelator.correlate. cbv zeta. simpl.
    rewrite !length_app.
    assert (Hone : ∀ o : option Correlation.t, (length (option_list o) ≤ 1)%nat)
      by (intros [?|]; simpl; lia).
    pose proof (Hone (EventCorrelator.correlate_by_trace_id c ev)).
    pose proof (Hone (EventCorrelator.correlate_by_entities c ev)).
    pose proof (Hone (EventCorrelator.correlate_by_service c ev)).
    pose proof (Hone (EventCorrelator.correlate_by_time c ev)).
    lia.
  - subst found. unfold EventCorrelator.correlate. cbv zeta. simpl.
    pose proof (correlate_by_trace_id_found c ev) as H1.
    pose proof (correlate_by_entities_found c ev) as H2.
    pose proof (correlate_by_service_found c ev) as H3.
    pose proof (correlate_by_time_found c ev) as H4.
    rewrite !Forall_app. split_and!.
    + destruct (EventCorrelator.correlate_by_trace_id c ev); simpl;
        [rewrite Forall_singleton; auto 6|constructor].
    + destruct (EventCorrelator.correlate_by_entities c ev); simpl;
        [rewrite Forall_singleton; auto 6|constructor].
    + destruct (EventCorrelator.correlate_by_service c ev); simpl;
        [rewrite Forall_singleton; auto 6|constructor].
    + destruct (EventCorrelator.correlate_by_time c ev); simpl;
        [rewrite Forall_singleton; auto 6|constructor].
  - subst found. unfold EventCorrelator.correlate. cbv zeta. simpl.
    pose proof (correlate_by_trace_id_found c ev) as H1.
    pose proof (correlate_by_entities_found c ev) as H2.
    pose proof (correlate_by_service_found c ev) as H3.
    pose proof (correlate_by_time_found c ev) as H4.
    destruct (EventCorrelator.correlate_by_trace_id c ev) as [c1|];
      [destruct (H1 c1 eq_refl) as (_ & Hc1 & _)|];
      (destruct (EventCorrelator.correlate_by_entities c ev) as [c2|];
         [destruct (H2 c2 eq_refl) as (_ & Hc2 & _)|]);
      (destruct (EventCorrelator.correlate_by_service c ev) as [c3|];
         [destruct (H3 c3 eq_refl) as (_ & Hc3 & _)|]);
      (destruct (EventCorrelator.correlate_by_time c ev) as [c4|];
         [destruct (H4 c4 eq_refl) as (_ & Hc4 & _)|]);
      simpl; repeat (constructor; [|repeat (constructor; [lra|]); constructor]);
      constructor.
  - done.
  - apply get_correlations_for_event_app.
  - subst c'. unfold EventCorrelator.correlate. cbv zeta. simpl.
    by rewrite lookup_insert_eq.
  - intros id Hid. subst c'. unfold EventCorrelator.correlate. cbv zeta. simpl.
    by rewrite lookup_insert_ne.
  - unfold EventCorrelator.correlate. cbv zeta. simpl.
    assert (EventCorrelator.correlate_by_trace_id EventCorrelator.create ev = None)
      as ->.
    { unfold EventCorrelator.correlate_by_trace_id. simpl.
      destruct (decide _); [done|]. by rewrite lookup_empty. }
    assert (EventCorrelator.correlate_by_service EventCorrelator.create ev = None)
      as ->.
    { unfold EventCorrelator.correlate_by_service. simpl.
      destruct (decide _); [done|]. by rewrite lookup_empty. }
    assert (EventCorrelator.correlate_by_time EventCorrelator.create ev = None)
      as ->.
    { unfold EventCorrelator.correlate_by_time. simpl.
      rewrite map_to_list_empty. simpl.
      destruct (decide (0 < 2)%nat); [done|lia]. }
    assert (EventCorrelator.related_events EventCorrelator.create ev = ∅)
      as Hrel.
    { unfold EventCorrelator.related_events. simpl.
      induction (LogEvent.entities_ ev) as [|kv l IH] using rev_ind; [done|].
      rewrite foldl_app. simpl. by rewrite lookup_empty. }
    unfold EventCorrelator.correlate_by_entities. rewrite Hrel.
    rewrite elements_empty. by destruct (decide ([] = [])).
Qed.

Lemma correlate_trace_index (c : EventCorrelator.t) (ev : LogEvent.t) :
  LogEvent.trace_id_ ev ≠ EmptyString →
  EventCorrelator.trace_id_index_ (EventCorrelator.correlate c ev).2
    !! LogEvent.trace_id_ ev
  = Some (default [] (EventCorrelator.trace_id_index_ c !! LogEvent.trace_id_ ev)
          ++ [LogEvent.event_id_ ev]).
Proof.
  intros Hne. unfold EventCorrelator.correlate. cbv zeta. simpl.
  destruct (decide _); [done|].
  unfold EventCorrelator.push_index. by rewrite lookup_insert_eq.
Qed.

Lemma correlate_service_index (c : EventCorrelator.t) (ev : LogEvent.t) :
  LogEvent.service_name_ ev ≠ EmptyString →
  EventCorrelator.service_index_ (EventCorrelator.correlate c ev).2
    !! LogEvent.service_name_ ev
  = Some (default [] (EventCorrelator.service_index_ c
                        !! LogEvent.service_name_ ev)
          ++ [LogEvent.event_id_ ev]).
Proof.
  intros Hne. unfold EventCorrelator.correlate. cbv zeta. simpl.
  destruct (decide _); [done|].
  unfold EventCorrelator.push_index. by rewrite lookup_insert_eq.
Qed.

Lemma correlate_by_trace_id_after (c : EventCorrelator.t)
    (ev1 ev2 : LogEvent.t) :
  LogEvent.trace_id_ ev1 ≠ EmptyString →
  LogEvent.trace_id_ ev2 = LogEvent.trace_id_ ev1 →
  EventCorrelator.correlate_by_trace_id (EventCorrelator.correlate c ev1).2 ev2
  = Some (Correlation.mk
            (default [] (EventCorrelator.trace_id_index_ c
                           !! LogEvent.trace_id_ ev1)
             ++ [LogEvent.event_id_ ev1; LogEvent.event_id_ ev2])
            "trace_id" 1
            ("Events share trace ID: " +:+ LogEvent.trace_id_ ev1)
            (LogEvent.timestamp_ ev2) (LogEvent.timestamp_ ev2)
            {["trace_id" := LogEvent.trace_id_ ev1]}).
Proof.
  intros Hne Hsame. unfold EventCorrelator.correlate_by_trace_id.
  rewrite Hsame. destruct (decide _); [done|].
  rewrite correlate_trace_index by done.
  destruct (default [] _) as [|id ids]; simpl; [done|].
  by rewrite <- app_assoc.
Qed.

Lemma correlate_by_service_after (c : EventCorrelator.t)
    (ev1 ev2 : LogEvent.t) :
  LogEvent.service_name_ ev1 ≠ EmptyString →
  LogEvent.service_name_ ev2 = LogEvent.service_name_ ev1 →
  LogEvent.timestamp_ ev2 - EventCorrelator.minute ≤ LogEvent.timestamp_ ev1 →
  ∃ others,
    EventCorrelator.correlate_by_service (EventCorrelator.correlate c ev1).2 ev2
    = Some (Correlation.mk
              (others ++ [LogEvent.event_id_ ev1; LogEvent.event_id_ ev2])
              "service" 0.6
              ("Events from same service: " +:+ LogEvent.service_name_ ev1)
              (LogEvent.timestamp_ ev2) (LogEvent.timestamp_ ev2)
              {["service" := LogEvent.service_name_ ev1]}).
Proof.
  intros Hne Hsame Hrecent. unfold EventCorrelator.correlate_by_service.
  rewrite Hsame. destruct (decide _); [done|].
  rewrite correlate_service_index by done.
  set (old := default [] _).
  set (recent := λ id : Z, _).
  assert (Hlast : recent (LogEvent.event_id_ ev1) = true).
  { subst recent. cbv beta.
    unfold EventCorrelator.correlate at 1. cbv zeta. simpl.
    rewrite lookup_insert_eq. simpl. by apply bool_decide_eq_true_2. }
  exists (List.filter recent old).
  assert (Hfilter : List.filter recent (old ++ [LogEvent.event_id_ ev1])
                    = List.filter recent old ++ [LogEvent.event_id_ ev1]).
  { rewrite List.filter_app. simpl. by rewrite Hlast. }
  destruct (old ++ [LogEvent.event_id_ ev1]) as [|id ids] eqn:Hold.
  { by destruct old. }
  rewrite Hfilter.
  destruct (List.filter recent old ++ [LogEvent.event_id_ ev1])
    as [|id' ids'] eqn:Hrec.
  { by destruct (List.filter recent old). }
  rewrite <- Hrec. by rewrite <- app_assoc.
Qed.

(** X18.  Two events that carry the same trace id are correlated by it: when
    the second is correlated after the first, the correlation by trace id
    comes first in the result, has the confidence 1 and lists the events
    recorded under the trace id so far, then the first event, then the
    second.  Nothing asks the two events to differ, so an event that is
    correlated a second time is listed twice. *)
Theorem correlate_links_shared_trace (c : EventCorrelator.t)
    (ev1 ev2 : LogEvent.t) :
  LogEvent.trace_id_ ev1 ≠ EmptyString →
  LogEvent.trace_id_ ev2 = LogEvent.trace_id_ ev1 →
  ∃ corr,
    head (EventCorrelator.correlate (EventCorrelator.correlate c ev1).2 ev2).1
    = Some corr
    ∧ found_for ev2 "trace_id" 1 corr
    ∧ Correlation.event_ids corr
      = default [] (EventCorrelator.trace_id_index_ c !! LogEvent.trace_id_ ev1)
        ++ [LogEvent.event_id_ ev1; LogEvent.event_id_ ev2]
    ∧ Correlation.reason corr
      = "Events share trace ID: " +:+ LogEvent.trace_id_ ev1.
Proof.
  intros Hne Hsame. eexists. split_and!.
  - unfold EventCorrelator.correlate at 1. cbv zeta.
    cbn [fst]. by rewrite correlate_by_trace_id_after.
  - eapply correlate_by_trace_id_found.
    by apply correlate_by_trace_id_after.
  - done.
  - done.
Qed.

Lemma correlate_links_shared_trace_witness :
  ∃ corr,
    head (EventCorrelator.correlate
            (EventCorrelator.correlate EventCorrelator.create Traced.first).2
            Traced.second).1 = Some corr
    ∧ Correlation.event_ids corr = [1; 2].
Proof.
  destruct (correlate_links_shared_trace EventCorrelator.create
              Traced.first Traced.second) as (corr & Hhead & _ & Hids & _).
  - done.
  - reflexivity.
  - exists corr. split; [exact Hhead|]. rewrite Hids. reflexivity.
Defined.

(** X19.  The worker correlates every event twice: [process] hands the event
    to the correlator, and the worker then asks the same correlator about
    the same event.  The second call finds the event itself in the indices.
    So for a logger that correlates, an event with a trace id comes out
    with a correlation by trace id that ends with the event's own id twice,
    and an event with a service name with such a correlation by service;
    in both cases the list of correlations is not empty and the statistics
    count them. *)
Theorem correlation_stage_finds_event_itself (l : Logger.t)
    (engine : CorrelationEngine.t) (ev : LogEvent.t) :
  Logger.correlation_engine_ l = Some engine →
  let id := LogEvent.event_id_ ev in
  let found := (Logger.correlation_stage l ev).2 in
  (LogEvent.trace_id_ ev ≠ EmptyString →
     ∃ corr others, corr ∈ found ∧ found_for ev "trace_id" 1 corr
       ∧ Correlation.event_ids corr = others ++ [id; id])
  ∧ (LogEvent.service_name_ ev ≠ EmptyString →
     ∃ corr others, corr ∈ found ∧ found_for ev "service" 0.6 corr
       ∧ Correlation.event_ids corr = others ++ [id; id])
  ∧ (LogEvent.trace_id_ ev ≠ EmptyString
     ∨ LogEvent.service_name_ ev ≠ EmptyString →
     found ≠ []
     ∧ Logger.correlations_found (Logger.stats_ (Logger.correlation_stage l ev).1)
       = wrap64 (Logger.correlations_found (Logger.stats_ l)
                 + Z.of_nat (length found))).
Proof.
  intros Hengine id found.
  set (c1 := (EventCorrelator.correlate (CorrelationEngine.correlator_ engine)
                ev).2).
  assert (Hfound : found = (EventCorrelator.correlate c1 ev).1).
  { subst found c1. unfold Logger.correlation_stage. rewrite Hengine.
    unfold CorrelationEngine.process.
    cbn [CorrelationEngine.correlator_ CorrelationEngine.causality_].
    by destruct (EventCorrelator.correlate
                   (EventCorrelator.correlate
                      (CorrelationEngine.correlator_ engine) ev).2 ev). }
  assert (Htrace : LogEvent.trace_id_ ev ≠ EmptyString →
     ∃ corr others, corr ∈ found ∧ found_for ev "trace_id" 1 corr
       ∧ Correlation.event_ids corr = others ++ [id; id]).
  { intros Hne.
    pose proof (correlate_by_trace_id_after
                  (CorrelationEngine.correlator_ engine) ev ev Hne eq_refl)
      as Hsome.
    fold c1 in Hsome.
    match type of Hsome with _ = Some ?x => exists x end.
    eexists. split_and!.
    - rewrite Hfound. unfold EventCorrelator.correlate at 1. cbv zeta.
      cbn [fst]. rewrite Hsome. apply elem_of_app. left. apply list_elem_of_here.
    - by eapply correlate_by_trace_id_found.
    - done. }
  assert (Hservice : LogEvent.service_name_ ev ≠ EmptyString →
     ∃ corr others, corr ∈ found ∧ found_for ev "service" 0.6 corr
       ∧ Correlation.event_ids corr = others ++ [id; id]).
  { intros Hne.
    destruct (correlate_by_service_after
                (CorrelationEngine.correlator_ engine) ev ev Hne eq_refl)
      as (others & Hsome).
    { unfold EventCorrelator.minute. lia. }
    fold c1 in Hsome.
    match type of Hsome with _ = Some ?x => exists x end.
    exists others. split_and!.
    - rewrite Hfound. unfold EventCorrelator.correlate at 1. cbv zeta.
      cbn [fst]. rewrite Hsome. rewrite !elem_of_app. right. right. left.
      apply list_elem_of_here.
    - by eapply correlate_by_service_found.
    - done. }
  split_and!; [done|done|].
  intros Hsome.
  assert (Hne : found ≠ []).
  { destruct Hsome as [Hne|Hne].
    - destruct (Htrace Hne) as (corr & _ & Hin & _).
      intros Hnil. rewrite Hnil in Hin. by apply elem_of_nil in Hin.
    - destruct (Hservice Hne) as (corr & _ & Hin & _).
      intros Hnil. rewrite Hnil in Hin. by apply elem_of_nil in Hin. }
  split; [done|].
  revert Hne. rewrite Hfound. subst c1.
  unfold Logger.correlation_stage. rewrite Hengine.
  unfold CorrelationEngine.process.
  cbn [CorrelationEngine.correlator_ CorrelationEngine.causality_].
  destruct (EventCorrelator.correlate
              (EventCorrelator.correlate
                 (CorrelationEngine.correlator_ engine) ev).2 ev)
    as [[|corr rest] c2]; [done|].
  done.
Qed.

Lemma correlation_stage_finds_event_itself_witness :
  Logger.correlation_engine_ Traced.logger = Some CorrelationEngine.create
  ∧ ∃ corr, corr ∈ (Logger.correlation_stage Traced.logger Traced.first).2
      ∧ Correlation.event_ids corr = [1; 1].
Proof.
  split; [reflexivity|].
  destruct (correlation_stage_finds_event_itself Traced.logger
              CorrelationEngine.create Traced.first eq_refl)
    as (Htrace & _ & _).
  destruct Htrace as (corr & others & Hin & _ & Hids); [done|].
  exists corr. split; [exact Hin|].
  rewrite Hids. 
  assert (Hlen : length (Correlation.event_ids corr) = 2%nat).
  { clear Hids. revert Hin. vm_compute. 
    intros Hin. apply elem_of_cons in Hin as [->|Hin]; [done|].
    apply elem_of_cons in Hin as [->|Hin]; [done|].
    by apply elem_of_nil in Hin. }
  rewrite Hids, length_app in Hlen. simpl in Hlen.
  by destruct others; [|simpl in Hlen; lia].
Defined.

Lemma whole_seconds_apart_window (a b : Z) :
  EventCorrelator.whole_seconds_apart a b ≤ 5 ↔ Z.abs (a - b) < 6000000000.
Proof.
  unfold EventCorrelator.whole_seconds_apart.
  rewrite Z.quot_div_nonneg by lia.
  generalize (Z.abs_nonneg (a - b)). generalize (Z.abs (a - b)). intros d Hd.
  Z.div_mod_to_equations. lia.
Qed.

Lemma filter_sublist {A : Type} (f : A → bool) (l : list A) :
  sublist (List.filter f l) l.
Proof.
  induction l as [|x l IH]; simpl; [constructor|].
  destruct (f x); by constructor.
Qed.

Lemma elem_of_List_filter {A : Type} (f : A → bool) (l : list A) (x : A) :
  x ∈ List.filter f l ↔ x ∈ l ∧ f x = true.
Proof. rewrite !list_elem_of_In. apply List.filter_In. Qed.

(** X20.  [correlate_by_time] gathers the stored events other than the
    event itself whose time lies less than six seconds from the event's
    time, before or after it: the distance is cut down to whole seconds
    before it is compared with 5.  It reports a correlation when there
    are at least two of them, each listed once and followed by the event;
    one nearby event is not enough. *)
Theorem correlate_by_time_window (c : EventCorrelator.t) (ev : LogEvent.t) :
  let near (id : Z) :=
    id ≠ LogEvent.event_id_ ev
    ∧ ∃ record, EventCorrelator.events_ c !! id = Some record
        ∧ Z.abs (LogEvent.timestamp_ ev
                 - LogEvent.timestamp_ (EventCorrelator.event record))
          < 6000000000 in
  match EventCorrelator.correlate_by_time c ev with
  | Some corr =>
      found_for ev "temporal" 0.4 corr
      ∧ ∃ nearby,
          Correlation.event_ids corr = nearby ++ [LogEvent.event_id_ ev]
          ∧ NoDup nearby ∧ (2 ≤ length nearby)%nat
          ∧ ∀ id, id ∈ nearby ↔ near id
  | None =>
      ∀ ids, NoDup ids → (∀ id, id ∈ ids → near id) → (length ids < 2)%nat
  end.
Proof.
  intros near.
  pose proof (correlate_by_time_found c ev) as Hshape.
  unfold EventCorrelator.correlate_by_time in *.
  set (keep := λ entry : Z * EventCorrelator.EventRecord, _) in *.
  set (nearby := (List.filter keep _).*1) in *.
  assert (Hnodup : NoDup nearby).
  { subst nearby.
    assert (Hsub : (List.filter keep (map_to_list (EventCorrelator.events_ c))).*1
                   `sublist_of` (map_to_list (EventCorrelator.events_ c)).*1)
      by apply fmap_sublist, filter_sublist.
    pose proof (NoDup_fst_map_to_list (EventCorrelator.events_ c)) as Hall.
    exact (sublist_NoDup _ _ Hall Hsub). }
  assert (Hnear : ∀ id, id ∈ nearby ↔ near id).
  { intros id. subst nearby near. cbv beta.
    rewrite list_elem_of_fmap. split.
    - intros ([id' record] & -> & Hin).
      apply elem_of_List_filter in Hin as [Hin Hkeep].
      apply elem_of_map_to_list in Hin. subst keep. simpl in *.
      apply andb_true_iff in Hkeep as [Hclose Hother].
      apply bool_decide_eq_true_1 in Hclose.
      apply negb_true_iff, bool_decide_eq_false_1 in Hother.
      split; [done|]. exists record. split; [done|].
      by apply whole_seconds_apart_window.
    - intros [Hother (record & Hlookup & Hclose)].
      exists (id, record). split; [done|].
      apply elem_of_List_filter. split; [by apply elem_of_map_to_list|].
      subst keep. simpl. apply andb_true_iff. split.
      + apply bool_decide_eq_true_2. by apply whole_seconds_apart_window.
      + apply negb_true_iff. by apply bool_decide_eq_false_2. }
  destruct (decide (length nearby < 2)%nat) as [Hfew|Hmany].
  - intros ids Hids Hall.
    assert (ids ⊆+ nearby) as Hsub.
    { apply NoDup_submseteq; [done|]. intros id Hin. apply Hnear. by apply Hall. }
    apply submseteq_length in Hsub. lia.
  - split.
    { apply Hshape. fold nearby. by destruct (decide (length nearby < 2)%nat). }
    exists nearby. split_and!; [done|done|lia|done].
Qed.

(** *** [cleanup] *)

Lemma reindex_stores (c : EventCorrelator.t)
    (entries : list (Z * EventCorrelator.EventRecord)) :
  EventCorrelator.events_ (foldl EventCorrelator.reindex c entries)
  = EventCorrelator.events_ c
  ∧ EventCorrelator.correlations_ (foldl EventCorrelator.reindex c entries)
    = EventCorrelator.correlations_ c.
Proof.
  revert c. induction entries as [|entry entries IH]; intros c; [done|].
  simpl. destruct (IH (EventCorrelator.reindex c entry)) as [-> ->]. done.
Qed.

Lemma reindex_trace_index (c : EventCorrelator.t)
    (entries : list (Z * EventCorrelator.EventRecord)) (tid : string) :
  tid ≠ EmptyString →
  default [] (EventCorrelator.trace_id_index_
                (foldl EventCorrelator.reindex c entries) !! tid)
  = default [] (EventCorrelator.trace_id_index_ c !! tid)
    ++ (filter (λ entry : Z * EventCorrelator.EventRecord,
                  LogEvent.trace_id_ (EventCorrelator.event entry.2) = tid)
               entries).*1.
Proof.
  intros Hne. revert c.
  induction entries as [|entry entries IH]; intros c.
  { simpl. by rewrite app_nil_r. }
  simpl. rewrite IH. unfold EventCorrelator.reindex. simpl.
  destruct (decide (LogEvent.trace_id_ (EventCorrelator.event entry.2) = tid))
    as [Heq|Hother].
  - rewrite filter_cons_True by done.
    destruct (decide (LogEvent.trace_id_ _ = EmptyString)); [congruence|].
    rewrite push_index_lookup. rewrite decide_True by done.
    by rewrite <- app_assoc.
  - rewrite filter_cons_False by done.
    destruct (decide (LogEvent.trace_id_ _ = EmptyString)); [done|].
    rewrite push_index_lookup. rewrite decide_False by done.
    by rewrite app_nil_r.
Qed.

Lemma reindex_trace_index_empty (c : EventCorrelator.t)
    (entries : list (Z * EventCorrelator.EventRecord)) :
  EventCorrelator.trace_id_index_
    (foldl EventCorrelator.reindex c entries) !! EmptyString
  = EventCorrelator.trace_id_index_ c !! EmptyString.
Proof.
  revert c. induction entries as [|entry entries IH]; intros c; [done|].
  simpl. rewrite IH. unfold EventCorrelator.reindex. simpl.
  destruct (decide (LogEvent.trace_id_ _ = EmptyString)) as [|Hne]; [done|].
  unfold EventCorrelator.push_index. by rewrite lookup_insert_ne.
Qed.

Lemma reindex_service_index (c : EventCorrelator.t)
    (entries : list (Z * EventCorrelator.EventRecord)) (service : string) :
  service ≠ EmptyString →
  default [] (EventCorrelator.service_index_
                (foldl EventCorrelator.reindex c entries) !! service)
  = default [] (EventCorrelator.service_index_ c !! service)
    ++ (filter (λ entry : Z * EventCorrelator.EventRecord,
                  LogEvent.service_name_ (EventCorrelator.event entry.2)
                  = service)
               entries).*1.
Proof.
  intros Hne. revert c.
  induction entries as [|entry entries IH]; intros c.
  { simpl. by rewrite app_nil_r. }
  simpl. rewrite IH. unfold EventCorrelator.reindex. simpl.
  destruct (decide (LogEvent.service_name_ (EventCorrelator.event entry.2)
                    = service)) as [Heq|Hother].
  - rewrite filter_cons_True by done.
    destruct (decide (LogEvent.service_name_ _ = EmptyString)); [congruence|].
    rewrite push_index_lookup. rewrite decide_True by done.
    by rewrite <- app_assoc.
  - rewrite filter_cons_False by done.
    destruct (decide (LogEvent.service_name_ _ = EmptyString)); [done|].
    rewrite push_index_lookup. rewrite decide_False by done.
    by rewrite app_nil_r.
Qed.

Lemma reindex_service_index_empty (c : EventCorrelator.t)
    (entries : list (Z * EventCorrelator.EventRecord)) :
  EventCorrelator.service_index_
    (foldl EventCorrelator.reindex c entries) !! EmptyString
  = EventCorrelator.service_index_ c !! EmptyString.
Proof.
  revert c. induction entries as [|entry entries IH]; intros c; [done|].
  simpl. rewrite IH. unfold EventCorrelator.reindex. simpl.
  destruct (decide (LogEvent.service_name_ _ = EmptyString)) as [|Hne]; [done|].
  unfold EventCorrelator.push_index. by rewrite lookup_insert_ne.
Qed.

(** The loop over the entities of one event. *)
Lemma entity_index_pushed (index : gmap string (list Z))
    (entities : list (string * string)) (id id' : Z) (value : string) :
  id' ∈ default []
          (foldl (λ index kv, EventCorrelator.push_index index kv.2 id)
                 index entities !! value)
  ↔ id' ∈ default [] (index !! value)
    ∨ (id' = id ∧ ∃ key, (key, value) ∈ entities).
Proof.
  revert index. induction entities as [|[key value'] entities IH]; intros index.
  { simpl. split; [by left|]. intros [?|[_ [key Hin]]]; [done|].
    by apply elem_of_nil in Hin. }
  simpl. rewrite IH. rewrite push_index_lookup. 
  destruct (decide (value' = value)) as [->|Hother].
  - rewrite elem_of_app, list_elem_of_singleton. split.
    + intros [[? | ->] | [-> [key' Hin]]]; [by left| |].
      * right. split; [done|]. exists key. apply list_elem_of_here.
      * right. split; [done|]. exists key'. by apply list_elem_of_further.
    + intros [?|[-> [key' Hin]]]; [by left; left|].
      apply elem_of_cons in Hin as [Heq|Hin]; [by left; right|].
      right. split; [done|]. by exists key'.
  - rewrite app_nil_r. split.
    + intros [?|[-> [key' Hin]]]; [by left|].
      right. split; [done|]. exists key'. by apply list_elem_of_further.
    + intros [?|[-> [key' Hin]]]; [by left|].
      apply elem_of_cons in Hin as [Heq|Hin]; [congruence|].
      right. split; [done|]. by exists key'.
Qed.

Lemma reindex_entity_index (c : EventCorrelator.t)
    (entries : list (Z * EventCorrelator.EventRecord)) (value : string)
    (id : Z) :
  id ∈ default [] (EventCorrelator.entity_index_
                     (foldl EventCorrelator.reindex c entries) !! value)
  ↔ id ∈ default [] (EventCorrelator.entity_index_ c !! value)
    ∨ ∃ record key, (id, record) ∈ entries
        ∧ (key, value) ∈ LogEvent.entities_ (EventCorrelator.event record).
Proof.
  revert c. induction entries as [|[id' record'] entries IH]; intros c.
  { simpl. split; [by left|]. intros [?|(record & key & Hin & _)]; [done|].
    by apply elem_of_nil in Hin. }
  simpl. rewrite IH. unfold EventCorrelator.reindex. simpl.
  rewrite entity_index_pushed. split.
  - intros [[?|[-> [key Hin]]]|(record & key & Hin & Hentity)].
    + by left.
    + right. exists record', key. split; [apply list_elem_of_here|done].
    + right. exists record, key. split; [by apply list_elem_of_further|done].
  - intros [?|(record & key & Hin & Hentity)]; [by left; left|].
    apply elem_of_cons in Hin as [[= -> ->]|Hin].
    + left. right. split; [done|]. by exists key.
    + right. by exists record, key.
Qed.

(** X21.  [cleanup] keeps exactly the events whose time is not before the
    cutoff and exactly the correlations whose last time is not before it,
    in their order.  The three indices are rebuilt from the events that
    are kept: under a trace id, and under a service name, stands each kept
    event that carries it, once, and nothing stands under the empty
    string; under an entity value stand the kept events that have an
    entity of that value.  A correlation that is kept is kept as it is,
    with all the event ids it lists. *)
Theorem cleanup_keeps_recent (now max_age : Z) (c : EventCorrelator.t) :
  let cutoff := now - max_age in
  let c' := EventCorrelator.cleanup now max_age c in
  (∀ id record,
     EventCorrelator.events_ c' !! id = Some record
     ↔ EventCorrelator.events_ c !! id = Some record
       ∧ cutoff ≤ LogEvent.timestamp_ (EventCorrelator.event record))
  ∧ EventCorrelator.correlations_ c' `sublist_of` EventCorrelator.correlations_ c
  ∧ (∀ corr,
       corr ∈ EventCorrelator.correlations_ c'
       ↔ corr ∈ EventCorrelator.correlations_ c
         ∧ cutoff ≤ Correlation.last_event_time corr)
  ∧ (∀ tid,
       NoDup (default [] (EventCorrelator.trace_id_index_ c' !! tid))
       ∧ ∀ id,
           id ∈ default [] (EventCorrelator.trace_id_index_ c' !! tid)
           ↔ tid ≠ EmptyString
             ∧ ∃ record, EventCorrelator.events_ c' !! id = Some record
                 ∧ LogEvent.trace_id_ (EventCorrelator.event record) = tid)
  ∧ (∀ service,
       NoDup (default [] (EventCorrelator.service_index_ c' !! service))
       ∧ ∀ id,
           id ∈ default [] (EventCorrelator.service_index_ c' !! service)
           ↔ service ≠ EmptyString
             ∧ ∃ record, EventCorrelator.events_ c' !! id = Some record
                 ∧ LogEvent.service_name_ (EventCorrelator.event record)
                   = service)
  ∧ (∀ value id,
       id ∈ default [] (EventCorrelator.entity_index_ c' !! value)
       ↔ ∃ record key, EventCorrelator.events_ c' !! id = Some record
           ∧ (key, value) ∈ LogEvent.entities_ (EventCorrelator.event record)).
Proof.
  intros cutoff c'.
  set (kept := filter (λ entry : Z * EventCorrelator.EventRecord,
                         ¬ LogEvent.timestamp_ (EventCorrelator.event entry.2)
                           < cutoff) (EventCorrelator.events_ c)).
  set (start := EventCorrelator.mk kept
                  (List.filter
                     (λ corr, negb (bool_decide
                                      (Correlation.last_event_time corr < cutoff)))
                     (EventCorrelator.correlations_ c)) ∅ ∅ ∅).
  assert (Hc' : c' = foldl EventCorrelator.reindex start (map_to_list kept))
    by done.
  destruct (reindex_stores start (map_to_list kept)) as [Hevents Hcorrs].
  rewrite <- Hc' in Hevents, Hcorrs. simpl in Hevents, Hcorrs.
  assert (Hindex : ∀ (P : Z * EventCorrelator.EventRecord → Prop)
                     `{!∀ entry, Decision (P entry)},
             NoDup (filter P (map_to_list kept)).*1
             ∧ ∀ id, id ∈ (filter P (map_to_list kept)).*1
                     ↔ ∃ record, kept !! id = Some record ∧ P (id, record)).
  { intros P HP. split.
    - apply (sublist_NoDup _ (map_to_list kept).*1);
        [apply NoDup_fst_map_to_list|].
      apply fmap_sublist, sublist_filter.
    - intros id. rewrite list_elem_of_fmap. split.
      + intros ([id' record] & -> & Hin).
        apply list_elem_of_filter in Hin as [HPin Hin].
        apply elem_of_map_to_list in Hin. by exists record.
      + intros (record & Hlookup & HPin). exists (id, record).
        split; [done|]. apply list_elem_of_filter.
        split; [done|]. by apply elem_of_map_to_list. }
  split_and!.
  - intros id record. rewrite Hevents. subst kept.
    rewrite map_lookup_filter_Some. simpl.
    split; intros [Hlookup Htime]; (split; [done|lia]).
  - rewrite Hcorrs. apply filter_sublist.
  - intros corr. rewrite Hcorrs, elem_of_List_filter.
    rewrite negb_true_iff, bool_decide_eq_false.
    split; intros [Hin Htime]; (split; [done|lia]).
  - intros tid. rewrite Hevents.
    destruct (decide (tid = EmptyString)) as [->|Hne].
    + rewrite Hc', reindex_trace_index_empty. simpl. rewrite lookup_empty.
      simpl. split; [constructor|]. intros id. split.
      * intros Hin. by apply elem_of_nil in Hin.
      * by intros [? _].
    + rewrite Hc', reindex_trace_index by done. simpl. rewrite lookup_empty.
      simpl.
      destruct (Hindex (λ entry, LogEvent.trace_id_
                                   (EventCorrelator.event entry.2) = tid) _)
        as [Hnodup Hin].
      split; [done|]. intros id. rewrite Hin. simpl. split.
      * intros (record & Hlookup & Heq). split; [done|]. by exists record.
      * intros [_ (record & Hlookup & Heq)]. by exists record.
  - intros service. rewrite Hevents.
    destruct (decide (service = EmptyString)) as [->|Hne].
    + rewrite Hc', reindex_service_index_empty. simpl. rewrite lookup_empty.
      simpl. split; [constructor|]. intros id. split.
      * intros Hin. by apply elem_of_nil in Hin.
      * by intros [? _].
    + rewrite Hc', reindex_service_index by done. simpl. rewrite lookup_empty.
      simpl.
      destruct (Hindex (λ entry, LogEvent.service_name_
                                   (EventCorrelator.event entry.2) = service) _)
        as [Hnodup Hin].
      split; [done|]. intros id. rewrite Hin. simpl. split.
      * intros (record & Hlookup & Heq). split; [done|]. by exists record.
      * intros [_ (record & Hlookup & Heq)]. by exists record.
  - intros value id. rewrite Hevents, Hc', reindex_entity_index. simpl.
    rewrite lookup_empty. simpl. split.
    + intros [Hin|(record & key & Hin & Hentity)];
        [by apply elem_of_nil in Hin|].
      exists record, key. split; [by apply elem_of_map_to_list|done].
    + intros (record & key & Hlookup & Hentity). right.
      exists record, key. split; [by apply elem_of_map_to_list|done].
Qed.

(** *** Root causes *)

Lemma max_element_greatest (largest : Correlation.t)
    (rest : list Correlation.t) :
  RootCauseAnalyzer.max_element largest rest ∈ largest :: rest
  ∧ ∀ corr, corr ∈ largest :: rest →
      (Correlation.confidence corr
       <= Correlation.confidence (RootCauseAnalyzer.max_element largest rest))%R.
Proof.
  revert largest. induction rest as [|next rest IH]; intros largest.
  { simpl. split; [apply list_elem_of_here|].
    intros corr Hin. apply list_elem_of_singleton in Hin as ->. lra. }
  simpl.
  set (largest' := if dlt _ _ then next else largest).
  destruct (IH largest') as [Hin Hmax].
  assert (Hstep : (Correlation.confidence largest
                   <= Correlation.confidence largest')%R
                  ∧ (Correlation.confidence next
                     <= Correlation.confidence largest')%R
                  ∧ (largest' = largest ∨ largest' = next)).
  { subst largest'. unfold dlt. destruct (Rlt_dec _ _); split_and!;
      first [lra | by left | by right]. }
  destruct Hstep as (Hl & Hn & Hwhich).
  split.
  - apply elem_of_cons in Hin as [->|Hin].
    + destruct Hwhich as [->| ->];
        [apply list_elem_of_here|apply list_elem_of_further, list_elem_of_here].
    + by do 2 apply list_elem_of_further.
  - intros corr Hcorr.
    pose proof (Hmax largest' (list_elem_of_here _ _)) as Hfirst.
    apply elem_of_cons in Hcorr as [->|Hcorr]; [lra|].
    apply elem_of_cons in Hcorr as [->|Hcorr]; [lra|].
    apply Hmax. by apply list_elem_of_further.
Qed.

(** X22.  [find_root_cause_for_event] answers from the stored correlations
    that list the event.  When there is none it returns nothing.  Otherwise
    it picks one of greatest confidence among them and names the first
    event that correlation lists as the root, with seven tenths of the
    correlation's confidence, all the events of the correlation as
    affected, the event asked about among them, and two pieces of
    evidence; the type of the root event is left empty. *)
Theorem find_root_cause_for_event_strongest (c : EventCorrelator.t)
    (event_id : Z) (context : list LogEvent.t) :
  match RootCauseAnalyzer.find_root_cause_for_event c event_id context with
  | Some root =>
      ∃ best,
        best ∈ EventCorrelator.correlations_ c
        ∧ event_id ∈ Correlation.event_ids best
        ∧ (∀ corr, corr ∈ EventCorrelator.correlations_ c →
             event_id ∈ Correlation.event_ids corr →
             (Correlation.confidence corr <= Correlation.confidence best)%R)
        ∧ RootCauseAnalyzer.confidence root
          = (Correlation.confidence best * 0.7)%R
        ∧ RootCauseAnalyzer.affected_event_ids root = Correlation.event_ids best
        ∧ head (Correlation.event_ids best)
          = Some (RootCauseAnalyzer.root_event_id root)
        ∧ RootCauseAnalyzer.root_event_type root = EmptyString
        ∧ RootCauseAnalyzer.evidence root
          = [RootCauseAnalyzer.mkEvidence "temporal"
               "First event in time sequence" 0.6;
             RootCauseAnalyzer.mkEvidence "correlation"
               (Correlation.reason best) (Correlation.confidence best)]
  | None =>
      ∀ corr, corr ∈ EventCorrelator.correlations_ c →
        event_id ∉ Correlation.event_ids corr
  end.
Proof.
  unfold RootCauseAnalyzer.find_root_cause_for_event.
  assert (Hfor : ∀ corr,
            corr ∈ EventCorrelator.get_correlations_for_event c event_id
            ↔ corr ∈ EventCorrelator.correlations_ c
              ∧ event_id ∈ Correlation.event_ids corr).
  { intros corr. unfold EventCorrelator.get_correlations_for_event.
    by rewrite elem_of_List_filter, bool_decide_eq_true. }
  destruct (EventCorrelator.get_correlations_for_event c event_id)
    as [|first rest].
  { intros corr Hin Hlists. 
    assert (corr ∈ @nil Correlation.t) as Hnil by by apply Hfor.
    by apply elem_of_nil in Hnil. }
  destruct (max_element_greatest first rest) as [Hin Hmax].
  apply Hfor in Hin as [Hstored Hlists].
  unfold RootCauseAnalyzer.find_root_cause.
  destruct (Correlation.event_ids (RootCauseAnalyzer.max_element first rest))
    as [|front ids] eqn:Hids.
  { by apply elem_of_nil in Hlists. }
  exists (RootCauseAnalyzer.max_element first rest).
  rewrite Hids. simpl. split_and!; try done.
  intros corr Hcorr Hcorr_lists. apply Hmax. by apply Hfor.
Qed.

(** *** Correlation by entities *)

Lemma related_ids_inner (own : Z) (ids : list Z) (related : gset Z) (id : Z) :
  id ∈ foldl (λ (related' : gset Z) (id' : Z),
                if decide (id' = own) then related' else {[id']} ∪ related')
             related ids
  ↔ id ∈ related ∨ (id ≠ own ∧ id ∈ ids).
Proof.
  revert related. induction ids as [|id' ids IH]; intros related.
  { simpl. split; [by left|]. intros [?|[_ Hin]]; [done|].
    by apply elem_of_nil in Hin. }
  simpl. rewrite IH. rewrite elem_of_cons.
  destruct (decide (id' = own)) as [->|Hother].
  - split.
    + intros [?|[? ?]]; [by left|right; by split; [|right]].
    + intros [?|[? [->|?]]]; [by left|done|by right].
  - rewrite elem_of_union, elem_of_singleton. split.
    + intros [[->|?]|[? ?]]; [right; by split; [|left]|by left|].
      right. by split; [|right].
    + intros [?|[? [->|?]]]; [by left; right|by left; left|by right].
Qed.

Lemma related_events_spec (c : EventCorrelator.t) (ev : LogEvent.t) (id : Z) :
  id ∈ EventCorrelator.related_events c ev
  ↔ id ≠ LogEvent.event_id_ ev
    ∧ ∃ key value, (key, value) ∈ LogEvent.entities_ ev
        ∧ id ∈ default [] (EventCorrelator.entity_index_ c !! value).
Proof.
  unfold EventCorrelator.related_events.
  assert (Hfold : ∀ (entities : list (string * string)) (related : gset Z),
    id ∈ foldl
           (λ (related : gset Z) (kv : string * string),
              match EventCorrelator.entity_index_ c !! kv.2 with
              | Some ids =>
                  foldl (λ (related' : gset Z) (id : Z),
                           if decide (id = LogEvent.event_id_ ev) then related'
                           else {[id]} ∪ related')
                        related ids
              | None => related
              end)
           related entities
    ↔ id ∈ related
      ∨ (id ≠ LogEvent.event_id_ ev
         ∧ ∃ key value, (key, value) ∈ entities
             ∧ id ∈ default [] (EventCorrelator.entity_index_ c !! value))).
  { induction entities as [|[key value] entities IH]; intros related.
    { simpl. split; [by left|]. intros [?|[_ (key & value & Hin & _)]]; [done|].
      by apply elem_of_nil in Hin. }
    simpl. rewrite IH. 
    destruct (EventCorrelator.entity_index_ c !! value) as [ids|] eqn:Hids.
    - rewrite related_ids_inner. split.
      + intros [[?|[Hother Hin]]|[Hother (key' & value' & Hin & Hid)]].
        * by left.
        * right. split; [done|]. exists key, value.
          split; [apply list_elem_of_here|by rewrite Hids].
        * right. split; [done|]. exists key', value'.
          split; [by apply list_elem_of_further|done].
      + intros [?|[Hother (key' & value' & Hin & Hid)]]; [by left; left|].
        apply elem_of_cons in Hin as [Heq|Hin].
        * injection Heq as -> ->. rewrite Hids in Hid. left. right. by split.
        * right. split; [done|]. by exists key', value'.
    - split.
      + intros [?|[Hother (key' & value' & Hin & Hid)]]; [by left|].
        right. split; [done|]. exists key', value'.
        split; [by apply list_elem_of_further|done].
      + intros [?|[Hother (key' & value' & Hin & Hid)]]; [by left|].
        apply elem_of_cons in Hin as [Heq|Hin].
        * injection Heq as -> ->. rewrite Hids in Hid.
          by apply elem_of_nil in Hid.
        * right. split; [done|]. by exists key', value'. }
  rewrite Hfold. split.
  - intros [Hin|?]; [|done]. by apply elem_of_empty in Hin.
  - by right.
Qed.

(** X23.  [correlate_by_entities] relates the event to the events recorded
    under the value of one of its entities, whatever the key of the
    entity.  Each of them is listed once and the event itself is left out
    of them, also when it has been recorded before; the event is then put
    at the end.  When no other event shares a value there is no
    correlation. *)
Theorem correlate_by_entities_others (c : EventCorrelator.t)
    (ev : LogEvent.t) :
  let related (id : Z) :=
    id ≠ LogEvent.event_id_ ev
    ∧ ∃ key value, (key, value) ∈ LogEvent.entities_ ev
        ∧ id ∈ default [] (EventCorrelator.entity_index_ c !! value) in
  match EventCorrelator.correlate_by_entities c ev with
  | Some corr =>
      found_for ev "entity" 0.8 corr
      ∧ ∃ others,
          Correlation.event_ids corr = others ++ [LogEvent.event_id_ ev]
          ∧ NoDup others
          ∧ ∀ id, id ∈ others ↔ related id
  | None => ∀ id, ¬ related id
  end.
Proof.
  intros related.
  pose proof (correlate_by_entities_found c ev) as Hshape.
  destruct (EventCorrelator.correlate_by_entities c ev) as [corr|] eqn:Hcorr.
  - split; [by apply Hshape|].
    unfold EventCorrelator.correlate_by_entities in Hcorr. cbv zeta in Hcorr.
    destruct (decide _) as [|Hne]; [done|]. injection Hcorr as <-.
    exists (elements (EventCorrelator.related_events c ev)).
    split_and!; [done|apply NoDup_elements|].
    intros id. rewrite elem_of_elements. apply related_events_spec.
  - unfold EventCorrelator.correlate_by_entities in Hcorr. cbv zeta in Hcorr.
    destruct (decide _) as [Hnil|]; [|done].
    intros id Hrelated. apply related_events_spec in Hrelated.
    apply elem_of_elements in Hrelated. rewrite Hnil in Hrelated.
    by apply elem_of_nil in Hrelated.
Qed.

(** *** What [learn] leaves alone *)

Lemma std_min_positive (x : R) : (0 < x)%R → (0 < std_min 1 x <= 1)%R.
Proof. intros Hx. unfold std_min, dlt. destruct (Rlt_dec _ _); lra. Qed.

Lemma observe_strength (rel : CausalityAnalyzer.CausalRelationship)
    (prev_event event : LogEvent.t) :
  (CausalityAnalyzer.observed_count rel ≠ 0 →
   (0 < CausalityAnalyzer.strength rel)%R) →
  (0 < CausalityAnalyzer.strength
         (CausalityAnalyzer.observe rel prev_event event) <= 1)%R.
Proof.
  intros Hpos. unfold CausalityAnalyzer.observe. cbv zeta.
  destruct (decide _) as [Hzero|Hseen]; simpl; apply std_min_positive.
  - lra.
  - specialize (Hpos Hseen). lra.
Qed.

Lemma learn_cons (a : CausalityAnalyzer.t) (event prev_event : LogEvent.t)
    (context : list LogEvent.t) :
  CausalityAnalyzer.learn a event (prev_event :: context)
  = CausalityAnalyzer.learn (CausalityAnalyzer.learn a event [prev_event])
      event context.
Proof. done. Qed.

Lemma learn_single (a : CausalityAnalyzer.t) (event prev_event : LogEvent.t) :
  CausalityAnalyzer.learn a event [prev_event]
  = if decide (LogEvent.timestamp_ prev_event
               < LogEvent.timestamp_ event - CausalityAnalyzer.seconds 60)
    then a
    else
      let pair :=
        (LogEvent.event_type_ prev_event, LogEvent.event_type_ event) in
      CausalityAnalyzer.mk
        (<[pair := CausalityAnalyzer.observe
                     (default CausalityAnalyzer.fresh
                        (CausalityAnalyzer.relationships_ a !! pair))
                     prev_event event]>
           (CausalityAnalyzer.relationships_ a)).
Proof. done. Qed.

Lemma learn_strengths (a : CausalityAnalyzer.t) (event : LogEvent.t)
    (context : list LogEvent.t) :
  strengths_in_unit a →
  strengths_in_unit (CausalityAnalyzer.learn a event context).
Proof.
  revert a. induction context as [|prev_event context IH]; intros a Ha; [done|].
  rewrite learn_cons. apply IH. rewrite learn_single.
  destruct (decide _); [done|]. cbv zeta.
  unfold strengths_in_unit. simpl. apply map_Forall_insert_2; [|done].
  apply observe_strength. intros Hseen.
  destruct (CausalityAnalyzer.relationships_ a !! _) as [rel|] eqn:Hrel; simpl.
  - by apply (Ha _ _ Hrel).
  - done.
Qed.

Lemma learn_never_forgets (a : CausalityAnalyzer.t) (event : LogEvent.t)
    (context : list LogEvent.t) (pair : string * string) :
  is_Some (CausalityAnalyzer.relationships_ a !! pair) →
  is_Some (CausalityAnalyzer.relationships_
             (CausalityAnalyzer.learn a event context) !! pair).
Proof.
  revert a. induction context as [|prev_event context IH]; intros a Hpair; [done|].
  rewrite learn_cons. apply IH. rewrite learn_single.
  destruct (decide _); [done|]. cbv zeta. simpl.
  destruct (decide (pair = (LogEvent.event_type_ prev_event,
                            LogEvent.event_type_ event))) as [->|Hne].
  - by rewrite lookup_insert_eq.
  - by rewrite lookup_insert_ne.
Qed.

Lemma learn_knows (a : CausalityAnalyzer.t) (event prev_event : LogEvent.t)
    (context : list LogEvent.t) :
  prev_event ∈ context →
  LogEvent.timestamp_ event - 60000000000 ≤ LogEvent.timestamp_ prev_event →
  is_Some (CausalityAnalyzer.relationships_
             (CausalityAnalyzer.learn a event context)
           !! (LogEvent.event_type_ prev_event, LogEvent.event_type_ event)).
Proof.
  intros Hin Hrecent. revert a.
  induction context as [|prev' context IH]; intros a.
  { by apply elem_of_nil in Hin. }
  rewrite learn_cons.
  apply elem_of_cons in Hin as [<-|Hin]; [|by apply IH].
  apply learn_never_forgets. rewrite learn_single.
  destruct (decide _) as [Hold|_].
  { unfold CausalityAnalyzer.seconds in Hold. lia. }
  cbv zeta. simpl. by rewrite lookup_insert_eq.
Qed.

(** X24.  [learn] never forgets a relationship.  It changes the entry of a
    pair only when the effect is the type of the event and the cause the
    type of an event of the context that is not older than 60 seconds.
    When every known strength is above 0 and at most 1, that is still so
    afterwards; it is so for the built-in relationships, hence for an
    engine that started with them, whatever events it has processed. *)
Theorem learn_keeps_relationships (a : CausalityAnalyzer.t)
    (event : LogEvent.t) (context : list LogEvent.t) :
  let a' := CausalityAnalyzer.learn a event context in
  (∀ pair, is_Some (CausalityAnalyzer.relationships_ a !! pair) →
     is_Some (CausalityAnalyzer.relationships_ a' !! pair))
  ∧ (∀ cause effect,
       CausalityAnalyzer.relationships_ a' !! (cause, effect)
       = CausalityAnalyzer.relationships_ a !! (cause, effect)
       ∨ (effect = LogEvent.event_type_ event
          ∧ ∃ prev_event, prev_event ∈ context
              ∧ LogEvent.event_type_ prev_event = cause
              ∧ LogEvent.timestamp_ event - 60000000000
                ≤ LogEvent.timestamp_ prev_event))
  ∧ (strengths_in_unit a → strengths_in_unit a')
  ∧ ∀ inputs,
      strengths_in_unit
        (CorrelationEngine.causality_
           (processed
              (CorrelationEngine.register_builtin_relationships
                 CorrelationEngine.create) inputs)).
Proof.
  intros a'. split_and!.
  - intros pair. apply learn_never_forgets.
  - subst a'. revert a.
    induction context as [|prev_event context IH]; intros a cause effect;
      [by left|].
    rewrite learn_cons.
    destruct (IH (CausalityAnalyzer.learn a event [prev_event]) cause effect)
      as [Hsame|(-> & prev' & Hin & Htype & Htime)].
    + rewrite Hsame, learn_single.
      destruct (decide _) as [Hold|Hrecent]; [by left|]. cbv zeta. simpl.
      destruct (decide ((cause, effect)
                        = (LogEvent.event_type_ prev_event,
                           LogEvent.event_type_ event))) as [[= -> ->]|Hne].
      * right. split; [done|]. exists prev_event.
        split; [apply list_elem_of_here|]. split; [done|].
        unfold CausalityAnalyzer.seconds in Hrecent. lia.
      * left. by rewrite lookup_insert_ne.
    + right. split; [done|]. exists prev'.
      split; [by apply list_elem_of_further|done].
  - apply learn_strengths.
  - intros inputs. unfold processed.
    induction inputs as [|input inputs IH] using rev_ind.
    + simpl. unfold strengths_in_unit. simpl.
      repeat (apply map_Forall_insert_2; [simpl; lra|]).
      apply map_Forall_empty.
    + rewrite foldl_app. simpl. by apply learn_strengths.
Qed.

(** X25.  What [learn] has learnt, [analyze] reports: asked about the same
    event and context, it returns the known relationship from the type of
    each event of the context to the type of the event, in the order of
    the context, and after [learn] there is one for every event of the
    context that is not older than 60 seconds.  An analyzer that knows
    nothing reports nothing. *)
Theorem analyze_after_learn (a : CausalityAnalyzer.t) (event : LogEvent.t)
    (context : list LogEvent.t) :
  let a' := CausalityAnalyzer.learn a event context in
  let recent (prev_event : LogEvent.t) :=
    LogEvent.timestamp_ event - 60000000000 ≤ LogEvent.timestamp_ prev_event in
  (∀ prev_event, prev_event ∈ context → recent prev_event →
     ∃ rel,
       CausalityAnalyzer.relationships_ a'
         !! (LogEvent.event_type_ prev_event, LogEvent.event_type_ event)
       = Some rel
       ∧ rel ∈ CausalityAnalyzer.analyze a' event context)
  ∧ (∀ rel,
       rel ∈ CausalityAnalyzer.analyze a' event context
       ↔ ∃ prev_event, prev_event ∈ context
           ∧ CausalityAnalyzer.relationships_ a'
               !! (LogEvent.event_type_ prev_event, LogEvent.event_type_ event)
             = Some rel)
  ∧ (length (filter recent context)
     ≤ length (CausalityAnalyzer.analyze a' event context)
     ≤ length context)%nat
  ∧ CausalityAnalyzer.analyze CausalityAnalyzer.create event context = [].
Proof.
  intros a' recent.
  assert (Hknown : ∀ prev_event, prev_event ∈ context → recent prev_event →
            is_Some (CausalityAnalyzer.relationships_ a'
                       !! (LogEvent.event_type_ prev_event,
                           LogEvent.event_type_ event)))
    by (intros prev_event Hin Hrecent; by apply learn_knows).
  split; [|split; [|split]].
  - intros prev_event Hin Hrecent.
    destruct (Hknown prev_event Hin Hrecent) as [rel Hrel].
    exists rel. split; [done|].
    unfold CausalityAnalyzer.analyze. apply list_elem_of_omap.
    by exists prev_event.
  - intros rel. unfold CausalityAnalyzer.analyze. apply list_elem_of_omap.
  - unfold CausalityAnalyzer.analyze. clearbody a'. clear a.
    induction context as [|prev_event context IH]; [simpl; lia|].
    assert (Hrest : ∀ prev, prev ∈ context → recent prev →
              is_Some (CausalityAnalyzer.relationships_ a'
                         !! (LogEvent.event_type_ prev,
                             LogEvent.event_type_ event)))
      by (intros prev Hin; apply Hknown; by apply list_elem_of_further).
    specialize (IH Hrest).
    destruct (decide (recent prev_event)) as [Hrecent|Hold].
    + rewrite filter_cons_True by done.
      destruct (Hknown prev_event (list_elem_of_here _ _) Hrecent)
        as [rel Hrel].
      cbn [omap list_omap]. rewrite Hrel. simpl. lia.
    + rewrite filter_cons_False by done.
      cbn [omap list_omap]. destruct (_ !! _); simpl; lia.
  - unfold CausalityAnalyzer.analyze. clear Hknown a'.
    induction context as [|prev_event context IH]; [done|].
    cbn [omap list_omap]. cbn beta.
    change (CausalityAnalyzer.relationships_ CausalityAnalyzer.create)
      with (∅ : gmap (string * string) CausalityAnalyzer.CausalRelationship)
      in *.
    by rewrite lookup_empty.
Qed.

(** ** The text helpers of the integrations *)

Lemma json_escape_char_read (char_is_signed : bool) (c : ascii) (rest : string) :
  char_is_signed = false ∨ Z.of_N (N_of_ascii c) < 128 →
  json_unescape (json_escape_char char_is_signed c +:+ rest)
  = String c <$> json_unescape rest.
Proof.
  intros Hplain.
  destruct char_is_signed;
    destruct c as [[] [] [] [] [] [] [] []];
    try (exfalso; destruct Hplain as [Hplain|Hplain];
         [discriminate Hplain|vm_compute in Hplain; discriminate Hplain]);
    reflexivity.
Qed.

Lemma json_escape_char_misread (c : ascii) (rest : string) :
  128 ≤ Z.of_N (N_of_ascii c) →
  json_unescape (json_escape_char true c +:+ rest)
  = String (byte 255) <$> (String "f"%char <$> (String "f"%char <$>
      (String "f"%char <$> (String "f"%char <$>
        (String (hex_digit (Z.of_N (N_of_ascii c) `div` 16)) <$>
          (String (hex_digit (Z.of_N (N_of_ascii c) `mod` 16)) <$>
             json_unescape rest)))))).
Proof.
  intros Hhigh.
  destruct c as [[] [] [] [] [] [] [] []];
    try (exfalso; vm_compute in Hhigh; by apply Hhigh); reflexivity.
Qed.

Lemma seven_bit_cons (c : ascii) (rest : string) :
  seven_bit (String c rest) ↔ Z.of_N (N_of_ascii c) < 128 ∧ seven_bit rest.
Proof. unfold seven_bit. simpl. by rewrite Forall_cons. Qed.

Lemma json_escape_read (char_is_signed : bool) (input : string) :
  ∃ read,
    json_unescape (json_escape char_is_signed input) = Some read
    ∧ (String.length input ≤ String.length read)%nat
    ∧ (read = input ↔ char_is_signed = false ∨ seven_bit input).
Proof.
  induction input as [|c rest (read & Hread & Hlength & Hsame)].
  { exists EmptyString. split_and!; [done|done|].
    split; [|done]. intros _. right. constructor. }
  simpl.
  destruct (decide (char_is_signed = false ∨ Z.of_N (N_of_ascii c) < 128))
    as [Hplain|Hhigh].
  - exists (String c read). rewrite json_escape_char_read, Hread by done.
    split_and!; [done|simpl; lia|].
    rewrite seven_bit_cons. split.
    + intros [= Heq]. apply Hsame in Heq. destruct Heq; [by left|].
      destruct Hplain; [by left|by right].
    + intros Hok. f_equal. apply Hsame. destruct Hok as [?|[_ ?]]; auto.
  - assert (char_is_signed = true) as -> by (destruct char_is_signed; tauto).
    assert (128 ≤ Z.of_N (N_of_ascii c)) as Hc by lia.
    eexists. rewrite json_escape_char_misread, Hread by done.
    split_and!; [done| |].
    + simpl. lia.
    + rewrite seven_bit_cons. split.
      * intros Heq. exfalso.
        apply (f_equal String.length) in Heq. simpl in Heq. lia.
      * intros [?|[? _]]; [done|lia].
Qed.

(** X26.  What [json_escape] writes can always be read back as the body of
    a JSON string: no quotation mark, backslash or control character is
    left bare.  Reading it back gives the input again exactly when plain
    [char] is unsigned or every byte of the input is below 128.  Where
    [char] is signed, a byte from 128 up is written as a backslash, [u00]
    and the eight hexadecimal digits of the negative [int], which reads
    back as other, and more, characters. *)
Theorem json_escape_reads_back (char_is_signed : bool) (input : string) :
  (∃ read,
     json_unescape (json_escape char_is_signed input) = Some read
     ∧ (String.length input ≤ String.length read)%nat)
  ∧ (json_unescape (json_escape char_is_signed input) = Some input
     ↔ char_is_signed = false ∨ seven_bit input)
  ∧ ∀ c, 128 ≤ Z.of_N (N_of_ascii c) →
      json_escape true (String c EmptyString)
      = backslash +:+ "u00ffffff" +:+ show_hex (Z.of_N (N_of_ascii c)).
Proof.
  destruct (json_escape_read char_is_signed input)
    as (read & Hread & Hlength & Hsame).
  split_and!.
  - by exists read.
  - rewrite Hread. split.
    + intros [= Heq]. by apply Hsame.
    + intros Hok. f_equal. by apply Hsame.
  - intros c Hhigh.
    destruct c as [[] [] [] [] [] [] [] []];
      try (exfalso; vm_compute in Hhigh; by apply Hhigh); reflexivity.
Qed.

(** *** Base64 *)

Lemma byte_value_range (c : ascii) : 0 ≤ byte_value c < 256.
Proof.
  unfold byte_value. pose proof (N_ascii_bounded c) as Hc. lia.
Qed.

Lemma to_int32_mod (x : Z) : to_int32 x `mod` 2 ^ 32 = x `mod` 2 ^ 32.
Proof.
  unfold to_int32. cbv zeta. destruct (decide _).
  - apply Z.mod_mod. lia.
  - rewrite <- (Z.mod_add _ 1) by lia.
    replace (x `mod` 2 ^ 32 - 2 ^ 32 + 1 * 2 ^ 32) with (x `mod` 2 ^ 32) by lia.
    apply Z.mod_mod. lia.
Qed.

(** Six bits of an [int] taken at a shift of at most 26 depend on the
    value modulo 2^32 only. *)
Lemma six_bits (x y shift : Z) :
  0 ≤ shift ≤ 26 →
  x `mod` 2 ^ 32 = y `mod` 2 ^ 32 →
  Z.land (Z.shiftr x shift) 63 = (y `div` 2 ^ shift) `mod` 64.
Proof.
  intros Hshift Hsame.
  change 63 with (Z.ones 6). rewrite Z.land_ones by lia.
  rewrite Z.shiftr_div_pow2 by lia.
  change (2 ^ 6) with 64.
  assert (Hbits : ∀ z, (z `div` 2 ^ shift) `mod` 64
                       = ((z `mod` 2 ^ 32) `div` 2 ^ shift) `mod` 64).
  { intros z.
    rewrite (Z.div_mod z (2 ^ 32)) at 1 by lia.
    replace (2 ^ 32) with (2 ^ (26 - shift) * 64 * 2 ^ shift).
    2:{ change 64 with (2 ^ 6). rewrite <- !Z.pow_add_r by lia.
        f_equal. lia. }
    set (p := 2 ^ shift). assert (0 < p) by (apply Z.pow_pos_nonneg; lia).
    set (q := 2 ^ (26 - shift)).
    replace (q * 64 * p * (z `div` (q * 64 * p)) + z `mod` (q * 64 * p))
      with (z `mod` (q * 64 * p) + (q * (z `div` (q * 64 * p)) * 64) * p) by lia.
    rewrite Z.div_add by lia.
    by rewrite Z.mod_add by lia. }
  rewrite (Hbits x), (Hbits y). by rewrite Hsame.
Qed.

Lemma val_step (x y a : Z) :
  x `mod` 2 ^ 32 = y `mod` 2 ^ 32 →
  to_int32 (to_int32 (Z.shiftl x 8) + a) `mod` 2 ^ 32
  = (y * 256 + a) `mod` 2 ^ 32.
Proof.
  intros Hsame. rewrite to_int32_mod.
  rewrite Z.add_mod, to_int32_mod by lia.
  rewrite Z.shiftl_mul_pow2 by lia. change (2 ^ 8) with 256.
  rewrite (Z.mul_mod x), Hsame, <- Z.mul_mod by lia.
  by rewrite <- Z.add_mod by lia.
Qed.

Lemma val_shift (x y : Z) :
  x `mod` 2 ^ 32 = y `mod` 2 ^ 32 →
  to_int32 (Z.shiftl x 8) `mod` 2 ^ 32 = (y * 256) `mod` 2 ^ 32.
Proof.
  intros Hsame. rewrite to_int32_mod.
  rewrite Z.shiftl_mul_pow2 by lia. change (2 ^ 8) with 256.
  by rewrite (Z.mul_mod x), Hsame, <- Z.mul_mod by lia.
Qed.

Lemma list_ind3 {A : Type} (P : list A → Prop) :
  P [] → (∀ a, P [a]) → (∀ a b, P [a; b]) →
  (∀ a b c l, P l → P (a :: b :: c :: l)) →
  ∀ l, P l.
Proof.
  intros H0 H1 H2 H3 l.
  assert (Hall : ∀ n l, (length l ≤ n)%nat → P l).
  { clear l. induction n as [|n IH]; intros l Hl.
    - destruct l; [done|simpl in Hl; lia].
    - destruct l as [|a [|b [|c l]]]; [done|done|done|].
      apply H3, IH. simpl in Hl. lia. }
  by apply (Hall (length l)).
Qed.

Lemma six_bits_low (n low high shift : Z) :
  0 ≤ shift →
  n = low + high * (64 * 2 ^ shift) →
  (n `div` 2 ^ shift) `mod` 64 = (low `div` 2 ^ shift) `mod` 64.
Proof.
  intros Hshift ->.
  assert (0 < 2 ^ shift) by (apply Z.pow_pos_nonneg; lia).
  replace (high * (64 * 2 ^ shift)) with (high * 64 * 2 ^ shift) by lia.
  rewrite Z.div_add by lia. by rewrite Z.mod_add by lia.
Qed.

(** The six bits the encoder takes, in terms of the last bytes read. *)
Lemma bits_first (v a : Z) :
  0 ≤ a < 256 →
  ((v * 256 + a) `div` 2 ^ 2) `mod` 64 = a `div` 4.
Proof.
  intros Ha. rewrite (six_bits_low _ a v) by lia.
  change (2 ^ 2) with 4. Z.div_mod_to_equations. lia.
Qed.

Lemma bits_second (v a b : Z) :
  0 ≤ a < 256 → 0 ≤ b < 256 →
  (((v * 256 + a) * 256 + b) `div` 2 ^ 4) `mod` 64
  = a `mod` 4 * 16 + b `div` 16.
Proof.
  intros Ha Hb.
  rewrite (six_bits_low _ (a `mod` 4 * 256 + b) (v * 64 + a `div` 4))
    by (try lia; change (2 ^ 4) with 16; Z.div_mod_to_equations; lia).
  change (2 ^ 4) with 16.
  pose proof (Z.mod_pos_bound a 4 ltac:(lia)) as Hm.
  generalize dependent (a `mod` 4). intros m Hm.
  Z.div_mod_to_equations. lia.
Qed.

Lemma bits_third (v a b c : Z) :
  0 ≤ b < 256 → 0 ≤ c < 256 →
  ((((v * 256 + a) * 256 + b) * 256 + c) `div` 2 ^ 6) `mod` 64
  = b `mod` 16 * 4 + c `div` 64.
Proof.
  intros Hb Hc.
  rewrite (six_bits_low _ (b `mod` 16 * 256 + c)
             ((v * 256 + a) * 16 + b `div` 16))
    by (try lia; change (2 ^ 6) with 64; Z.div_mod_to_equations; lia).
  change (2 ^ 6) with 64.
  pose proof (Z.mod_pos_bound b 16 ltac:(lia)) as Hm.
  generalize dependent (b `mod` 16). intros m Hm.
  Z.div_mod_to_equations. lia.
Qed.

Lemma bits_fourth (v c : Z) :
  ((v * 256 + c) `div` 2 ^ 0) `mod` 64 = c `mod` 64.
Proof.
  rewrite (six_bits_low _ c (v * 4)) by lia.
  change (2 ^ 0) with 1. by rewrite Z.div_1_r.
Qed.

Lemma bits_last_of_one (v a : Z) :
  0 ≤ a < 256 →
  (((v * 256 + a) * 256) `div` 2 ^ 4) `mod` 64 = a `mod` 4 * 16.
Proof.
  intros Ha.
  rewrite (six_bits_low _ (a `mod` 4 * 256) (v * 64 + a `div` 4))
    by (try lia; change (2 ^ 4) with 16; Z.div_mod_to_equations; lia).
  change (2 ^ 4) with 16.
  pose proof (Z.mod_pos_bound a 4 ltac:(lia)) as Hm.
  generalize dependent (a `mod` 4). intros m Hm.
  Z.div_mod_to_equations. lia.
Qed.

Lemma bits_last_of_two (v b : Z) :
  0 ≤ b < 256 →
  (((v * 256 + b) * 256) `div` 2 ^ 6) `mod` 64 = b `mod` 16 * 4.
Proof.
  intros Hb.
  rewrite (six_bits_low _ (b `mod` 16 * 256) (v * 16 + b `div` 16))
    by (try lia; change (2 ^ 6) with 64; Z.div_mod_to_equations; lia).
  change (2 ^ 6) with 64.
  pose proof (Z.mod_pos_bound b 16 ltac:(lia)) as Hm.
  generalize dependent (b `mod` 16). intros m Hm.
  Z.div_mod_to_equations. lia.
Qed.

(** One byte read at each of the three positions of a group. *)
Lemma step_first (s : Base64.state) (a : ascii) :
  Base64.valb s = -6 →
  let val' := to_int32 (to_int32 (Z.shiftl (Base64.val s) 8) + byte_value a) in
  Base64.step s a
  = Base64.mk
      (Base64.output s ++ [base64_char (Z.land (Z.shiftr val' 2) 63)])
      val' (-4).
Proof. intros Hvalb. unfold Base64.step. by rewrite Hvalb. Qed.

Lemma step_second (s : Base64.state) (b : ascii) :
  Base64.valb s = -4 →
  let val' := to_int32 (to_int32 (Z.shiftl (Base64.val s) 8) + byte_value b) in
  Base64.step s b
  = Base64.mk
      (Base64.output s ++ [base64_char (Z.land (Z.shiftr val' 4) 63)])
      val' (-2).
Proof. intros Hvalb. unfold Base64.step. by rewrite Hvalb. Qed.

Lemma step_third (s : Base64.state) (c : ascii) :
  Base64.valb s = -2 →
  let val' := to_int32 (to_int32 (Z.shiftl (Base64.val s) 8) + byte_value c) in
  Base64.step s c
  = Base64.mk
      (Base64.output s
       ++ [base64_char (Z.land (Z.shiftr val' 6) 63);
           base64_char (Z.land (Z.shiftr val' 0) 63)])
      val' (-6).
Proof.
  intros Hvalb. unfold Base64.step. rewrite Hvalb. simpl.
  by rewrite <- app_assoc.
Qed.

Lemma pad_full (output : list ascii) :
  (length output `mod` 4 = 0)%nat → Base64.pad 3 output = output.
Proof. intros Hfull. unfold Base64.pad. by rewrite decide_True. Qed.

Lemma pad_one (output : list ascii) :
  (length output `mod` 4 = 3)%nat →
  Base64.pad 3 output = output ++ ["="%char].
Proof.
  intros Hlength. unfold Base64.pad.
  rewrite decide_False by (rewrite Hlength; lia).
  rewrite decide_True; [done|].
  rewrite length_app. by rewrite Nat.Div0.add_mod, Hlength.
Qed.

Lemma pad_two (output : list ascii) :
  (length output `mod` 4 = 2)%nat →
  Base64.pad 3 output = output ++ ["="%char; "="%char].
Proof.
  intros Hlength. unfold Base64.pad.
  rewrite decide_False by (rewrite Hlength; lia).
  assert (Hnext : (length (output ++ ["="%char]) `mod` 4 = 3)%nat)
    by (rewrite length_app; by rewrite Nat.Div0.add_mod, Hlength).
  rewrite decide_False by (rewrite Hnext; lia).
  rewrite decide_True.
  - by rewrite <- app_assoc.
  - rewrite length_app. by rewrite Nat.Div0.add_mod, Hnext.
Qed.

Lemma length_mod_4 {A : Type} (l k : list A) :
  (length l `mod` 4 = 0)%nat →
  (length (l ++ k) `mod` 4 = length k `mod` 4)%nat.
Proof.
  intros Hfull. rewrite length_app.
  rewrite Nat.Div0.add_mod, Hfull, Nat.add_0_l. by rewrite Nat.Div0.mod_mod.
Qed.

(** The encoder from any state between two groups. *)
Lemma encode_groups (bytes : list ascii) :
  ∀ s, Base64.valb s = -6 →
    (length (Base64.output s) `mod` 4 = 0)%nat →
    let s' := foldl Base64.step s bytes in
    Base64.pad 3
      (if decide (-6 < Base64.valb s')
       then Base64.output s'
            ++ [base64_char
                  (Z.land (Z.shiftr (to_int32 (Z.shiftl (Base64.val s') 8))
                             (Base64.valb s' + 8)) 63)]
       else Base64.output s')
    = Base64.output s ++ base64_groups bytes.
Proof.
  induction bytes as [|a|a b|a b c bytes IH] using list_ind3;
    intros s Hvalb Hfull; cbv zeta.
  - cbn [foldl base64_groups]. rewrite Hvalb. rewrite decide_False by lia.
    rewrite app_nil_r. by apply pad_full.
  - cbn [foldl base64_groups]. rewrite (step_first s) by done. cbv zeta.
    cbn [Base64.output Base64.val Base64.valb].
    pose proof (byte_value_range a) as Ha.
    set (v := Base64.val s).
    rewrite (six_bits _ (v * 256 + byte_value a)) by
      (try lia; by apply val_step).
    rewrite (six_bits _ ((v * 256 + byte_value a) * 256)) by
      (try lia; by apply val_shift, val_step).
    rewrite bits_first by done.
    change (-4 + 8) with 4. rewrite bits_last_of_one by done.
    rewrite decide_True by lia.
    rewrite pad_two.
    + by rewrite <- !app_assoc.
    + rewrite <- !app_assoc. rewrite length_mod_4; [reflexivity|done].
  - cbn [foldl base64_groups]. rewrite (step_first s) by done. cbv zeta.
    rewrite (step_second (Base64.mk _ _ _)) by done. cbv zeta.
    cbn [Base64.output Base64.val Base64.valb].
    pose proof (byte_value_range a) as Ha.
    pose proof (byte_value_range b) as Hb.
    set (v := Base64.val s).
    rewrite (six_bits _ (v * 256 + byte_value a)) by
      (try lia; by apply val_step).
    rewrite (six_bits _ ((v * 256 + byte_value a) * 256 + byte_value b)) by
      (try lia; by apply val_step, val_step).
    rewrite (six_bits _ (((v * 256 + byte_value a) * 256 + byte_value b) * 256))
      by (try lia; by apply val_shift, val_step, val_step).
    rewrite bits_first, bits_second by done.
    change (-2 + 8) with 6. rewrite bits_last_of_two by done.
    rewrite decide_True by lia.
    rewrite pad_one.
    + by rewrite <- !app_assoc.
    + rewrite <- !app_assoc. rewrite length_mod_4; [reflexivity|done].
  - change (foldl Base64.step s (a :: b :: c :: bytes))
      with (foldl Base64.step
              (Base64.step (Base64.step (Base64.step s a) b) c) bytes).
    rewrite (step_first s) by done. cbv zeta.
    rewrite (step_second (Base64.mk _ _ _)) by done. cbv zeta.
    rewrite (step_third (Base64.mk _ _ _)) by done. cbv zeta.
    cbn [Base64.output Base64.val Base64.valb].
    pose proof (byte_value_range a) as Ha.
    pose proof (byte_value_range b) as Hb.
    pose proof (byte_value_range c) as Hc.
    set (v := Base64.val s).
    rewrite (six_bits _ (v * 256 + byte_value a)) by
      (try lia; by apply val_step).
    rewrite (six_bits _ ((v * 256 + byte_value a) * 256 + byte_value b)) by
      (try lia; by apply val_step, val_step).
    rewrite !(six_bits _ (((v * 256 + byte_value a) * 256 + byte_value b) * 256
                         + byte_value c)) by
      (try lia; by apply val_step, val_step, val_step).
    rewrite bits_first, bits_second, bits_third, bits_fourth by done.
    rewrite IH; cbn [Base64.output Base64.val Base64.valb base64_groups].
    + by rewrite <- !app_assoc.
    + done.
    + rewrite <- !app_assoc. rewrite length_mod_4; [reflexivity|done].
Qed.

Lemma base64_groups_length (bytes : list ascii) :
  length (base64_groups bytes) = (4 * ((length bytes + 2) `div` 3))%nat.
Proof.
  induction bytes as [|a|a b|a b c bytes IH] using list_ind3; [done..|].
  cbn [base64_groups]. rewrite length_app, IH. cbn [length].
  replace (S (S (S (length bytes))) + 2)%nat
    with (length bytes + 2 + 1 * 3)%nat by lia.
  rewrite Nat.div_add by lia. lia.
Qed.

Lemma string_of_list_ascii_length (l : list ascii) :
  String.length (string_of_list_ascii l) = length l.
Proof. induction l as [|c l IH]; simpl; by f_equal. Qed.

Lemma list_ascii_of_string_length (s : string) :
  length (list_ascii_of_string s) = String.length s.
Proof. induction s as [|c s IH]; simpl; by f_equal. Qed.

(** X27.  [base64_encode] writes the Base64 text of RFC 4648 for its
    input, with the padding, whatever the length of the input: the
    variable [val] gathers all the bytes read and overflows after the
    fourth, but only bits of the last two bytes are ever taken from it.
    The text has four characters for every three bytes begun. *)
Theorem base64_encode_is_base64 (input : string) :
  base64_encode input
  = string_of_list_ascii (base64_groups (list_ascii_of_string input))
  ∧ String.length (base64_encode input)
    = (4 * ((String.length input + 2) `div` 3))%nat.
Proof.
  assert (Hencode : base64_encode input
            = string_of_list_ascii
                (base64_groups (list_ascii_of_string input))).
  { unfold base64_encode. cbv zeta. f_equal.
    by rewrite (encode_groups (list_ascii_of_string input)
                  (Base64.mk [] 0 (-6))). }
  split; [done|].
  rewrite Hencode, string_of_list_ascii_length, base64_groups_length.
  by rewrite list_ascii_of_string_length.
Qed.
